(** * Koordlet resource manager: eviction executor, container killer and
      BE memory evictor

    A shallow embedding of
    [pkg/koordlet/resmanager/resmanager.go] and
    [pkg/koordlet/resmanager/memory_evict.go], with the properties the
    specification states about them and further properties of the code.

    The code talks to collaborators that live outside these two files (the
    clock, the states informer, the metric cache, the cluster API, the
    container runtime, Go's [sort.Slice]).  They are gathered in one record,
    [host]; everything below is parametric in it, so every theorem holds for
    every behaviour of the collaborators.  Calls run one after the other:
    the model is the sequential semantics of one goroutine. *)

From Stdlib Require Import ZArith List Bool Lia Sorted.
From Stdlib Require Import Floats.SpecFloat.
From stdpp Require Import base option list gmap strings pretty.

Local Open Scope string_scope.
Local Open Scope list_scope.
Local Open Scope Z_scope.

(** ** Go's [int64] *)

Module Int64.

Definition min_int : Z := - 2 ^ 63.
Definition max_int : Z := 2 ^ 63 - 1.

Definition in_range (z : Z) : Prop := min_int <= z <= max_int.

(** Two's complement wrap-around of a mathematical result. *)
Definition wrap (z : Z) : Z := (z + 2 ^ 63) mod 2 ^ 64 - 2 ^ 63.

Definition add (a b : Z) : Z := wrap (a + b).
Definition sub (a b : Z) : Z := wrap (a - b).
Definition mul (a b : Z) : Z := wrap (a * b).

(** Go's [/] on integers truncates toward zero. *)
Definition quot (a b : Z) : Z := wrap (Z.quot a b).

End Int64.

(** ** Go's [float64] *)

Module Float64.

(** IEEE 754 binary64 values, as the Standard Library specifies them. *)
Definition t : Type := spec_float.

Definition prec : Z := 53.
Definition emax : Z := 1024.

Definition zero : t := S754_zero false.

(** The float64 nearest to an integer. *)
Definition of_Z (z : Z) : t := binary_normalize prec emax z 0 false.

(** [a != b] *)
Definition neb (a b : t) : bool := negb (SFeqb a b).

(** [a > b] *)
Definition gtb (a b : t) : bool := SFltb b a.

(** The integer part of a finite value (truncation toward zero). *)
Definition trunc (f : t) : option Z :=
  match f with
  | S754_zero _ => Some 0
  | S754_finite s m e =>
      let a := if 0 <=? e then Z.shiftl (Z.pos m) e
               else Z.shiftr (Z.pos m) (- e) in
      Some (if s then - a else a)
  | S754_infinity _ | S754_nan => None
  end.

(** The conversion [int64(f)].  The Go specification leaves the result
    implementation-dependent when the value does not fit; [invalid] is
    that result. *)
Definition to_int64 (invalid : Z) (f : t) : Z :=
  match trunc f with
  | Some z => if (Int64.min_int <=? z) && (z <=? Int64.max_int) then z
              else invalid
  | None => invalid
  end.

End Float64.

Abbreviation float64 := Float64.t.

(** ** Data model *)

Definition error : Type := string.

(** [corev1.ContainerStatus]: [Running] is [State.Running != nil]. *)
Record ContainerStatus := {
  cs_Name : string;
  cs_ContainerID : string;
  cs_Running : bool
}.

Record Container := { c_Name : string }.

Record PodStatus := {
  InitContainerStatuses : list ContainerStatus;
  ContainerStatuses : list ContainerStatus
}.

Inductive QoSClass := QoSLSE | QoSLSR | QoSLS | QoSBE | QoSSystem | QoSNone.

(** [corev1.Pod], with the fields the resource manager reads.  [QoSClassRaw]
    is the value of [extension.GetPodQoSClassRaw] (the pod's QoS label). *)
Record Pod := {
  Namespace : string;
  Name : string;
  UID : string;
  Priority : option Z;
  Containers : list Container;
  Status : PodStatus;
  QoSClassRaw : QoSClass
}.

(** [corev1.Node]: [CapacityMemory] is [Status.Capacity.Memory().Value()]. *)
Record Node := {
  NodeName : string;
  CapacityMemory : Z
}.

(** [slov1alpha1.ResourceThresholdStrategy]: pointer fields are options. *)
Record ResourceThresholdStrategy := {
  Enable : option bool;
  MemoryEvictThresholdPercent : option Z;
  MemoryEvictLowerPercent : option Z
}.

(** [slov1alpha1.NodeSLOSpec].  The struct has further strategy fields, none
    of which the memory evictor reads; [OtherStrategies] tells whether any of
    them is set, which is all the comparison with the empty spec needs. *)
Record NodeSLOSpec := {
  ResourceUsedThresholdWithBE : option ResourceThresholdStrategy;
  OtherStrategies : bool
}.

Record NodeSLO := { Spec : NodeSLOSpec }.

(** [nodeSLO.Spec == (slov1alpha1.NodeSLOSpec{})] *)
Definition spec_is_empty (s : NodeSLOSpec) : bool :=
  match ResourceUsedThresholdWithBE s with
  | None => negb (OtherStrategies s)
  | Some _ => false
  end.

Inductive Feature :=
| BECPUSuppress | BEMemoryEvict | BECPUEvict
| CgroupReconcile | CPUBurst | SystemConfig | RdtResctrl | BlkIOReconcile.

Record podInfo := {
  pod : Pod;
  memUsed : float64
}.

Record Config := {
  ReconcileIntervalSeconds : Z;
  CPUSuppressIntervalSeconds : Z;
  CPUEvictIntervalSeconds : Z;
  MemoryEvictIntervalSeconds : Z;
  MemoryEvictCoolTimeSeconds : Z;
  QOSExtensionCfg : string
}.

(** The immutable fields of [resmanager]; the mutable ones ([podsEvicted])
    and [MemoryEvictor.lastEvictTime] live in the [world] below. *)
Record resmanager := {
  config : Config;
  collectResUsedIntervalSeconds : Z;
  nodeName : string;
  evictVersion : string
}.

Definition evictPodSuccess : string := "evictPodSuccess".
Definition evictPodFail : string := "evictPodFail".

(** [corev1.EventTypeWarning] *)
Definition EventTypeWarning : string := "Warning".

(** Modelled from the spec: [resourceexecutor.EvictPodByNodeMemoryUsage] is
    declared outside the sources; section 4.6, step 10, gives its value. *)
Definition EvictPodByNodeMemoryUsage : string := "EvictPodByNodeMemoryUsage".

(** [metav1.DeleteOptions] as [evictPod] fills it. *)
Record DeleteOptions := {
  GracePeriodSeconds : option Z;
  PreconditionsUID : option string
}.

Definition RuntimeHandler : Type := string.

(** ** Observable effects *)

Inductive level := Info | Warning | Error | V (n : nat).

Inductive reconciler :=
| CgroupResourcesReconcile | CPUSuppress | CPUBurstReconcile
| SystemConfigReconcile | CPUEvictor | MemoryEvictorReconcile
| ResctrlReconcile | BlkIOReconciler.

Inductive effect :=
| Log (lvl : level) (format : string)
| AuditRecord (namespace name reason message : string)
| EvictCall (namespace name : string) (opts : DeleteOptions)
    (version : string) (result : option error)
| EventRecorded (uid eventtype reason message : string)
| PodEvictionMetric (namespace name reason : string)
| StopContainerCall (handler : RuntimeHandler) (containerID : string)
    (timeout : Z) (result : option error)
| SweeperStarted
| GreyCtrlPluginsStarted
| FeatureStarted (r : reconciler) (withInit : bool) (gates : list Feature)
    (interval : Z)
| PluginsSetup
| PluginsStarted (cfg : string)
| StopAwaited
| Panic (reason : string).

Definition is_log (e : effect) : bool :=
  match e with Log _ _ => true | _ => false end.

Definition is_evict_call (e : effect) : bool :=
  match e with EvictCall _ _ _ _ _ => true | _ => false end.

Definition is_stop_call (e : effect) : bool :=
  match e with StopContainerCall _ _ _ _ => true | _ => false end.

Definition is_feature_start (e : effect) : bool :=
  match e with FeatureStarted _ _ _ _ => true | _ => false end.

(** A successful eviction call that carried the UID precondition [uid]. *)
Definition is_evict_success (uid : string) (e : effect) : bool :=
  match e with
  | EvictCall _ _ opts _ None =>
      match PreconditionsUID opts with
      | Some u => String.eqb u uid
      | None => false
      end
  | _ => false
  end.

(** ** The collaborators *)

Record host := {
  (** state of everything outside the resource manager *)
  Env : Type;
  (** Go runtime: the time that went by before a reading of the monotonic
      clock, and what [int64(f)] gives for an [f] that does not fit *)
  elapse : Env -> N * Env;
  int64_invalid : Z;
  sort_Slice : (podInfo -> podInfo -> bool) -> list podInfo -> list podInfo;
  (** client-go: [false] when the stop channel closed before the informer
      had synced *)
  WaitForCacheSync : Env -> bool;
  (** resmanager plugins *)
  StartPlugins : Env -> string -> option error;
  (** pkg/util *)
  FindContainerIdAndStatusByName :
    PodStatus -> string -> string * option ContainerStatus * option error;
  ParseContainerId : string -> string * string * option error;
  EvictPodByVersion :
    Env -> string -> string -> DeleteOptions -> string -> option error * Env;
  (** pkg/koordlet/util/runtime *)
  GetRuntimeHandler : Env -> string -> option RuntimeHandler * option error;
  StopContainer :
    Env -> RuntimeHandler -> string -> Z -> option error * Env;
  (** states informer *)
  GetNodeSLO : Env -> option NodeSLO;
  GetNode : Env -> option Node;
  GetAllPods : Env -> list Pod;
  (** metric cache, through the resmanager's collectors *)
  collectAllPodMetricsLast : Env -> gmap string float64;
  BuildQueryMeta : Env -> option error;
  collectorNodeMetricLast : Env -> float64 * option error;
  (** pkg/util/cache: the default time to live of an entry, in ns *)
  defaultExpiration : Z
}.

(** An entry of the expiring cache. *)
Record item := {
  object : string;
  expirationTime : Z
}.

Section World.

Context {h : host}.

(** ** State and the state monad *)

Record world := {
  clock : Z;
  env : Env h;
  podsEvicted : gmap string item;
  lastEvictTime : Z;
  trace : list (Z * effect)
}.

Definition M (A : Type) : Type := world -> A * world.

Definition ret {A} (a : A) : M A := fun w => (a, w).

Definition bind {A B} (m : M A) (k : A -> M B) : M B :=
  fun w => let p := m w in k (fst p) (snd p).

Definition gets {A} (f : world -> A) : M A := fun w => (f w, w).

Definition exec {A} (m : M A) (w : world) : world := snd (m w).
Definition eval {A} (m : M A) (w : world) : A := fst (m w).

(** Every effect is stamped with the last clock reading. *)
Definition emit (e : effect) : M unit := fun w =>
  (tt, {| clock := clock w; env := env w; podsEvicted := podsEvicted w;
          lastEvictTime := lastEvictTime w;
          trace := trace w ++ [(clock w, e)] |}).

Definition klog (lvl : level) (format : string) : M unit :=
  emit (Log lvl format).

(** A collaborator that answers and moves to a new state. *)
Definition call {A} (f : Env h -> A * Env h) : M A := fun w =>
  let p := f (env w) in
  (fst p, {| clock := clock w; env := snd p; podsEvicted := podsEvicted w;
             lastEvictTime := lastEvictTime w; trace := trace w |}).

(** A collaborator that only answers. *)
Definition ask {A} (f : Env h -> A) : M A := fun w => (f (env w), w).

(** [time.Now()].  A Go [time.Time] carries a reading of the monotonic
    clock, which [Before] and [Add] work on; the clock never goes back, and
    [elapse] tells by how much it has moved on since it was last read. *)
Definition time_Now : M Z := fun w =>
  let p := elapse h (env w) in
  let t := clock w + Z.of_N (fst p) in
  (t, {| clock := t; env := snd p; podsEvicted := podsEvicted w;
         lastEvictTime := lastEvictTime w; trace := trace w |}).

Definition set_podsEvicted (f : gmap string item -> gmap string item)
    : M unit := fun w =>
  (tt, {| clock := clock w; env := env w; podsEvicted := f (podsEvicted w);
          lastEvictTime := lastEvictTime w; trace := trace w |}).

Definition set_lastEvictTime (t : Z) : M unit := fun w =>
  (tt, {| clock := clock w; env := env w; podsEvicted := podsEvicted w;
          lastEvictTime := t; trace := trace w |}).

End World.

Arguments world : clear implicits.
Arguments M : clear implicits.

Declare Scope prog_scope.
Delimit Scope prog_scope with prog.
Bind Scope prog_scope with M.
Notation "x ← y ; z" := (bind y (fun x => z))
  (at level 20, y at level 100, z at level 200, only parsing) : prog_scope.
Notation "x ;; z" := (bind x (fun _ => z))
  (at level 100, z at level 200, only parsing, right associativity)
  : prog_scope.
Local Open Scope prog_scope.

Section Resmanager.

Context {h : host}.

Local Abbreviation M := (M h).
Local Abbreviation world := (world h).

(** ** The expiring key set ([pkg/util/cache]) *)

(** Modelled from the spec: the expiring cache of [pkg/util/cache] is not
    among the sources.  Section 4.1: [get(key)] gives the value and whether
    it is present, [set_default(key, value)] inserts with the default time
    to live and has no failure, and an entry is gone one time to live
    after its insertion. *)
Definition cache_Get (key : string) : M (option string * bool) :=
  now ← time_Now;
  items ← gets podsEvicted;
  match items !! key with
  | Some it =>
      if now <? expirationTime it then ret (Some (object it), true)
      else ret (None, false)
  | None => ret (None, false)
  end.

(** Modelled from the spec: see [cache_Get]. *)
Definition cache_SetDefault (key value : string) : M (option error) :=
  now ← time_Now;
  set_podsEvicted
    (<[key := {| object := value;
                 expirationTime := now + defaultExpiration h |}]>) ;;
  ret None.

(** ** Eviction executor ([resmanager.go]) *)

Section Evict.

Context (r : resmanager).

Definition evictPod (evictPod : Pod) (reason message : string) : M bool :=
  let podEvictMessage :=
    "evict Pod:" +:+ Name evictPod +:+ ", reason: " +:+ reason
      +:+ ", message: " +:+ message in
  emit (AuditRecord (Namespace evictPod) (Name evictPod) reason message) ;;
  let opts := {| GracePeriodSeconds := None;
                 PreconditionsUID := Some (UID evictPod) |} in
  err ← call (fun e => EvictPodByVersion h e (Namespace evictPod)
                          (Name evictPod) opts (evictVersion r));
  emit (EvictCall (Namespace evictPod) (Name evictPod) opts
          (evictVersion r) err) ;;
  match err with
  | None =>
      emit (EventRecorded (UID evictPod) EventTypeWarning evictPodSuccess
              podEvictMessage) ;;
      emit (PodEvictionMetric (Namespace evictPod) (Name evictPod)
              reason) ;;
      klog Info "evict pod %v/%v success, reason: %v" ;;
      ret true
  | Some _ =>
      emit (EventRecorded (UID evictPod) EventTypeWarning evictPodFail
              podEvictMessage) ;;
      klog Error "evict pod %v/%v failed, reason: %v, error: %v" ;;
      ret false
  end.

Definition evictPodIfNotEvicted (evictPod' : Pod) (node : Node)
    (reason message : string) : M unit :=
  got ← cache_Get (UID evictPod');
  let evicted := snd got in
  if evicted then
    klog (V 5) "Pod has been evicted! podID: %v, evict reason: %s"
  else
    success ← evictPod evictPod' reason message;
    if success then
      cache_SetDefault (UID evictPod') (UID evictPod') ;; ret tt
    else ret tt.

Fixpoint evictPodsIfNotEvicted (evictPods : list Pod) (node : Node)
    (reason message : string) : M unit :=
  match evictPods with
  | [] => ret tt
  | evictPod :: rest =>
      evictPodIfNotEvicted evictPod node reason message ;;
      evictPodsIfNotEvicted rest node reason message
  end.

End Evict.

(** ** Container killer ([resmanager.go]) *)

(** The body of [killContainers]' loop over [pod.Spec.Containers]: a
    [return] ends the whole walk, a [continue] goes on with the rest. *)
Fixpoint killContainers_loop (pod : Pod) (message : string)
    (containers : list Container) : M unit :=
  match containers with
  | [] => ret tt
  | container :: rest =>
      let '(containerID, containerStatus, err) :=
        FindContainerIdAndStatusByName h (Status pod) (c_Name container) in
      match err with
      | Some _ =>
          klog Error "failed to find container id and status, error: %v"
      | None =>
          match containerStatus with
          | None => ret tt
          | Some status =>
              if negb (cs_Running status) then ret tt
              else if negb (String.eqb containerID EmptyString) then
                let '(runtimeType, _, _) :=
                  ParseContainerId h (cs_ContainerID status) in
                got ← ask (fun e => GetRuntimeHandler h e runtimeType);
                match got with
                | (Some runtimeHandler, None) =>
                    err ← call (fun e =>
                              StopContainer h e runtimeHandler containerID 0);
                    emit (StopContainerCall runtimeHandler containerID 0
                            err) ;;
                    match err with
                    | Some _ =>
                        klog Error "%s, stop container error! error: %v"
                    | None => ret tt
                    end ;;
                    killContainers_loop pod message rest
                | _ =>
                    klog Error
                      "%s, kill container(%s) error! GetRuntimeHandler fail! error: %v" ;;
                    killContainers_loop pod message rest
                end
              else
                klog Warning
                  "%s, get container ID failed, pod %s/%s containerName %s status: %v" ;;
                killContainers_loop pod message rest
          end
      end
  end.

Definition killContainers (pod : Pod) (message : string) : M unit :=
  killContainers_loop pod message (Containers pod).

(** ** Feature switch of the NodeSLO ([resmanager.go]) *)

Definition isFeatureDisabled (nodeSLO : option NodeSLO) (feature : Feature)
    : bool * option error :=
  match nodeSLO with
  | None => (true, Some "cannot parse feature config for invalid nodeSLO %v")
  | Some slo =>
      if spec_is_empty (Spec slo) then
        (true, Some "cannot parse feature config for invalid nodeSLO %v")
      else
        let spec := Spec slo in
        match feature with
        | BECPUSuppress | BEMemoryEvict | BECPUEvict =>
            match ResourceUsedThresholdWithBE spec with
            | None =>
                (true,
                 Some "cannot parse feature config for invalid nodeSLO %v")
            | Some strategy =>
                match Enable strategy with
                | None =>
                    (true,
                     Some
                       "cannot parse feature config for invalid nodeSLO %v")
                | Some enable => (negb enable, None)
                end
            end
        | _ =>
            (true,
             Some "cannot parse feature config for unsupported feature %s")
        end
  end.

(** ** BE memory evictor ([memory_evict.go]) *)

Definition memoryReleaseBufferPercent : Z := 2.

(** [time.Second], in nanoseconds. *)
Definition time_Second : Z := 1000000000.

Definition to_int64 (f : float64) : Z :=
  Float64.to_int64 (int64_invalid h) f.

(** The comparator handed to [sort.Slice]: [less a b] is the closure's
    result for the indices of [a] and [b]. *)
Definition less (a b : podInfo) : bool :=
  let differing_priorities :=
    match Priority (pod a), Priority (pod b) with
    | Some pa, Some pb => negb (pa =? pb)
    | _, _ => false
    end in
  if differing_priorities then
    match Priority (pod a), Priority (pod b) with
    | Some pa, Some pb => pa <? pb
    | _, _ => false
    end
  else if Float64.neb (memUsed a) Float64.zero
          && Float64.neb (memUsed b) Float64.zero then
    Float64.gtb (memUsed a) (memUsed b)
  else if SFeqb (memUsed a) Float64.zero
          && SFeqb (memUsed b) Float64.zero then
    String.ltb (Name (pod b)) (Name (pod a))
  else SFeqb (memUsed b) Float64.zero.

(** The first loop of [getSortedBEPodInfos]: the BE pods, each with its
    sample ([0] when the map has none). *)
Fixpoint bePodInfos_of (podMetricMap : gmap string float64)
    (pods : list Pod) : list podInfo :=
  match pods with
  | [] => []
  | pod :: rest =>
      match QoSClassRaw pod with
      | QoSBE =>
          {| pod := pod;
             memUsed := default Float64.zero (podMetricMap !! UID pod) |}
            :: bePodInfos_of podMetricMap rest
      | _ => bePodInfos_of podMetricMap rest
      end
  end.

Definition getSortedBEPodInfos (podMetricMap : gmap string float64)
    : M (list podInfo) :=
  pods ← ask (GetAllPods h);
  ret (sort_Slice h less (bePodInfos_of podMetricMap pods)).

Section Evictor.

Context (r : resmanager).

Definition NewMemoryEvictor : M unit :=
  now ← time_Now;
  set_lastEvictTime now.

(** The drain loop of [killAndEvictBEPods], with its two accumulators. *)
Fixpoint drain (message : string) (memoryNeedRelease : Z)
    (bePodInfos : list podInfo) (memoryReleased : Z)
    (killedPods : list Pod) : M (Z * list Pod) :=
  match bePodInfos with
  | [] => ret (memoryReleased, killedPods)
  | bePod :: rest =>
      if memoryNeedRelease <=? memoryReleased then
        ret (memoryReleased, killedPods)
      else
        let killMsg := message +:+ ", kill pod: " +:+ Name (pod bePod) in
        killContainers (pod bePod) killMsg ;;
        let killedPods := killedPods ++ [pod bePod] in
        let memoryReleased :=
          if Float64.neb (memUsed bePod) Float64.zero then
            Int64.add memoryReleased (to_int64 (memUsed bePod))
          else memoryReleased in
        drain message memoryNeedRelease rest memoryReleased killedPods
  end.

Definition killAndEvictBEPods (node : Node)
    (podMetrics : gmap string float64) (memoryNeedRelease : Z) : M unit :=
  bePodInfos ← getSortedBEPodInfos podMetrics;
  let message :=
    "killAndEvictBEPods for node(" +:+ nodeName r
      +:+ "), need to release memory: " +:+ pretty memoryNeedRelease in
  drained ← drain message memoryNeedRelease bePodInfos 0 [];
  let killedPods := snd drained in
  evictPodsIfNotEvicted r killedPods node EvictPodByNodeMemoryUsage
    message ;;
  now ← time_Now;
  set_lastEvictTime now ;;
  klog Info
    "killAndEvictBEPods completed, memoryNeedRelease(%v) memoryReleased(%v)".

(** [lowerPercent] as [memoryEvict] computes it from the strategy. *)
Definition lowerPercent_of (thresholdConfig : ResourceThresholdStrategy)
    (thresholdPercent : Z) : Z :=
  match MemoryEvictLowerPercent thresholdConfig with
  | Some lower => lower
  | None => Int64.sub thresholdPercent memoryReleaseBufferPercent
  end.

(** [int64(nodeMemoryUsed) * 100 / memoryCapacity] *)
Definition nodeMemoryUsage_of (nodeMemoryUsed : float64)
    (memoryCapacity : Z) : Z :=
  Int64.quot (Int64.mul (to_int64 nodeMemoryUsed) 100) memoryCapacity.

(** [memoryCapacity * (nodeMemoryUsage - lowerPercent) / 100] *)
Definition memoryNeedRelease_of (memoryCapacity nodeMemoryUsage
    lowerPercent : Z) : Z :=
  Int64.quot
    (Int64.mul memoryCapacity (Int64.sub nodeMemoryUsage lowerPercent)) 100.

(** [time.Now().Before(m.lastEvictTime.Add(cool * time.Second))] *)
Definition in_cooling_time (now last : Z) : bool :=
  now <? last + Int64.mul (MemoryEvictCoolTimeSeconds (config r))
                  time_Second.

(** [memoryEvict] between its first log line and the deferred one. *)
Definition memoryEvict_body : M unit :=
  now ← time_Now;
  last ← gets lastEvictTime;
  if in_cooling_time now last then
    klog (V 5) "skip memory evict process, still in evict cooling time"
  else
    nodeSLO ← ask (GetNodeSLO h);
    match isFeatureDisabled nodeSLO BEMemoryEvict with
    | (_, Some _) =>
        klog Error
          "failed to acquire memory eviction feature-gate, error: %v"
    | (true, None) =>
        klog (V 4) "skip memory evict, disabled in NodeSLO"
    | (false, None) =>
        match nodeSLO ≫= (fun slo =>
                ResourceUsedThresholdWithBE (Spec slo)) with
        | None => emit (Panic "nil pointer dereference")
        | Some thresholdConfig =>
            match MemoryEvictThresholdPercent thresholdConfig with
            | None =>
                klog Warning "skip memory evict, threshold percent is nil"
            | Some thresholdPercent =>
                if thresholdPercent <? 0 then
                  klog Warning
                    "skip memory evict, threshold percent(%v) should greater than 0"
                else
                  let lowerPercent :=
                    lowerPercent_of thresholdConfig thresholdPercent in
                  if thresholdPercent <=? lowerPercent then
                    klog Warning
                      "skip memory evict, lower percent(%v) should less than threshold percent(%v)"
                  else
                    podMetrics ← ask (collectAllPodMetricsLast h);
                    node ← ask (GetNode h);
                    match node with
                    | None =>
                        klog Warning "skip memory evict, Node %v is nil"
                    | Some node =>
                        let memoryCapacity := CapacityMemory node in
                        if memoryCapacity <=? 0 then
                          klog Warning
                            "skip memory evict, memory capacity(%v) should greater than 0"
                        else
                          err ← ask (BuildQueryMeta h);
                          match err with
                          | Some _ =>
                              klog Warning
                                "skip memory evict, get node query failed, error: %v"
                          | None =>
                              got ← ask (collectorNodeMetricLast h);
                              match got with
                              | (_, Some _) =>
                                  klog Warning
                                    "skip memory evict, get node metrics error: %v"
                              | (nodeMemoryUsed, None) =>
                                  let nodeMemoryUsage :=
                                    nodeMemoryUsage_of nodeMemoryUsed
                                      memoryCapacity in
                                  if nodeMemoryUsage <? thresholdPercent
                                  then
                                    klog (V 5)
                                      "skip memory evict, node memory usage(%v) is below threshold(%v)"
                                  else
                                    klog Info
                                      "node(%v) MemoryUsage(%v): %.2f, evictThresholdUsage: %.2f, evictLowerUsage: %.2f" ;;
                                    let memoryNeedRelease :=
                                      memoryNeedRelease_of memoryCapacity
                                        nodeMemoryUsage lowerPercent in
                                    killAndEvictBEPods node podMetrics
                                      memoryNeedRelease
                              end
                          end
                    end
            end
        end
    end.

Definition memoryEvict : M unit :=
  klog (V 5) "starting memory evict process" ;;
  memoryEvict_body ;;
  klog (V 5) "memory evict process completed".

(** ** Reconcile host ([resmanager.go]) *)

Inductive outcome := Returned (err : option error) | Panicked.

(** [Run] up to its return, as one sequence: a goroutine it spawns and a
    feature runner it starts are recorded as effects.  (The deferred
    [HandleCrash] only matters to a panic.) *)
Definition Run : M outcome :=
  if collectResUsedIntervalSeconds r <? 1 then
    klog Info
      "collectResUsedIntervalSeconds is %v, resource manager is disabled" ;;
    ret (Returned None)
  else
    klog Info "Starting resmanager" ;;
    emit SweeperStarted ;;
    emit GreyCtrlPluginsStarted ;;
    synced ← ask (WaitForCacheSync h);
    if negb synced then
      ret (Returned
             (Some "time out waiting for states informer caches to sync"))
    else
      let cfg := config r in
      emit (FeatureStarted CgroupResourcesReconcile true [CgroupReconcile]
              (ReconcileIntervalSeconds cfg)) ;;
      emit (FeatureStarted CPUSuppress false [BECPUSuppress]
              (CPUSuppressIntervalSeconds cfg)) ;;
      emit (FeatureStarted CPUBurstReconcile true [CPUBurst]
              (ReconcileIntervalSeconds cfg)) ;;
      emit (FeatureStarted SystemConfigReconcile true [SystemConfig]
              (ReconcileIntervalSeconds cfg)) ;;
      emit (FeatureStarted CPUEvictor false [BECPUEvict]
              (CPUEvictIntervalSeconds cfg)) ;;
      NewMemoryEvictor ;;
      emit (FeatureStarted MemoryEvictorReconcile false [BEMemoryEvict]
              (MemoryEvictIntervalSeconds cfg)) ;;
      emit (FeatureStarted ResctrlReconcile true [RdtResctrl]
              (ReconcileIntervalSeconds cfg)) ;;
      emit (FeatureStarted BlkIOReconciler true [BlkIOReconcile]
              (ReconcileIntervalSeconds cfg)) ;;
      klog Info "start resmanager extensions" ;;
      emit PluginsSetup ;;
      err ← ask (fun e => StartPlugins h e (QOSExtensionCfg cfg));
      emit (PluginsStarted (QOSExtensionCfg cfg)) ;;
      match err with
      | Some e => emit (Panic e) ;; ret Panicked
      | None =>
          klog Info "Starting resmanager successfully" ;;
          emit StopAwaited ;;
          klog Info "shutting down resmanager" ;;
          ret (Returned None)
      end.

(** ** Runs of the node agent *)

(** Modelled from the spec: the sweeper that [podsEvicted.Run] starts
    (section 4.1, [run(stop)]) drops the entries whose time to live is
    over. *)
Definition cache_sweep : M unit :=
  now ← time_Now;
  set_podsEvicted (filter (fun kv => now < expirationTime kv.2)).

(** What the node looks like when the manager is built: an empty evicted
    set ([NewCacheDefault]) and nothing done yet. *)
Definition fresh (t0 : Z) (e : Env h) : world :=
  {| clock := t0; env := e; podsEvicted := ∅; lastEvictTime := t0;
     trace := [] |}.

(** One move of the node: a batch eviction by any reconciler, a tick of the
    memory evictor, a pass of the sweeper, or the world outside moving on
    while time goes by. *)
Inductive step : world -> world -> Prop :=
| step_evict pods node reason message w :
    step w (exec (evictPodsIfNotEvicted r pods node reason message) w)
| step_tick w :
    step w (exec memoryEvict w)
| step_sweep w :
    step w (exec cache_sweep w)
| step_env (d : N) (e : Env h) w :
    step w {| clock := clock w + Z.of_N d; env := e;
              podsEvicted := podsEvicted w;
              lastEvictTime := lastEvictTime w; trace := trace w |}.

Inductive reachable : world -> Prop :=
| reachable_new t0 e : reachable (exec NewMemoryEvictor (fresh t0 e))
| reachable_step w w' : reachable w -> step w w' -> reachable w'.

End Evictor.

(** ** Vocabulary of the statements *)

(** What a computation added to the trace. *)
Definition new_trace (w w' : world) : list (Z * effect) :=
  drop (length (trace w)) (trace w').

Definition count_effects (f : effect -> bool) (es : list (Z * effect)) : nat :=
  length (filter (fun x => f x.2 = true) es).

(** Only log lines were written, and the manager's own state is as it was. *)
Definition quiet (w w' : world) : Prop :=
  podsEvicted w' = podsEvicted w /\
  lastEvictTime w' = lastEvictTime w /\
  exists es, trace w' = trace w ++ es /\
             Forall (fun x => is_log x.2 = true) es.

(** Two successful eviction calls for one UID are a time to live apart. *)
Definition evictions_spaced (tr : list (Z * effect)) : Prop :=
  forall (i j : nat) uid ti tj ei ej,
    (i < j)%nat ->
    tr !! i = Some (ti, ei) -> tr !! j = Some (tj, ej) ->
    is_evict_success uid ei = true -> is_evict_success uid ej = true ->
    ti + defaultExpiration h <= tj.

(** The invariant behind the spacing.  No stamp is ahead of the clock, and
    every successful eviction call is covered: its time to live is over, or
    the evicted set holds its UID until then.  While [evictPodIfNotEvicted]
    is between its API call and its insertion, the UID it works on is
    [pending] and not covered yet. *)
Definition stamps_bounded (w : world) : Prop :=
  Forall (fun x => x.1 <= clock w) (trace w).

Definition evictions_covered (pending : option string) (w : world) : Prop :=
  forall uid t e,
    (t, e) ∈ trace w -> is_evict_success uid e = true ->
    pending = Some uid \/
    t + defaultExpiration h <= clock w \/
    exists it, podsEvicted w !! uid = Some it /\
               t + defaultExpiration h <= expirationTime it.

Definition evict_inv (pending : option string) (w : world) : Prop :=
  stamps_bounded w /\ evictions_covered pending w /\
  evictions_spaced (trace w).

(** [lastEvictTime] is a reading of the clock, so never ahead of it. *)
Definition stamp_inv (w : world) : Prop := lastEvictTime w <= clock w.

(** A computation respects a relation when every run of it is in it. *)
Definition respects (R : relation world) {A} (m : M A) : Prop :=
  forall w, R w (exec m w).

(** The relations that everything a tick does respects, once it is known
    that the eviction executor does. *)
Record gentle (r : resmanager) (R : relation world) : Prop := {
  gentle_refl : forall w, R w w;
  gentle_trans : forall w1 w2 w3, R w1 w2 -> R w2 w3 -> R w1 w3;
  gentle_emit : forall e, is_evict_call e = false -> respects R (emit e);
  gentle_now : respects R time_Now;
  gentle_call : forall A (f : Env h -> A * Env h), respects R (call f);
  gentle_stamp : forall w, R w (exec (set_lastEvictTime (clock w)) w);
  gentle_evict : forall p node reason message,
    respects R (evictPodIfNotEvicted r p node reason message)
}.

(** Whether the evicted set holds a live entry for [key] at time [now]. *)
Definition live (key : string) (now : Z) (items : gmap string item) : bool :=
  match items !! key with
  | Some it => now <? expirationTime it
  | None => false
  end.

(** The world after the API call of [evictPod] and its record in the
    trace. *)
Definition after_call r (p : Pod) (reason message : string) (w : world)
    : world :=
  exec (emit (AuditRecord (Namespace p) (Name p) reason message) ;;
        err ← call (fun e => EvictPodByVersion h e (Namespace p) (Name p)
                     {| GracePeriodSeconds := None;
                        PreconditionsUID := Some (UID p) |} (evictVersion r));
        emit (EvictCall (Namespace p) (Name p)
                {| GracePeriodSeconds := None;
                   PreconditionsUID := Some (UID p) |} (evictVersion r) err))
    w.

(** The answer of the cluster API to the eviction of [p]. *)
Definition api_result r (p : Pod) (w : world) : option error :=
  (EvictPodByVersion h (env w) (Namespace p) (Name p)
     {| GracePeriodSeconds := None; PreconditionsUID := Some (UID p) |}
     (evictVersion r)).1.

(** What one call of [evictPodIfNotEvicted] writes to the trace, given
    whether the UID was found, the answer of the API and the time of the
    lookup. *)
Definition evict_effects (r : resmanager) (p : Pod) (reason message : string)
    (present : bool) (result : option error) (now : Z)
    : list (Z * effect) :=
  let podEvictMessage :=
    "evict Pod:" +:+ Name p +:+ ", reason: " +:+ reason
      +:+ ", message: " +:+ message in
  if present then
    [(now, Log (V 5) "Pod has been evicted! podID: %v, evict reason: %s")]
  else
    (now, AuditRecord (Namespace p) (Name p) reason message)
    :: (now, EvictCall (Namespace p) (Name p)
               {| GracePeriodSeconds := None;
                  PreconditionsUID := Some (UID p) |} (evictVersion r) result)
    :: match result with
       | None =>
           [(now, EventRecorded (UID p) EventTypeWarning evictPodSuccess
                    podEvictMessage);
            (now, PodEvictionMetric (Namespace p) (Name p) reason);
            (now, Log Info "evict pod %v/%v success, reason: %v")]
       | Some _ =>
           [(now, EventRecorded (UID p) EventTypeWarning evictPodFail
                    podEvictMessage);
            (now, Log Error "evict pod %v/%v failed, reason: %v, error: %v")]
       end.

(** Two calls back to back. *)
Definition evict_twice (r : resmanager) (p : Pod) (node : Node)
    (reason message : string) : M unit :=
  evictPodIfNotEvicted r p node reason message ;;
  evictPodIfNotEvicted r p node reason message.

(** What [FindContainerIdAndStatusByName] is taken to promise: a status it
    hands back is one of the pod's. *)
Definition find_sound (status : PodStatus) : Prop :=
  forall name containerID containerStatus err,
    FindContainerIdAndStatusByName h status name
    = (containerID, Some containerStatus, err) ->
    containerStatus ∈ InitContainerStatuses status ++ ContainerStatuses status.

Definition no_running_container (status : PodStatus) : Prop :=
  forall containerStatus,
    containerStatus ∈ InitContainerStatuses status ++ ContainerStatuses status ->
    cs_Running containerStatus = false.

(** [float64] values that are numbers, placed on a line of integer
    triples. *)
Definition float_key (f : float64) : Z * Z * Z :=
  match f with
  | S754_zero _ => (0, 0, 0)
  | S754_infinity s => (if s then -2 else 2, 0, 0)
  | S754_nan => (0, 0, 0)
  | S754_finite s m e =>
      if s then (-1, - e, - Z.pos m) else (1, e, Z.pos m)
  end.

Definition key_lt (k1 k2 : Z * Z * Z) : Prop :=
  k1.1.1 < k2.1.1 \/
  (k1.1.1 = k2.1.1 /\
   (k1.1.2 < k2.1.2 \/ (k1.1.2 = k2.1.2 /\ k1.2 < k2.2))).

(** The part of the comparator that looks at the samples and the names. *)
Definition by_sample (a b : podInfo) : bool :=
  if Float64.neb (memUsed a) Float64.zero
     && Float64.neb (memUsed b) Float64.zero then
    Float64.gtb (memUsed a) (memUsed b)
  else if SFeqb (memUsed a) Float64.zero
          && SFeqb (memUsed b) Float64.zero then
    String.ltb (Name (pod b)) (Name (pod a))
  else SFeqb (memUsed b) Float64.zero.

(** A list is ordered by a comparator when no element comes after one that
    the comparator puts it before. *)
Definition ordered_by (lt : podInfo -> podInfo -> bool) (l : list podInfo)
    : Prop :=
  StronglySorted (fun a b => lt b a = false) l.

(** What [sort.Slice] asks of its comparator: a strict weak ordering (here on
    the elements of the slice). *)
Definition strict_weak_on (lt : podInfo -> podInfo -> bool)
    (l : list podInfo) : Prop :=
  (forall a, a ∈ l -> lt a a = false) /\
  (forall a b c, a ∈ l -> b ∈ l -> c ∈ l ->
     lt a b = true -> lt b c = true -> lt a c = true) /\
  (forall a b c, a ∈ l -> b ∈ l -> c ∈ l ->
     lt a b = false -> lt b c = false -> lt a c = false).

(** What [sort.Slice] gives in return: the same elements, ordered. *)
Definition sort_contract : Prop :=
  forall lt l,
    strict_weak_on lt l ->
    sort_Slice h lt l ≡ₚ l /\ ordered_by lt (sort_Slice h lt l).

(** The pod infos on which the rules of the comparator agree with one
    another: priorities all set or all unset, and no sample that is not a
    number. *)
Definition consistent_infos (l : list podInfo) : Prop :=
  ((forall a, a ∈ l -> Priority (pod a) <> None) \/
   (forall a, a ∈ l -> Priority (pod a) = None)) /\
  (forall a, a ∈ l -> memUsed a <> S754_nan).

(** The two invariants, as relations between the worlds before and after a
    computation. *)
Definition keeps_evict_inv (w w' : world) : Prop :=
  evict_inv None w -> evict_inv None w'.

Definition keeps_stamp (w w' : world) : Prop :=
  stamp_inv w -> stamp_inv w' /\ lastEvictTime w <= lastEvictTime w'.

(** All the guards of a memory-evict tick let it through, seen from the
    world [w] right after the tick has read the clock. *)
Record ready (r : resmanager) (w : world)
    (thresholdConfig : ResourceThresholdStrategy) (thresholdPercent : Z)
    (node : Node) (nodeMemoryUsed : float64) : Prop := {
  ready_cool :
    in_cooling_time r (clock w) (lastEvictTime w) = false;
  ready_slo :
    exists slo, GetNodeSLO h (env w) = Some slo /\
                ResourceUsedThresholdWithBE (Spec slo) = Some thresholdConfig;
  ready_enable : Enable thresholdConfig = Some true;
  ready_threshold :
    MemoryEvictThresholdPercent thresholdConfig = Some thresholdPercent;
  ready_threshold_pos : 0 <= thresholdPercent;
  ready_lower : lowerPercent_of thresholdConfig thresholdPercent
                < thresholdPercent;
  ready_node : GetNode h (env w) = Some node;
  ready_capacity : 0 < CapacityMemory node;
  ready_meta : BuildQueryMeta h (env w) = None;
  ready_used : collectorNodeMetricLast h (env w) = (nodeMemoryUsed, None)
}.

(** The reasons for which a memory-evict tick stops at a guard, in terms of
    what the collaborators answer in the state [e] they are in when the
    tick has read the clock. *)
Inductive skip_reason (e : Env h) : Prop :=
| skip_slo_nil :
    GetNodeSLO h e = None -> skip_reason e
| skip_spec_empty slo :
    GetNodeSLO h e = Some slo -> spec_is_empty (Spec slo) = true ->
    skip_reason e
| skip_strategy_missing slo :
    GetNodeSLO h e = Some slo ->
    ResourceUsedThresholdWithBE (Spec slo) = None -> skip_reason e
| skip_enable_missing slo strategy :
    GetNodeSLO h e = Some slo ->
    ResourceUsedThresholdWithBE (Spec slo) = Some strategy ->
    Enable strategy = None -> skip_reason e
| skip_enable_false slo strategy :
    GetNodeSLO h e = Some slo ->
    ResourceUsedThresholdWithBE (Spec slo) = Some strategy ->
    Enable strategy = Some false -> skip_reason e
| skip_threshold_nil slo strategy :
    GetNodeSLO h e = Some slo ->
    ResourceUsedThresholdWithBE (Spec slo) = Some strategy ->
    MemoryEvictThresholdPercent strategy = None -> skip_reason e
| skip_threshold_negative slo strategy threshold :
    GetNodeSLO h e = Some slo ->
    ResourceUsedThresholdWithBE (Spec slo) = Some strategy ->
    MemoryEvictThresholdPercent strategy = Some threshold ->
    threshold < 0 -> skip_reason e
| skip_lower_not_below slo strategy threshold :
    GetNodeSLO h e = Some slo ->
    ResourceUsedThresholdWithBE (Spec slo) = Some strategy ->
    MemoryEvictThresholdPercent strategy = Some threshold ->
    threshold <= lowerPercent_of strategy threshold -> skip_reason e
| skip_node_nil :
    GetNode h e = None -> skip_reason e
| skip_no_capacity node :
    GetNode h e = Some node -> CapacityMemory node <= 0 ->
    skip_reason e
| skip_query_meta err :
    BuildQueryMeta h e = Some err -> skip_reason e
| skip_node_metric used err :
    collectorNodeMetricLast h e = (used, Some err) -> skip_reason e
| skip_below_threshold slo strategy threshold node used :
    GetNodeSLO h e = Some slo ->
    ResourceUsedThresholdWithBE (Spec slo) = Some strategy ->
    MemoryEvictThresholdPercent strategy = Some threshold ->
    GetNode h e = Some node ->
    collectorNodeMetricLast h e = (used, None) ->
    nodeMemoryUsage_of used (CapacityMemory node) < threshold ->
    skip_reason e.

(** The drain loop in the spec's words (section 4.6, step 9): what a victim
    adds to [released], the total after the first [k] victims, and the
    number of victims killed before [released >= need_release] stops the
    walk. *)
Definition credit (released : Z) (bePod : podInfo) : Z :=
  if Float64.neb (memUsed bePod) Float64.zero
  then Int64.add released (to_int64 (memUsed bePod))
  else released.

Definition released_after (k : nat) (victims : list podInfo) : Z :=
  fold_left credit (take k victims) 0.

Fixpoint stop_index (need_release released : Z) (victims : list podInfo)
    : nat :=
  match victims with
  | [] => O
  | v :: rest =>
      if need_release <=? released then O
      else S (stop_index need_release (credit released v) rest)
  end.

(** Killing the containers of each victim of a list, in order, with the
    message the drain loop builds. *)
Fixpoint kill_each (message : string) (victims : list podInfo) : M unit :=
  match victims with
  | [] => ret tt
  | v :: rest =>
      killContainers (pod v) (message +:+ ", kill pod: " +:+ Name (pod v)) ;;
      kill_each message rest
  end.

End Resmanager.

Arguments to_int64 : clear implicits.
Arguments evictions_spaced : clear implicits.
Arguments find_sound : clear implicits.
Arguments sort_contract : clear implicits.
Arguments credit : clear implicits.
Arguments released_after : clear implicits.
Arguments stop_index : clear implicits.
Arguments nodeMemoryUsage_of : clear implicits.

(** ** A scripted node, to run the model on concrete inputs *)

Module Demo.

(** The world outside, as a script: the delays before the clock readings,
    the outcomes of the API calls to come ([true] is success), the container
    IDs whose stop fails, and what the informer and the metric cache hold. *)
Record script := {
  delays : list N;
  api_outcomes : list bool;
  stop_failures : list string;
  slo : option NodeSLO;
  node : option Node;
  pods : list Pod;
  pod_metrics : gmap string float64;
  query_meta_error : option error;
  node_metric : float64 * option error;
  synced : bool;
  plugins_error : option error
}.

Definition next_delay (e : script) : N * script :=
  match delays e with
  | [] => (0%N, e)
  | d :: ds =>
      (d, {| delays := ds; api_outcomes := api_outcomes e;
             stop_failures := stop_failures e; slo := slo e; node := node e;
             pods := pods e; pod_metrics := pod_metrics e;
             query_meta_error := query_meta_error e;
             node_metric := node_metric e; synced := synced e;
             plugins_error := plugins_error e |})
  end.

Definition next_api_outcome (e : script) (namespace name : string)
    (opts : DeleteOptions) (version : string) : option error * script :=
  match api_outcomes e with
  | [] => (None, e)
  | ok :: rest =>
      (if ok then None else Some "eviction rejected",
       {| delays := delays e; api_outcomes := rest;
          stop_failures := stop_failures e; slo := slo e; node := node e;
          pods := pods e; pod_metrics := pod_metrics e;
          query_meta_error := query_meta_error e;
          node_metric := node_metric e; synced := synced e;
          plugins_error := plugins_error e |})
  end.

(** Insertion sort, driven by the comparator only. *)
Fixpoint insert_by {A} (lt : A -> A -> bool) (x : A) (l : list A) : list A :=
  match l with
  | [] => [x]
  | y :: l' => if lt y x then y :: insert_by lt x l' else x :: y :: l'
  end.

Definition sort_by {A} (lt : A -> A -> bool) (l : list A) : list A :=
  fold_right (insert_by lt) [] l.

(** ["<runtime>://<id>"] split at the first ["://"]. *)
Fixpoint split_container_id (s : string) : option (string * string) :=
  match s with
  | EmptyString => None
  | String c s' =>
      if String.prefix "://" s
      then Some (EmptyString, String.substring 3 (String.length s - 3) s)
      else match split_container_id s' with
           | Some (runtime, id) => Some (String c runtime, id)
           | None => None
           end
  end.

Definition parse_container_id (s : string)
    : string * string * option error :=
  match split_container_id s with
  | Some (runtime, id) => (runtime, id, None)
  | None => (EmptyString, EmptyString, Some "parse container id failed")
  end.

Fixpoint find_status (statuses : list ContainerStatus) (name : string)
    : string * option ContainerStatus * option error :=
  match statuses with
  | [] => (EmptyString, None, Some "unable to find ID for container")
  | status :: rest =>
      if String.eqb (cs_Name status) name
         && negb (String.eqb (cs_ContainerID status) EmptyString)
      then match parse_container_id (cs_ContainerID status) with
           | (_, id, None) => (id, Some status, None)
           | (_, _, Some err) => (EmptyString, None, Some err)
           end
      else find_status rest name
  end.

Definition find_container (status : PodStatus) (name : string)
    : string * option ContainerStatus * option error :=
  find_status (InitContainerStatuses status ++ ContainerStatuses status) name.

Definition runtime_handler (e : script) (runtimeType : string)
    : option RuntimeHandler * option error :=
  if String.eqb runtimeType "docker" || String.eqb runtimeType "containerd"
  then (Some runtimeType, None)
  else (None, Some "runtime handler not found").

Definition stop_container (e : script) (handler : RuntimeHandler)
    (containerID : string) (timeout : Z) : option error * script :=
  (if existsb (String.eqb containerID) (stop_failures e)
   then Some "stop container failed" else None, e).

Definition node_host : host := {|
  Env := script;
  elapse := next_delay;
  int64_invalid := Int64.min_int;
  sort_Slice := sort_by;
  WaitForCacheSync := synced;
  StartPlugins := fun e _ => plugins_error e;
  FindContainerIdAndStatusByName := find_container;
  ParseContainerId := parse_container_id;
  EvictPodByVersion := next_api_outcome;
  GetRuntimeHandler := runtime_handler;
  StopContainer := stop_container;
  GetNodeSLO := slo;
  GetNode := node;
  GetAllPods := pods;
  collectAllPodMetricsLast := pod_metrics;
  BuildQueryMeta := query_meta_error;
  collectorNodeMetricLast := node_metric;
  defaultExpiration := 120 * 1000000000
|}.

Definition GiB : Z := 2 ^ 30.

Definition container_of (name : string) : Container := {| c_Name := name |}.

Definition running (name id : string) : ContainerStatus :=
  {| cs_Name := name; cs_ContainerID := id; cs_Running := true |}.

Definition be_pod (name uid : string) (priority : option Z) : Pod :=
  {| Namespace := "default"; Name := name; UID := uid;
     Priority := priority;
     Containers := [container_of "main"];
     Status := {| InitContainerStatuses := [];
                  ContainerStatuses :=
                    [running "main" ("containerd://" +:+ uid)] |};
     QoSClassRaw := QoSBE |}.

Definition podA : Pod := be_pod "A" "uid-a" (Some 100).
Definition podB : Pod := be_pod "B" "uid-b" (Some 100).
Definition podC : Pod := be_pod "C" "uid-c" (Some 50).

Definition strategy (enable : bool) (threshold lower : option Z)
    : ResourceThresholdStrategy :=
  {| Enable := Some enable; MemoryEvictThresholdPercent := threshold;
     MemoryEvictLowerPercent := lower |}.

Definition slo_of (s : ResourceThresholdStrategy) : NodeSLO :=
  {| Spec := {| ResourceUsedThresholdWithBE := Some s;
                OtherStrategies := false |} |}.

Definition the_node : Node :=
  {| NodeName := "node-1"; CapacityMemory := 100 * GiB |}.

(** Scenario 1 of the specification: capacity 100 GiB, threshold 70, lower
    bound 60, 80 GiB used, and the BE pods A, B and C. *)
Definition pressure : script := {|
  delays := [];
  api_outcomes := [];
  stop_failures := [];
  slo := Some (slo_of (strategy true (Some 70) (Some 60)));
  node := Some the_node;
  pods := [podA; podB; podC];
  pod_metrics :=
    <["uid-a" := Float64.of_Z (4 * GiB)]>
      (<["uid-b" := Float64.of_Z (10 * GiB)]>
         (<["uid-c" := Float64.of_Z (1 * GiB)]> ∅));
  query_meta_error := None;
  node_metric := (Float64.of_Z (80 * GiB), None);
  synced := true;
  plugins_error := None
|}.

Definition the_config : Config := {|
  ReconcileIntervalSeconds := 1;
  CPUSuppressIntervalSeconds := 1;
  CPUEvictIntervalSeconds := 1;
  MemoryEvictIntervalSeconds := 1;
  MemoryEvictCoolTimeSeconds := 60;
  QOSExtensionCfg := EmptyString
|}.

Definition manager : resmanager := {|
  config := the_config;
  collectResUsedIntervalSeconds := 1;
  nodeName := "node-1";
  evictVersion := "v1"
|}.

(** Three BE pod infos whose priorities are not all set. *)
Definition info (name : string) (priority : option Z) (mem : Z) : podInfo :=
  {| pod := be_pod name ("uid-" +:+ name) priority;
     memUsed := Float64.of_Z mem |}.

Definition infoA : podInfo := info "A" (Some 1) 5.
Definition infoB : podInfo := info "B" (Some 2) 10.
Definition infoC : podInfo := info "C" None 7.

(** A node that runs these three. *)
Definition cyclic : script := {|
  delays := [];
  api_outcomes := [];
  stop_failures := [];
  slo := Some (slo_of (strategy true (Some 70) (Some 60)));
  node := Some the_node;
  pods := [pod infoA; pod infoB; pod infoC];
  pod_metrics :=
    <["uid-A" := Float64.of_Z 5]>
      (<["uid-B" := Float64.of_Z 10]> (<["uid-C" := Float64.of_Z 7]> ∅));
  query_meta_error := None;
  node_metric := (Float64.of_Z (80 * GiB), None);
  synced := true;
  plugins_error := None
|}.

(** The node [since] nanoseconds after the evictor was built at time 0. *)
Definition at_time (since : Z) (e : script) : world node_host :=
  @Build_world node_host since e ∅ 0 [].

Definition with_slo (s : option NodeSLO) (e : script) : script :=
  {| delays := delays e; api_outcomes := api_outcomes e;
     stop_failures := stop_failures e; slo := s; node := node e;
     pods := pods e; pod_metrics := pod_metrics e;
     query_meta_error := query_meta_error e;
     node_metric := node_metric e; synced := synced e;
     plugins_error := plugins_error e |}.

Definition with_api_outcomes (outcomes : list bool) (e : script) : script :=
  {| delays := delays e; api_outcomes := outcomes;
     stop_failures := stop_failures e; slo := slo e; node := node e;
     pods := pods e; pod_metrics := pod_metrics e;
     query_meta_error := query_meta_error e;
     node_metric := node_metric e; synced := synced e;
     plugins_error := plugins_error e |}.

Definition with_synced (b : bool) (e : script) : script :=
  {| delays := delays e; api_outcomes := api_outcomes e;
     stop_failures := stop_failures e; slo := slo e; node := node e;
     pods := pods e; pod_metrics := pod_metrics e;
     query_meta_error := query_meta_error e;
     node_metric := node_metric e; synced := b;
     plugins_error := plugins_error e |}.

(** Scenario 3: the same node with the feature switched off. *)
Definition switched_off : script :=
  with_slo (Some (slo_of (strategy false (Some 70) (Some 60)))) pressure.

(** Scenario 5, for one pod: the API rejects the next eviction. *)
Definition rejecting : script := with_api_outcomes [false] pressure.

(** The same node with no lower percent set. *)
Definition default_lower : ResourceThresholdStrategy :=
  strategy true (Some 70) None.

(** A manager whose collect interval disables it. *)
Definition disabled_manager : resmanager := {|
  config := the_config;
  collectResUsedIntervalSeconds := 0;
  nodeName := "node-1";
  evictVersion := "v1"
|}.

(** A pod whose only container has stopped. *)
Definition stopped_pod : Pod :=
  {| Namespace := "default"; Name := "D"; UID := "uid-d";
     Priority := None;
     Containers := [container_of "main"];
     Status := {| InitContainerStatuses := [];
                  ContainerStatuses :=
                    [{| cs_Name := "main";
                        cs_ContainerID := "containerd://uid-d";
                        cs_Running := false |}] |};
     QoSClassRaw := QoSBE |}.

(** A run of the node: the evictor is built at time 0, 61 seconds go by,
    and the memory evictor ticks. *)
Definition started : world node_host :=
  exec NewMemoryEvictor (@fresh node_host 0 pressure).

Definition later : world node_host :=
  @Build_world node_host (clock started + Z.of_N 61000000000) pressure
    (podsEvicted started) (lastEvictTime started) (trace started).

Definition after_tick : world node_host :=
  exec (memoryEvict manager) later.

End Demo.

(** ** Metric queries ([resmanager.go]) *)

(** The interfaces of [pkg/koordlet/metriccache] that [doQuery] is handed.
    A Go interface value may be nil, hence the options. *)
Module MetricCache.

Section Interfaces.

Context {MetricProperties MetricMeta QueryParam AggregateResult : Type}.

Record MetricResource := {
  BuildQueryMeta :
    MetricProperties -> option MetricMeta * option error
}.

(** [Query] fills the result it is handed. *)
Record Querier := {
  Query :
    option MetricMeta -> option QueryParam -> AggregateResult ->
    option error * AggregateResult
}.

Record AggregateResultFactory := {
  New : option MetricMeta -> AggregateResult
}.

End Interfaces.

Arguments MetricResource : clear implicits.
Arguments Querier : clear implicits.
Arguments AggregateResultFactory : clear implicits.

End MetricCache.

Section Query.

Context {MetricProperties MetricMeta QueryParam AggregateResult : Type}.
Context
  (DefaultAggregateResultFactory :
     MetricCache.AggregateResultFactory MetricMeta AggregateResult).

Definition doQuery
    (querier : MetricCache.Querier MetricMeta QueryParam AggregateResult)
    (resource : MetricCache.MetricResource MetricProperties MetricMeta)
    (properties : MetricProperties)
    : option AggregateResult * option error :=
  let '(queryMeta, err) := MetricCache.BuildQueryMeta resource properties in
  match err with
  | Some err => (None, Some err)
  | None =>
      let aggregateResult :=
        MetricCache.New DefaultAggregateResultFactory queryMeta in
      let '(err, aggregateResult) :=
        MetricCache.Query querier queryMeta None aggregateResult in
      match err with
      | Some err => (None, Some err)
      | None => (Some aggregateResult, None)
      end
  end.

End Query.

(** ** Vocabulary of the further properties *)

Section Footprint.
Context {h : host}.
Local Abbreviation M := (M h).
Local Abbreviation world := (world h).

(** What [killContainers] writes: error and warning lines, and stops that
    leave the container no time. *)
Definition killer_effect (e : effect) : bool :=
  match e with
  | Log Error _ | Log Warning _ => true
  | StopContainerCall _ _ timeout _ => timeout =? 0
  | _ => false
  end.

(** What the eviction executor of [r] writes. *)
Definition executor_effect (r : resmanager) (e : effect) : bool :=
  match e with
  | Log _ _ | AuditRecord _ _ _ _ | PodEvictionMetric _ _ _ => true
  | EvictCall _ _ opts version _ =>
      match GracePeriodSeconds opts, PreconditionsUID opts with
      | None, Some _ => String.eqb version (evictVersion r)
      | _, _ => false
      end
  | EventRecorded _ eventtype reason _ =>
      String.eqb eventtype EventTypeWarning
      && (String.eqb reason evictPodSuccess || String.eqb reason evictPodFail)
  | _ => false
  end.

Definition manager_effect (r : resmanager) (e : effect) : bool :=
  is_log e || killer_effect e || executor_effect r e.

(** The traces the manager writes: log lines, what the killer writes, and
    what one call of [evictPodIfNotEvicted] writes, one after the other. *)
Inductive written_by (r : resmanager) : list (Z * effect) -> Prop :=
| written_nil : written_by r []
| written_log t lvl format : written_by r [(t, Log lvl format)]
| written_kill t e : killer_effect e = true -> written_by r [(t, e)]
| written_evict p reason message present result now :
    written_by r (evict_effects r p reason message present result now)
| written_app es1 es2 :
    written_by r es1 -> written_by r es2 -> written_by r (es1 ++ es2).

Definition writes (r : resmanager) (w w' : world) : Prop :=
  exists es, trace w' = trace w ++ es /\ written_by r es.

(** An eviction call sits between its audit record and its event, all three
    written at the same time, and a metric follows a call that succeeded. *)
Definition bracketed (es : list (Z * effect)) : Prop :=
  forall (i : nat) t namespace name opts version result,
    es !! i = Some (t, EvictCall namespace name opts version result) ->
    exists uid reason message eventMessage,
      PreconditionsUID opts = Some uid /\
      (0 < i)%nat /\
      es !! (i - 1)%nat = Some (t, AuditRecord namespace name reason message) /\
      es !! (i + 1)%nat
      = Some (t, EventRecorded uid EventTypeWarning
                   (match result with
                    | None => evictPodSuccess
                    | Some _ => evictPodFail
                    end) eventMessage) /\
      (result = None ->
       es !! (i + 2)%nat = Some (t, PodEvictionMetric namespace name reason)).

(** Every entry of the evicted set stands for an eviction that succeeded:
    it is filed under the UID it holds, a successful call for that UID is in
    the trace, made at least a time to live before the entry runs out, and
    the entry runs out at most a time to live from now. *)
Definition entries_backed (w : world) : Prop :=
  forall uid it,
    podsEvicted w !! uid = Some it ->
    object it = uid /\
    expirationTime it <= clock w + defaultExpiration h /\
    exists t e,
      (t, e) ∈ trace w /\ is_evict_success uid e = true /\
      t + defaultExpiration h <= expirationTime it.

Definition keeps_entries (w w' : world) : Prop :=
  entries_backed w -> entries_backed w'.

(** The line [killAndEvictBEPods] ends a wave of evictions with. *)
Definition is_wave_end (e : effect) : bool :=
  match e with
  | Log Info format =>
      String.eqb format
        "killAndEvictBEPods completed, memoryNeedRelease(%v) memoryReleased(%v)"
  | _ => false
  end.

(** [MemoryEvictCoolTimeSeconds], in nanoseconds. *)
Definition cool_time (r : resmanager) : Z :=
  MemoryEvictCoolTimeSeconds (config r) * time_Second.

(** Two waves are a cool time apart. *)
Definition waves_spaced (r : resmanager) (tr : list (Z * effect)) : Prop :=
  forall (i j : nat) ti tj ei ej,
    (i < j)%nat ->
    tr !! i = Some (ti, ei) -> tr !! j = Some (tj, ej) ->
    is_wave_end ei = true -> is_wave_end ej = true ->
    ti + cool_time r <= tj.

(** The invariant behind it: no wave ended after [lastEvictTime]; and when
    the tick is [cooled], the cool time since [lastEvictTime] is over. *)
Definition wave_inv (r : resmanager) (cooled : bool) (w : world) : Prop :=
  stamp_inv w /\
  (forall t e, (t, e) ∈ trace w -> is_wave_end e = true ->
               t <= lastEvictTime w) /\
  waves_spaced r (trace w) /\
  (cooled = true -> lastEvictTime w + cool_time r <= clock w).

Definition keeps_waves (r : resmanager) (cooled : bool) (w w' : world)
    : Prop :=
  wave_inv r cooled w -> wave_inv r cooled w'.

(** The tail of [killAndEvictBEPods]: the stamp and the last line. *)
Definition wave_tail : M unit :=
  now ← time_Now;
  set_lastEvictTime now ;;
  klog Info
    "killAndEvictBEPods completed, memoryNeedRelease(%v) memoryReleased(%v)".

(** From the guards of a tick on: the tick is cooled, and is not when it
    returns. *)
Definition ends_wave (r : resmanager) (w w' : world) : Prop :=
  wave_inv r true w -> wave_inv r false w'.

Definition is_audit (e : effect) : bool :=
  match e with AuditRecord _ _ _ _ => true | _ => false end.

(** The line [evictPodIfNotEvicted] writes for a UID it finds in the evicted
    set. *)
Definition is_already_evicted (e : effect) : bool :=
  match e with
  | Log (V n) format =>
      Nat.eqb n 5
      && String.eqb format "Pod has been evicted! podID: %v, evict reason: %s"
  | _ => false
  end.

(** [sort.Slice] only swaps elements: whatever the comparator, what it
    leaves is a permutation of what it was given. *)
Definition sort_permutes : Prop :=
  forall lt l, sort_Slice h lt l ≡ₚ l.

(** What was added to the trace satisfies [P]. *)
Definition only (P : effect -> Prop) (w w' : world) : Prop :=
  exists es, trace w' = trace w ++ es /\ Forall (fun x => P x.2) es.

(** An eviction call, if [e] is one, is for a pod that [among] holds of,
    by its namespace and name and with its UID as precondition. *)
Definition evicts_among (among : Pod -> Prop) (e : effect) : Prop :=
  match e with
  | EvictCall namespace name opts _ _ =>
      exists p, among p /\ namespace = Namespace p /\ name = Name p /\
                PreconditionsUID opts = Some (UID p)
  | _ => True
  end.

(** The container IDs of the stops in a trace, in order. *)
Definition stopped_ids (es : list (Z * effect)) : list string :=
  omap (fun x => match x.2 with
                 | StopContainerCall _ containerID _ _ => Some containerID
                 | _ => None
                 end) es.

(** A container the killer gets to stop: its status is found and running,
    it has an ID, and its runtime has a handler. *)
Definition stoppable (pod : Pod) (container : Container) : Prop :=
  exists containerID status,
    FindContainerIdAndStatusByName h (Status pod) (c_Name container)
    = (containerID, Some status, None) /\
    cs_Running status = true /\
    containerID <> EmptyString /\
    forall e, exists handler,
      GetRuntimeHandler h e (ParseContainerId h (cs_ContainerID status)).1.1
      = (Some handler, None).

(** The pod with another list of containers in its spec. *)
Definition with_containers (pod : Pod) (containers : list Container) : Pod :=
  {| Namespace := Namespace pod; Name := Name pod; UID := UID pod;
     Priority := Priority pod; Containers := containers;
     Status := Status pod; QoSClassRaw := QoSClassRaw pod |}.

(** A container at which the killer gives the pod up: its status is not
    found, is nil, or is not running. *)
Definition aborting (pod : Pod) (container : Container) : Prop :=
  let found :=
    FindContainerIdAndStatusByName h (Status pod) (c_Name container) in
  found.2 <> None \/ found.1.2 = None \/
  exists status, found.1.2 = Some status /\ cs_Running status = false.

(** A container the killer passes over: found and running, with an ID, but
    of a runtime that has no handler. *)
Definition unhandled (pod : Pod) (container : Container) : Prop :=
  exists containerID status,
    FindContainerIdAndStatusByName h (Status pod) (c_Name container)
    = (containerID, Some status, None) /\
    cs_Running status = true /\
    containerID <> EmptyString /\
    forall e,
      (GetRuntimeHandler h e
         (ParseContainerId h (cs_ContainerID status)).1.1).2 <> None \/
      (GetRuntimeHandler h e
         (ParseContainerId h (cs_ContainerID status)).1.1).1 = None.

(** The container ID the lookup gives for a container of the pod. *)
Definition id_of (pod : Pod) (container : Container) : string :=
  (FindContainerIdAndStatusByName h (Status pod) (c_Name container)).1.1.

(** The usage percent in the spec's words (section 4.6):
    [floor(used * 100 / capacity)], on the exact value of the sample. *)
Definition usage_floor (used : float64) (capacity : Z) : option Z :=
  match used with
  | S754_zero _ => Some 0
  | S754_finite s m e =>
      let n := if s then - Z.pos m else Z.pos m in
      Some (if 0 <=? e then n * 2 ^ e * 100 / capacity
            else n * 100 / (capacity * 2 ^ (- e)))
  | S754_infinity _ | S754_nan => None
  end.

End Footprint.

Arguments sort_permutes : clear implicits.
Arguments stoppable : clear implicits.
Arguments aborting : clear implicits.
Arguments unhandled : clear implicits.
Arguments id_of : clear implicits.

(** ** Further runs of the scripted node *)

Module Cases.

(** A pod with two running containers. *)
Definition twin_pod : Pod :=
  {| Namespace := "default"; Name := "T"; UID := "uid-t";
     Priority := None;
     Containers := [Demo.container_of "first"; Demo.container_of "second"];
     Status := {| InitContainerStatuses := [];
                  ContainerStatuses :=
                    [Demo.running "first" "containerd://id-1";
                     Demo.running "second" "containerd://id-2"] |};
     QoSClassRaw := QoSBE |}.

(** A runtime that fails to stop the first of them. *)
Definition failing_stop : Demo.script := {|
  Demo.delays := [];
  Demo.api_outcomes := [];
  Demo.stop_failures := ["id-1"];
  Demo.slo := Demo.slo Demo.pressure;
  Demo.node := Demo.node Demo.pressure;
  Demo.pods := [twin_pod];
  Demo.pod_metrics := ∅;
  Demo.query_meta_error := None;
  Demo.node_metric := Demo.node_metric Demo.pressure;
  Demo.synced := true;
  Demo.plugins_error := None
|}.

(** Scenario 5 of the specification on the run of [Demo.later]: the API
    refuses the first eviction of the wave. *)
Definition later_rejecting : world Demo.node_host :=
  @Build_world Demo.node_host
    (clock Demo.started + Z.of_N 61000000000)
    (Demo.with_api_outcomes [false] Demo.pressure)
    (podsEvicted Demo.started) (lastEvictTime Demo.started)
    (trace Demo.started).

Definition after_rejection : world Demo.node_host :=
  exec (memoryEvict Demo.manager) later_rejecting.

(** A second wave, 61 seconds after the first. *)
Definition later_again : world Demo.node_host :=
  @Build_world Demo.node_host
    (clock Demo.after_tick + Z.of_N 61000000000) Demo.pressure
    (podsEvicted Demo.after_tick) (lastEvictTime Demo.after_tick)
    (trace Demo.after_tick).

Definition second_wave : world Demo.node_host :=
  exec (memoryEvict Demo.manager) later_again.

(** A metric cache of two numbered resources: the first has no meta, the
    querier has nothing for the second meta, and a result is a number. *)
Definition resource : MetricCache.MetricResource nat nat :=
  {| MetricCache.BuildQueryMeta := fun properties =>
       match properties with
       | O => (None, Some "unknown metric")
       | S n => (Some n, None)
       end |}.

Definition querier : MetricCache.Querier nat unit Z :=
  {| MetricCache.Query := fun meta _ result =>
       match meta with
       | Some O => (None, result + 42)
       | _ => (Some "no data", result)
       end |}.

Definition factory : MetricCache.AggregateResultFactory nat Z :=
  {| MetricCache.New := fun _ => 0 |}.

(** A pod whose second container has no status: the walk ends there. *)
Definition gone_pod : Pod :=
  {| Namespace := "default"; Name := "G"; UID := "uid-g";
     Priority := None;
     Containers := [Demo.container_of "first"; Demo.container_of "gone";
                    Demo.container_of "second"];
     Status := {| InitContainerStatuses := [];
                  ContainerStatuses :=
                    [Demo.running "first" "containerd://id-1";
                     Demo.running "second" "containerd://id-2"] |};
     QoSClassRaw := QoSBE |}.

(** A pod whose second container runs under a runtime without handler. *)
Definition odd_pod : Pod :=
  {| Namespace := "default"; Name := "O"; UID := "uid-o";
     Priority := None;
     Containers := [Demo.container_of "first"; Demo.container_of "odd";
                    Demo.container_of "second"];
     Status := {| InitContainerStatuses := [];
                  ContainerStatuses :=
                    [Demo.running "first" "containerd://id-1";
                     Demo.running "odd" "rkt://id-x";
                     Demo.running "second" "containerd://id-2"] |};
     QoSClassRaw := QoSBE |}.

(** A node of 16 GiB that uses 12025908428.875 bytes: a little more than
    70 percent, and less once the sample is cut to whole bytes. *)
Definition small_node : Node :=
  {| NodeName := "node-1"; CapacityMemory := 16 * Demo.GiB |}.

Definition sample_between : float64 :=
  binary_normalize Float64.prec Float64.emax 96207267431 (-3) false.

Definition fractional : Demo.script := {|
  Demo.delays := [];
  Demo.api_outcomes := [];
  Demo.stop_failures := [];
  Demo.slo := Demo.slo Demo.pressure;
  Demo.node := Some small_node;
  Demo.pods := Demo.pods Demo.pressure;
  Demo.pod_metrics := Demo.pod_metrics Demo.pressure;
  Demo.query_meta_error := None;
  Demo.node_metric := (sample_between, None);
  Demo.synced := true;
  Demo.plugins_error := None
|}.

(** Scenario 1 with a lower percent far below zero. *)
Definition deep_lower : Demo.script :=
  Demo.with_slo
    (Some (Demo.slo_of (Demo.strategy true (Some 70) (Some (-100000000)))))
    Demo.pressure.

(** A manager whose cool time, in nanoseconds, does not fit an [int64]. *)
Definition patient_manager : resmanager := {|
  config := {| ReconcileIntervalSeconds := 1;
               CPUSuppressIntervalSeconds := 1;
               CPUEvictIntervalSeconds := 1;
               MemoryEvictIntervalSeconds := 1;
               MemoryEvictCoolTimeSeconds := 9223372037;
               QOSExtensionCfg := EmptyString |};
  collectResUsedIntervalSeconds := 1;
  nodeName := "node-1";
  evictVersion := "v1"
|}.

End Cases.

(** * Properties *)

Section Executor.
Context {h : host}.
Local Abbreviation M := (M h).
Local Abbreviation world := (world h).

(** ** The state monad *)

Lemma exec_bind {A B} (m : M A) (k : A -> M B) (w : world) :
  exec (bind m k) w = exec (k (eval m w)) (exec m w).
Proof. reflexivity. Qed.

Lemma eval_bind {A B} (m : M A) (k : A -> M B) (w : world) :
  eval (bind m k) w = eval (k (eval m w)) (exec m w).
Proof. reflexivity. Qed.

Lemma new_trace_app (w w' : world) es :
  trace w' = trace w ++ es -> new_trace w w' = es.
Proof. intros E. unfold new_trace. rewrite E. apply drop_app_length. Qed.

(** ** The expiring key set *)

Lemma cache_Get_exec key (w : world) :
  exec (cache_Get key) w = exec time_Now w.
Proof.
  unfold cache_Get, exec, bind, gets, ret. cbn.
  destruct (podsEvicted w !! key) as [it|]; [|reflexivity].
  destruct (_ <? _); reflexivity.
Qed.

Lemma cache_Get_present key (w : world) :
  (eval (cache_Get key) w).2 = live key (eval time_Now w) (podsEvicted w).
Proof.
  unfold cache_Get, live, eval, bind, gets, ret. cbn.
  destruct (podsEvicted w !! key) as [it|]; [|reflexivity].
  destruct (_ <? _); reflexivity.
Qed.

Lemma evictPodIfNotEvicted_present r p node reason message (w : world) :
  (eval (cache_Get (UID p)) w).2 = true ->
  exec (evictPodIfNotEvicted r p node reason message) w =
  exec (klog (V 5) "Pod has been evicted! podID: %v, evict reason: %s")
    (exec time_Now w).
Proof.
  intros Hp. unfold evictPodIfNotEvicted.
  rewrite exec_bind, Hp, cache_Get_exec. reflexivity.
Qed.

Lemma evictPodIfNotEvicted_success r p node reason message (w : world) :
  (eval (cache_Get (UID p)) w).2 = false ->
  api_result r p (exec time_Now w) = None ->
  exec (evictPodIfNotEvicted r p node reason message) w =
  exec (emit (EventRecorded (UID p) EventTypeWarning evictPodSuccess
             ("evict Pod:" +:+ Name p +:+ ", reason: " +:+ reason
                +:+ ", message: " +:+ message)) ;;
        emit (PodEvictionMetric (Namespace p) (Name p) reason) ;;
        klog Info "evict pod %v/%v success, reason: %v" ;;
        cache_SetDefault (UID p) (UID p))
    (after_call r p reason message (exec time_Now w)).
Proof.
  intros Hp Hr. unfold evictPodIfNotEvicted.
  rewrite exec_bind, Hp, cache_Get_exec.
  unfold api_result in Hr. generalize dependent (exec time_Now w).
  intros w1 Hr.
  unfold evictPod, after_call, exec, eval, bind, emit, klog, call, ret.
  cbn -[String.append]. rewrite Hr. reflexivity.
Qed.

Lemma evictPodIfNotEvicted_failure r p node reason message (w : world) :
  (eval (cache_Get (UID p)) w).2 = false ->
  api_result r p (exec time_Now w) <> None ->
  exec (evictPodIfNotEvicted r p node reason message) w =
  exec (emit (EventRecorded (UID p) EventTypeWarning evictPodFail
             ("evict Pod:" +:+ Name p +:+ ", reason: " +:+ reason
                +:+ ", message: " +:+ message)) ;;
        klog Error "evict pod %v/%v failed, reason: %v, error: %v")
    (after_call r p reason message (exec time_Now w)).
Proof.
  intros Hp Hr. unfold evictPodIfNotEvicted.
  rewrite exec_bind, Hp, cache_Get_exec.
  unfold api_result in Hr. generalize dependent (exec time_Now w).
  intros w1 Hr.
  unfold evictPod, after_call, exec, eval, bind, emit, klog, call, ret.
  cbn -[String.append].
  destruct (EvictPodByVersion _ _ _ _ _ _).1; [reflexivity|congruence].
Qed.

(** ** The spacing invariant *)

Lemma spaced_snoc tr t e :
  evictions_spaced h tr ->
  (forall uid t' e',
     is_evict_success uid e = true -> (t', e') ∈ tr ->
     is_evict_success uid e' = true -> t' + defaultExpiration h <= t) ->
  evictions_spaced h (tr ++ [(t, e)]).
Proof.
  intros Hs Hn i j uid ti tj ei ej Hij Hi Hj Si Sj.
  destruct (decide (j < length tr)%nat) as [Hlt|Hge].
  - rewrite lookup_app_l in Hi by lia. rewrite lookup_app_l in Hj by lia.
    exact (Hs i j uid ti tj ei ej Hij Hi Hj Si Sj).
  - assert (j = length tr) as ->.
    { apply lookup_lt_Some in Hj. rewrite length_app in Hj. simpl in Hj. lia. }
    rewrite lookup_app_l in Hi by lia.
    rewrite list_lookup_middle in Hj by reflexivity.
    injection Hj as <- <-.
    eapply (Hn uid ti ei); [exact Sj| |exact Si].
    eapply list_elem_of_lookup_2; eauto.
Qed.

Lemma inv_emit pending e (w : world) :
  (forall uid, is_evict_success uid e = false) ->
  evict_inv pending w -> evict_inv pending (exec (emit e) w).
Proof.
  intros He (Hb & Hc & Hs). repeat split.
  - unfold stamps_bounded. cbn. apply Forall_app. split; [exact Hb|].
    repeat constructor. cbn. lia.
  - intros uid t e' Hin Hsucc. cbn in Hin.
    apply elem_of_app in Hin as [Hin|Hin].
    + exact (Hc uid t e' Hin Hsucc).
    + apply list_elem_of_singleton in Hin. injection Hin as -> ->.
      rewrite He in Hsucc. discriminate.
  - cbn. apply spaced_snoc; [exact Hs|].
    intros uid t' e' Hsucc. rewrite He in Hsucc. discriminate.
Qed.

Lemma inv_now pending (w : world) :
  evict_inv pending w -> evict_inv pending (exec time_Now w).
Proof.
  intros (Hb & Hc & Hs). repeat split.
  - unfold stamps_bounded in *. cbn. eapply Forall_impl; [exact Hb|].
    cbn. intros. lia.
  - intros uid t e' Hin Hsucc.
    destruct (Hc uid t e' Hin Hsucc) as [?|[?|?]]; auto.
    right. left. cbn. lia.
  - exact Hs.
Qed.

Lemma inv_call pending {A} (f : Env h -> A * Env h) (w : world) :
  evict_inv pending w -> evict_inv pending (exec (call f) w).
Proof. intros (Hb & Hc & Hs). repeat split; assumption. Qed.

Lemma inv_stamp pending t (w : world) :
  evict_inv pending w -> evict_inv pending (exec (set_lastEvictTime t) w).
Proof. intros (Hb & Hc & Hs). repeat split; assumption. Qed.

(** The API call of an absent UID leaves the invariant with that UID
    pending. *)
Lemma inv_emit_call uid ns name opts version result (w : world) :
  PreconditionsUID opts = Some uid ->
  live uid (clock w) (podsEvicted w) = false ->
  evict_inv None w ->
  evict_inv (Some uid)
    (exec (emit (EvictCall ns name opts version result)) w).
Proof.
  intros Hopts Hlive (Hb & Hc & Hs). repeat split.
  - unfold stamps_bounded. cbn. apply Forall_app. split; [exact Hb|].
    repeat constructor. cbn. lia.
  - intros uid' t e' Hin Hsucc. cbn in Hin.
    apply elem_of_app in Hin as [Hin|Hin].
    + destruct (Hc uid' t e' Hin Hsucc) as [?|?]; [discriminate|auto].
    + apply list_elem_of_singleton in Hin. injection Hin as -> ->.
      left. cbn in Hsucc. destruct result; [discriminate|].
      rewrite Hopts in Hsucc. apply String.eqb_eq in Hsucc. congruence.
  - cbn. apply spaced_snoc; [exact Hs|].
    intros uid' t' e' Hsucc Hin Hsucc'.
    cbn in Hsucc. destruct result; [discriminate|].
    rewrite Hopts in Hsucc. apply String.eqb_eq in Hsucc. subst uid'.
    destruct (Hc uid t' e' Hin Hsucc') as [?|[?|(it & Hit & Hexp)]];
      [discriminate|lia|].
    unfold live in Hlive. rewrite Hit in Hlive.
    apply Z.ltb_ge in Hlive. lia.
Qed.

(** The insertion covers the pending UID. *)
Lemma inv_SetDefault uid value (w : world) :
  evict_inv (Some uid) w ->
  evict_inv None (exec (cache_SetDefault uid value) w).
Proof.
  intros (Hb & Hc & Hs).
  unfold cache_SetDefault, exec, bind, set_podsEvicted, time_Now, ret.
  cbn. repeat split.
  - unfold stamps_bounded in *. cbn. eapply Forall_impl; [exact Hb|].
    cbn. intros. lia.
  - intros uid' t e' Hin Hsucc. cbn in Hin |- *. right.
    destruct (decide (uid' = uid)) as [->|Hne].
    + right. eexists. rewrite lookup_insert_eq. split; [reflexivity|].
      cbn. unfold stamps_bounded in Hb. rewrite Forall_forall in Hb.
      apply Hb in Hin. cbn in Hin. lia.
    + destruct (Hc uid' t e' Hin Hsucc) as [?|[?|(it & Hit & Hexp)]].
      * congruence.
      * left. lia.
      * right. exists it. rewrite lookup_insert_ne by congruence. auto.
  - exact Hs.
Qed.

Lemma inv_evictPodIfNotEvicted r p node reason message (w : world) :
  evict_inv None w ->
  evict_inv None (exec (evictPodIfNotEvicted r p node reason message) w).
Proof.
  intros Hinv.
  destruct (eval (cache_Get (UID p)) w).2 eqn:Hp.
  - rewrite evictPodIfNotEvicted_present by exact Hp.
    apply inv_emit; [reflexivity|]. apply inv_now, Hinv.
  - assert (live (UID p) (clock (exec time_Now w))
              (podsEvicted (exec time_Now w)) = false) as Hlive.
    { rewrite cache_Get_present in Hp. exact Hp. }
    apply inv_now with (pending := None) in Hinv.
    destruct (api_result r p (exec time_Now w)) eqn:Hr.
    + rewrite evictPodIfNotEvicted_failure by (congruence).
      generalize dependent (exec time_Now w). intros w1 Hinv Hlive Hr.
      rewrite !exec_bind. apply inv_emit; [reflexivity|].
      apply inv_emit; [reflexivity|].
      unfold after_call. rewrite !exec_bind.
      apply inv_emit.
      { intros uid. cbn. unfold api_result in Hr. rewrite Hr. reflexivity. }
      apply inv_call. apply inv_emit; [reflexivity|]. exact Hinv.
    + rewrite evictPodIfNotEvicted_success by assumption.
      generalize dependent (exec time_Now w). intros w1 Hinv Hlive Hr.
      rewrite !exec_bind. apply inv_SetDefault.
      do 3 (apply inv_emit; [reflexivity|]).
      unfold after_call. rewrite !exec_bind.
      apply inv_emit_call; [reflexivity|exact Hlive|].
      apply inv_call. apply inv_emit; [reflexivity|]. exact Hinv.
Qed.


(** ** What every tick respects *)

Section Gentle.

Context (r : resmanager) (R : relation world) (HR : gentle r R).

Lemma respects_ret {A} (a : A) : respects R (ret a).
Proof. intros w. apply (gentle_refl r R HR). Qed.

Lemma respects_bind {A B} (m : M A) (k : A -> M B) :
  respects R m -> (forall a, respects R (k a)) -> respects R (bind m k).
Proof.
  intros Hm Hk w. rewrite exec_bind.
  eapply (gentle_trans r R HR); [apply Hm|apply Hk].
Qed.

Lemma respects_ask {A} (f : Env h -> A) : respects R (ask f).
Proof. intros w. apply (gentle_refl r R HR). Qed.

Lemma respects_gets {A} (f : world -> A) : respects R (gets f).
Proof. intros w. apply (gentle_refl r R HR). Qed.

Lemma respects_klog lvl format : respects R (klog lvl format).
Proof. apply (gentle_emit r R HR). reflexivity. Qed.

Ltac respects_step :=
  match goal with
  | |- respects _ (ret _) => apply respects_ret
  | |- respects _ (klog _ _) => apply respects_klog
  | |- respects _ (ask _) => apply respects_ask
  | |- respects _ (gets _) => apply respects_gets
  | |- respects _ time_Now => apply (gentle_now r R HR)
  | |- respects _ (call _) => apply (gentle_call r R HR)
  | |- respects _ (emit _) => apply (gentle_emit r R HR); reflexivity
  | |- respects _ (evictPodIfNotEvicted _ _ _ _ _) =>
      apply (gentle_evict r R HR)
  | |- respects _ (bind _ _) => apply respects_bind; [|intros ?]
  | |- respects _ (match ?x with _ => _ end) => destruct x
  | |- respects _ (let '(_, _) := ?x in _) => destruct x
  end.

Lemma respects_killContainers pod message :
  respects R (killContainers pod message).
Proof.
  unfold killContainers.
  induction (Containers pod) as [|c cs IH]; cbn [killContainers_loop].
  - apply respects_ret.
  - repeat first
      [ respects_step
      | match goal with
        | |- respects _ (killContainers_loop _ _ _) => exact IH
        end ].
Qed.

Lemma respects_evictPods pods node reason message :
  respects R (evictPodsIfNotEvicted r pods node reason message).
Proof.
  induction pods as [|p pods IH]; cbn [evictPodsIfNotEvicted].
  - apply respects_ret.
  - repeat first
      [ respects_step
      | match goal with
        | |- respects _ (evictPodsIfNotEvicted _ _ _ _ _) => exact IH
        end ].
Qed.

Lemma respects_drain message need infos released killed :
  respects R (drain message need infos released killed).
Proof.
  revert released killed.
  induction infos as [|v infos IH]; intros released killed; cbn [drain].
  - apply respects_ret.
  - repeat first
      [ respects_step
      | match goal with
        | |- respects _ (drain _ _ _ _ _) => apply IH
        | |- respects _ (killContainers _ _) => apply respects_killContainers
        end ].
Qed.

Lemma respects_stamp {A} (k : M A) :
  respects R k ->
  respects R (bind time_Now (fun now => bind (set_lastEvictTime now)
                                          (fun _ => k))).
Proof.
  intros Hk w. rewrite !exec_bind.
  eapply (gentle_trans r R HR); [apply (gentle_now r R HR)|].
  eapply (gentle_trans r R HR); [|apply Hk].
  apply (gentle_stamp r R HR (exec time_Now w)).
Qed.

Lemma respects_killAndEvictBEPods node podMetrics need :
  respects R (killAndEvictBEPods r node podMetrics need).
Proof.
  unfold killAndEvictBEPods, getSortedBEPodInfos.
  repeat first
    [ match goal with
      | |- respects _ (bind time_Now _) => apply respects_stamp
      | |- respects _ (drain _ _ _ _ _) => apply respects_drain
      | |- respects _ (evictPodsIfNotEvicted _ _ _ _ _) =>
          apply respects_evictPods
      end
    | respects_step ].
Qed.

Lemma respects_memoryEvict : respects R (memoryEvict r).
Proof.
  unfold memoryEvict, memoryEvict_body.
  repeat first
    [ match goal with
      | |- respects _ (killAndEvictBEPods _ _ _ _) =>
          apply respects_killAndEvictBEPods
      end
    | respects_step ].
Qed.

End Gentle.


(** ** The two invariants of a run *)

Lemma gentle_evict_inv r : gentle r (@keeps_evict_inv h).
Proof.
  split; unfold keeps_evict_inv, respects.
  - auto.
  - auto.
  - intros e He w. apply inv_emit. intros uid.
    destruct e; try reflexivity. discriminate.
  - intros w. apply inv_now.
  - intros A f w. apply inv_call.
  - intros w. apply inv_stamp.
  - intros p node reason message w. apply inv_evictPodIfNotEvicted.
Qed.

Lemma evictPodIfNotEvicted_frame r p node reason message (w : world) :
  lastEvictTime (exec (evictPodIfNotEvicted r p node reason message) w)
  = lastEvictTime w /\
  clock w <= clock (exec (evictPodIfNotEvicted r p node reason message) w).
Proof.
  destruct (eval (cache_Get (UID p)) w).2 eqn:Hp.
  - rewrite evictPodIfNotEvicted_present by exact Hp. cbn. lia.
  - destruct (api_result r p (exec time_Now w)) eqn:Hr.
    + rewrite evictPodIfNotEvicted_failure by congruence. cbn. lia.
    + rewrite evictPodIfNotEvicted_success by assumption. cbn. lia.
Qed.

Lemma gentle_stamp_inv r : gentle r (@keeps_stamp h).
Proof.
  split; unfold keeps_stamp, respects, stamp_inv.
  - intros w. lia.
  - intros w1 w2 w3 H12 H23 H1.
    destruct (H12 H1) as [H2 ?]. destruct (H23 H2). lia.
  - intros e _ w. cbn. lia.
  - intros w. cbn. lia.
  - intros A f w. cbn. lia.
  - intros w. cbn. lia.
  - intros p node reason message w.
    destruct (evictPodIfNotEvicted_frame r p node reason message w).
    lia.
Qed.

Lemma step_keeps r (R : relation world) (w w' : world) :
  gentle r R ->
  respects R cache_sweep ->
  (forall d e w0,
     R w0 (@Build_world h (clock w0 + Z.of_N d) e (podsEvicted w0)
             (lastEvictTime w0) (trace w0))) ->
  step r w w' -> R w w'.
Proof.
  intros HR Hsweep Henv Hstep. destruct Hstep.
  - apply (respects_evictPods r R HR).
  - apply (respects_memoryEvict r R HR).
  - apply Hsweep.
  - apply Henv.
Qed.

Lemma sweep_keeps_evict_inv : respects (@keeps_evict_inv h) cache_sweep.
Proof.
  intros w (Hb & Hc & Hs).
  unfold cache_sweep, exec, bind, set_podsEvicted, time_Now.
  cbn. repeat split.
  - unfold stamps_bounded in *. cbn. eapply Forall_impl; [exact Hb|].
    cbn. intros. lia.
  - intros uid t e Hin Hsucc. cbn in Hin |- *. right.
    destruct (Hc uid t e Hin Hsucc) as [?|[?|(it & Hit & Hexp)]].
    + discriminate.
    + left. lia.
    + destruct (decide (clock w + Z.of_N (elapse h (env w)).1
                        < expirationTime it)) as [Hlt|Hge].
      * right. exists it. split; [|exact Hexp].
        apply map_lookup_filter_Some. split; [exact Hit|exact Hlt].
      * left. lia.
  - exact Hs.
Qed.

Lemma sweep_keeps_stamp : respects (@keeps_stamp h) cache_sweep.
Proof. intros w. unfold keeps_stamp, stamp_inv. cbn. lia. Qed.

Lemma reachable_invariants r (w : world) :
  reachable r w -> evict_inv None w /\ stamp_inv w.
Proof.
  induction 1 as [t0 e|w w' _ [IH1 IH2] Hstep].
  - split.
    + repeat split.
      * constructor.
      * intros uid t e' Hin. cbn in Hin. inversion Hin.
      * intros i j uid ti tj ei ej _ Hi. cbn in Hi.
        rewrite lookup_nil in Hi. discriminate.
    + unfold stamp_inv. cbn. lia.
  - split.
    + apply (step_keeps r keeps_evict_inv w w'); auto.
      * apply gentle_evict_inv.
      * apply sweep_keeps_evict_inv.
      * intros d e w0 (Hb & Hc & Hs). repeat split.
        -- unfold stamps_bounded in *. cbn. eapply Forall_impl; [exact Hb|].
           cbn. intros. lia.
        -- intros uid t e' Hin Hsucc. cbn in Hin |- *.
           destruct (Hc uid t e' Hin Hsucc) as [?|[?|?]]; auto.
           right. left. lia.
        -- exact Hs.
    + apply (step_keeps r keeps_stamp w w'); auto.
      * apply gentle_stamp_inv.
      * apply sweep_keeps_stamp.
      * intros d e w0. unfold keeps_stamp, stamp_inv. cbn. lia.
Qed.

End Executor.

Section Barrier.
Context {h : host}.
Local Abbreviation M := (M h).
Local Abbreviation world := (world h).

Lemma evictPodIfNotEvicted_world r p node reason message (w : world) :
  let w1 := exec time_Now w in
  let present := (eval (cache_Get (UID p)) w).2 in
  let result := api_result r p w1 in
  let w' := exec (evictPodIfNotEvicted r p node reason message) w in
  trace w' = trace w
             ++ evict_effects r p reason message present result (clock w1) /\
  lastEvictTime w' = lastEvictTime w /\
  podsEvicted w' =
    (if present then podsEvicted w
     else match result with
          | None =>
              <[UID p := {| object := UID p;
                            expirationTime :=
                              clock w' + defaultExpiration h |}]>
                (podsEvicted w)
          | Some _ => podsEvicted w
          end) /\
  (present = true \/ result <> None -> clock w' = clock w1).
Proof.
  intros w1 present result w'. subst w'.
  destruct present eqn:Hp; subst present.
  - rewrite evictPodIfNotEvicted_present by exact Hp.
    repeat split.
  - destruct result eqn:Hr; subst result w1.
    + rewrite evictPodIfNotEvicted_failure by congruence.
      unfold api_result in Hr. cbn in Hr.
      cbn -[String.append]. rewrite Hr, <- !app_assoc. repeat split.
    + rewrite evictPodIfNotEvicted_success by assumption.
      unfold api_result in Hr. cbn in Hr.
      cbn -[String.append]. rewrite Hr, <- !app_assoc. repeat split.
      intros [?|?]; congruence.
Qed.


Lemma count_effects_app f (es1 es2 : list (Z * effect)) :
  count_effects f (es1 ++ es2)
  = (count_effects f es1 + count_effects f es2)%nat.
Proof. unfold count_effects. rewrite filter_app, length_app. reflexivity. Qed.

Lemma evict_effects_calls r p reason message present result now :
  count_effects is_evict_call
    (evict_effects r p reason message present result now)
  = if present then 0%nat else 1%nat.
Proof. destruct present, result; reflexivity. Qed.

Lemma evict_effects_logs r p reason message result now :
  Forall (fun x => is_log x.2 = true)
    (evict_effects r p reason message true result now).
Proof. repeat constructor. Qed.

(** C1. [evictPodIfNotEvicted] is a barrier: when the pod's UID is in the
    evicted set the call writes a log line and nothing else (no audit
    record, no API call, no event) and leaves the set alone; otherwise it
    makes exactly one API call and inserts the UID exactly when that call
    succeeds.  Hence, along every run of the node, two successful eviction
    calls for one UID are at least a time to live apart. *)
Theorem evictPodIfNotEvicted_at_most_once (r : resmanager) :
  (forall p node reason message (w : world),
     let w' := exec (evictPodIfNotEvicted r p node reason message) w in
     let present := (eval (cache_Get (UID p)) w).2 in
     let result := api_result r p (exec time_Now w) in
     new_trace w w'
     = evict_effects r p reason message present result (eval time_Now w) /\
     (present = true ->
        Forall (fun x => is_log x.2 = true) (new_trace w w') /\
        podsEvicted w' = podsEvicted w) /\
     (present = false ->
        count_effects is_evict_call (new_trace w w') = 1%nat /\
        (result = None ->
           podsEvicted w'
           = <[UID p := {| object := UID p;
                           expirationTime :=
                             clock w' + defaultExpiration h |}]>
               (podsEvicted w)) /\
        (result <> None -> podsEvicted w' = podsEvicted w))) /\
  (forall w : world, reachable r w -> evictions_spaced h (trace w)).
Proof.
  split.
  - intros p node reason message w w' present result.
    destruct (evictPodIfNotEvicted_world r p node reason message w)
      as (Htr & _ & Hset & _).
    apply new_trace_app in Htr. fold w' present result in Htr, Hset.
    split; [exact Htr|]. rewrite Htr. split.
    + intros Hp. rewrite Hp in *. split; [|exact Hset].
      apply evict_effects_logs.
    + intros Hp. rewrite Hp in *. split; [apply evict_effects_calls|].
      split; intros Hr.
      * rewrite Hr in Hset. exact Hset.
      * destruct result; [exact Hset|congruence].
  - intros w Hw. apply (reachable_invariants r w Hw).
Qed.

Lemma live_later key now now' (items : gmap string item) :
  now <= now' -> live key now items = false -> live key now' items = false.
Proof.
  unfold live. destruct (items !! key) as [it|]; [|reflexivity].
  intros Hle Hlive. apply Z.ltb_ge in Hlive. apply Z.ltb_ge. lia.
Qed.

(** C2, amended.  Two calls of [evictPodIfNotEvicted] for one pod, back to
    back: when the first finds the UID in the evicted set, at most one API
    call is made; when the first evicts with success and less than a time
    to live goes by before the second looks the UID up, exactly one; when
    the API rejects the first call the UID is not inserted and the second
    call asks the API again, which makes two. *)
Theorem evict_twice_api_calls r p node reason message (w : world) :
  let w1 := exec (evictPodIfNotEvicted r p node reason message) w in
  let w2 := exec (evict_twice r p node reason message) w in
  let present := (eval (cache_Get (UID p)) w).2 in
  let result := api_result r p (exec time_Now w) in
  let calls := count_effects is_evict_call (new_trace w w2) in
  (present = true -> (calls <= 1)%nat) /\
  (present = false -> result = None ->
   Z.of_N (elapse h (env w1)).1 < defaultExpiration h ->
   calls = 1%nat) /\
  (present = false -> result <> None -> calls = 2%nat).
Proof.
  intros w1 w2 present result calls.
  destruct (evictPodIfNotEvicted_world r p node reason message w)
    as (Htr1 & _ & Hset1 & Hclock1).
  destruct (evictPodIfNotEvicted_world r p node reason message w1)
    as (Htr2 & _ & _ & _).
  fold w1 present result in Htr1, Hset1, Hclock1.
  assert (w2 = exec (evictPodIfNotEvicted r p node reason message) w1)
    as Hw2 by reflexivity.
  rewrite <- Hw2 in Htr2.
  assert (calls =
          ((if present then 0 else 1)
           + (if (eval (cache_Get (UID p)) w1).2 then 0 else 1))%nat)
    as Hcalls.
  { unfold calls. rewrite Htr1, <- app_assoc in Htr2.
    rewrite (new_trace_app _ _ _ Htr2).
    rewrite count_effects_app, !evict_effects_calls. reflexivity. }
  rewrite Hcalls. repeat split.
  - intros ->. destruct (eval (cache_Get (UID p)) w1).2; cbn; lia.
  - intros Hp Hr Hsoon. rewrite Hp.
    rewrite cache_Get_present. unfold live.
    rewrite Hset1, Hp, Hr, lookup_insert_eq. cbn [expirationTime].
    replace (_ <? _) with true; [reflexivity|].
    symmetry. apply Z.ltb_lt. cbn. lia.
  - intros Hp Hr. rewrite Hp.
    replace (eval (cache_Get (UID p)) w1).2 with false; [reflexivity|].
    symmetry. rewrite cache_Get_present.
    rewrite Hset1, Hp. replace (match result with Some _ => _ | None => _ end)
      with (podsEvicted w) by (destruct result; congruence).
    unfold present in Hp. rewrite cache_Get_present in Hp.
    eapply live_later; [|exact Hp].
    change (eval time_Now w1) with (clock w1 + Z.of_N (elapse h (env w1)).1).
    rewrite Hclock1 by auto. cbn. lia.
Qed.

End Barrier.

Section Killer.
Context {h : host}.
Local Abbreviation M := (M h).
Local Abbreviation world := (world h).

(** One container either ends the walk or hands a world on to the rest of
    it; which of the two, and the world, do not depend on the rest. *)
Lemma killContainers_loop_cons (pod : Pod) (message : string)
    (container : Container) (w : world) :
  (exists w', forall rest,
     exec (killContainers_loop pod message (container :: rest)) w = w') \/
  (exists w', forall rest,
     exec (killContainers_loop pod message (container :: rest)) w
     = exec (killContainers_loop pod message rest) w').
Proof.
  cbn [killContainers_loop].
  destruct (FindContainerIdAndStatusByName h (Status pod) (c_Name container))
    as [[containerID containerStatus] err].
  destruct err; [left; eexists; reflexivity|].
  destruct containerStatus as [status|]; [|left; eexists; reflexivity].
  destruct (negb (cs_Running status)); [left; eexists; reflexivity|].
  destruct (negb (String.eqb containerID EmptyString)).
  - destruct (ParseContainerId h (cs_ContainerID status)) as [[rt ?] ?].
    destruct (GetRuntimeHandler h (env w) rt) as [[handler|] [e|]] eqn:Hgot;
      right; eexists; intros rest; rewrite exec_bind;
      change (eval (ask (fun e => GetRuntimeHandler h e rt)) w)
        with (GetRuntimeHandler h (env w) rt);
      rewrite Hgot; rewrite exec_bind; reflexivity.
  - right. eexists. intros rest. rewrite exec_bind. reflexivity.
Qed.

Lemma killContainers_loop_abort (pod : Pod) (message : string)
    pre container post (w : world) :
  (forall w' : world,
     exec (killContainers_loop pod message (container :: post)) w'
     = exec (killContainers_loop pod message [container]) w') ->
  exec (killContainers_loop pod message (pre ++ container :: post)) w
  = exec (killContainers_loop pod message (pre ++ [container])) w.
Proof.
  intros Hc. revert w. induction pre as [|a pre IH]; intros w.
  - apply Hc.
  - cbn [app].
    destruct (killContainers_loop_cons pod message a w) as [[w' H]|[w' H]].
    + rewrite !H. reflexivity.
    + rewrite !H. apply IH.
Qed.

Lemma killContainers_with_containers pod message containers :
  killContainers (h := h) (with_containers pod containers) message
  = killContainers_loop pod message containers.
Proof.
  unfold killContainers. cbn [Containers with_containers].
  generalize containers at 1. intros cs'.
  induction containers as [|c cs IH]; [reflexivity|].
  cbn [killContainers_loop]. rewrite IH. reflexivity.
Qed.

Lemma killContainers_loop_pass pod message pre rest (w : world) :
  (forall c, c ∈ pre -> stoppable h pod c) ->
  exists es w',
    exec (killContainers_loop pod message (pre ++ rest)) w
    = exec (killContainers_loop pod message rest) w' /\
    trace w' = trace w ++ es /\
    stopped_ids es = map (id_of h pod) pre.
Proof.
  revert w. induction pre as [|c cs IH]; intros w Hall.
  - exists [], w. cbn. rewrite app_nil_r. repeat split.
  - destruct (Hall c (list_elem_of_here _ _))
      as (containerID & status & Hfind & Hrun & Hid & Hhandler).
    assert (forall c', c' ∈ cs -> stoppable h pod c') as Hrest
      by (intros c' Hin; apply Hall, list_elem_of_further, Hin).
    cbn [app killContainers_loop map]. unfold id_of at 1.
    rewrite Hfind, Hrun. cbn [negb fst].
    destruct (String.eqb_spec containerID EmptyString) as [|_];
      [contradiction|]. cbn [negb].
    destruct (ParseContainerId h (cs_ContainerID status)) as [[rt ?] ?].
    cbn [fst] in Hhandler. rewrite exec_bind.
    change (eval (ask (fun e => GetRuntimeHandler h e rt)) w)
      with (GetRuntimeHandler h (env w) rt).
    change (exec (ask (fun e => GetRuntimeHandler h e rt)) w) with w.
    destruct (Hhandler (env w)) as [handler ->].
    rewrite !exec_bind.
    change (eval (call (fun e => StopContainer h e handler containerID 0)) w)
      with (StopContainer h (env w) handler containerID 0).1.
    destruct (StopContainer h (env w) handler containerID 0).1 as [err|];
      match goal with
      | |- context [exec (killContainers_loop pod message (cs ++ rest)) ?w0] =>
          destruct (IH w0 Hrest) as (es & w' & Hexec & Htr & Hids)
      end;
      rewrite Hexec; eexists _, w'; (split; [reflexivity|]);
      rewrite Htr; cbn [exec emit klog ret trace snd];
      rewrite <- ?app_assoc; (split; [reflexivity|]);
      unfold stopped_ids in *; rewrite ?omap_app; cbn; rewrite Hids;
      reflexivity.
Qed.

Lemma killContainers_loop_gives_up pod message container post (w : world) :
  aborting h pod container ->
  exists es,
    trace (exec (killContainers_loop pod message (container :: post)) w)
    = trace w ++ es /\
    stopped_ids es = [].
Proof.
  unfold aborting. cbn [killContainers_loop].
  destruct (FindContainerIdAndStatusByName h (Status pod) (c_Name container))
    as [[containerID containerStatus] err]. cbn [fst snd].
  intros Habort. destruct err as [e|].
  { eexists. split; [reflexivity|reflexivity]. }
  destruct Habort as [?|[->|(status & -> & ->)]]; [congruence| |];
    exists []; cbn; rewrite app_nil_r; split; reflexivity.
Qed.

Lemma killContainers_loop_passes_over pod message container post (w : world) :
  unhandled h pod container ->
  exec (killContainers_loop pod message (container :: post)) w
  = exec (killContainers_loop pod message post)
      (exec (klog Error
               "%s, kill container(%s) error! GetRuntimeHandler fail! error: %v")
         w).
Proof.
  intros (containerID & status & Hfind & Hrun & Hid & Hhandler).
  cbn [killContainers_loop]. rewrite Hfind, Hrun. cbn [negb].
  destruct (String.eqb_spec containerID EmptyString) as [|_];
    [contradiction|]. cbn [negb].
  destruct (ParseContainerId h (cs_ContainerID status)) as [[rt ?] ?].
  cbn [fst] in Hhandler. rewrite exec_bind.
  change (eval (ask (fun e => GetRuntimeHandler h e rt)) w)
    with (GetRuntimeHandler h (env w) rt).
  change (exec (ask (fun e => GetRuntimeHandler h e rt)) w) with w.
  specialize (Hhandler (env w)).
  destruct (GetRuntimeHandler h (env w) rt) as [[handler|] [e|]];
    cbn in Hhandler; try reflexivity.
  destruct Hhandler; congruence.
Qed.

(** C7. [killContainers] treats its failures unevenly.  For the first
    container of the pod's spec: a status that is not found ends the walk
    with one error line, a status that is nil or not running ends it
    silently, a runtime without handler is logged and the walk goes on with
    the containers that follow, and a stop is recorded and, whether it fails
    (logged) or not, the walk goes on.  Wherever in the spec a container
    ends the walk, the containers after it are not looked at: the pod is
    killed as if its spec ended there.  So when the containers before it
    can all be stopped, exactly these are stopped, in order; and when a
    container of a runtime without handler stands among containers that
    can be stopped, all the others are stopped, those after it included.  A
    pod none of whose container statuses is running gets no stop call at
    all. *)
Theorem killContainers_asymmetric (pod : Pod) (message : string) :
  (forall container rest (w : world) containerID containerStatus err,
     Containers pod = container :: rest ->
     FindContainerIdAndStatusByName h (Status pod) (c_Name container)
     = (containerID, containerStatus, err) ->
     (err <> None ->
      exec (killContainers pod message) w
      = exec (klog Error "failed to find container id and status, error: %v")
          w) /\
     (err = None ->
      containerStatus = None \/
      (exists status, containerStatus = Some status /\
                      cs_Running status = false) ->
      exec (killContainers pod message) w = w) /\
     (forall status,
        err = None -> containerStatus = Some status ->
        cs_Running status = true -> containerID <> EmptyString ->
        let runtimeType := (ParseContainerId h (cs_ContainerID status)).1.1 in
        let got := GetRuntimeHandler h (env w) runtimeType in
        (got.2 <> None \/ got.1 = None ->
         exec (killContainers pod message) w
         = exec (killContainers (with_containers pod rest) message)
             (exec (klog Error
                      "%s, kill container(%s) error! GetRuntimeHandler fail! error: %v")
                w)) /\
        (forall runtimeHandler,
           got = (Some runtimeHandler, None) ->
           let stopped := StopContainer h (env w) runtimeHandler containerID 0 in
           exec (killContainers pod message) w
           = exec (killContainers (with_containers pod rest) message)
               (exec (call (fun e =>
                              StopContainer h e runtimeHandler containerID 0) ;;
                      emit (StopContainerCall runtimeHandler containerID 0
                              stopped.1) ;;
                      match stopped.1 with
                      | Some _ =>
                          klog Error "%s, stop container error! error: %v"
                      | None => ret tt
                      end) w)))) /\
  (forall pre container post (w : world),
     Containers pod = pre ++ container :: post ->
     aborting h pod container ->
     exec (killContainers pod message) w
     = exec (killContainers (with_containers pod (pre ++ [container]))
               message) w) /\
  (forall pre container post (w : world),
     Containers pod = pre ++ container :: post ->
     (forall c, c ∈ pre -> stoppable h pod c) ->
     aborting h pod container ->
     stopped_ids (new_trace w (exec (killContainers pod message) w))
     = map (id_of h pod) pre) /\
  (forall pre container post (w : world),
     Containers pod = pre ++ container :: post ->
     (forall c, c ∈ pre ++ post -> stoppable h pod c) ->
     unhandled h pod container ->
     stopped_ids (new_trace w (exec (killContainers pod message) w))
     = map (id_of h pod) (pre ++ post)) /\
  (forall w : world,
     find_sound h (Status pod) -> no_running_container (Status pod) ->
     count_effects is_stop_call
       (new_trace w (exec (killContainers pod message) w)) = 0%nat).
Proof.
  split; [|split; [|split; [|split]]].
  - intros container rest w containerID containerStatus err Hspec Hfind.
    rewrite killContainers_with_containers.
    unfold killContainers. rewrite Hspec.
    cbn [killContainers_loop]. rewrite Hfind. split; [|split].
    + intros Herr. destruct err; [reflexivity|congruence].
    + intros -> [->|(status & -> & Hrun)]; [reflexivity|].
      rewrite Hrun. reflexivity.
    + intros status -> -> Hrun Hid. rewrite Hrun.
      cbn [negb]. destruct (String.eqb_spec containerID EmptyString) as [|_];
        [congruence|]. cbn [negb].
      destruct (ParseContainerId h (cs_ContainerID status)) as [[rt ?] ?].
      cbn [fst]. rewrite exec_bind.
      change (eval (ask (fun e => GetRuntimeHandler h e rt)) w)
        with (GetRuntimeHandler h (env w) rt).
      split.
      * intros Hgot.
        destruct (GetRuntimeHandler h (env w) rt) as [[handler|] [e|]];
          cbn in Hgot; try reflexivity.
        destruct Hgot; congruence.
      * intros runtimeHandler ->. reflexivity.
  - intros pre container post w Hspec Habort.
    rewrite killContainers_with_containers.
    unfold killContainers. rewrite Hspec.
    apply killContainers_loop_abort. intros w'.
    unfold aborting in Habort. cbn [killContainers_loop].
    destruct (FindContainerIdAndStatusByName h (Status pod)
                (c_Name container)) as [[containerID containerStatus] err].
    cbn [fst snd] in Habort.
    destruct err; [reflexivity|].
    destruct Habort as [?|[->|(status & -> & ->)]];
      [congruence|reflexivity|reflexivity].
  - intros pre container post w Hspec Hpre Habort.
    unfold killContainers. rewrite Hspec.
    destruct (killContainers_loop_pass pod message pre (container :: post) w
                Hpre) as (es & w' & -> & Htr & Hids).
    destruct (killContainers_loop_gives_up pod message container post w'
                Habort) as (es' & Htr' & Hnone).
    rewrite Htr, <- app_assoc in Htr'.
    rewrite (new_trace_app _ _ _ Htr').
    unfold stopped_ids in *. rewrite omap_app, Hids, Hnone.
    apply app_nil_r.
  - intros pre container post w Hspec Hall Hskip.
    unfold killContainers. rewrite Hspec.
    destruct (killContainers_loop_pass pod message pre (container :: post) w)
      as (es & w' & -> & Htr & Hids).
    { intros c Hc. apply Hall, elem_of_app. left. exact Hc. }
    rewrite killContainers_loop_passes_over by exact Hskip.
    destruct (killContainers_loop_pass pod message post []
                (exec (klog Error
                         "%s, kill container(%s) error! GetRuntimeHandler fail! error: %v")
                   w'))
      as (es' & w'' & Hexec & Htr' & Hids').
    { intros c Hc. apply Hall, elem_of_app. right. exact Hc. }
    rewrite app_nil_r in Hexec. rewrite Hexec.
    cbn [killContainers_loop ret exec snd].
    erewrite new_trace_app;
      [|rewrite Htr'; cbn [exec klog emit trace snd]; rewrite Htr;
        rewrite <- !app_assoc; reflexivity].
    unfold stopped_ids in *. rewrite !omap_app, Hids, Hids', map_app.
    reflexivity.
  - intros w Hsound Hnone. unfold killContainers.
    assert (exec (killContainers_loop pod message (Containers pod)) w = w \/
            exec (killContainers_loop pod message (Containers pod)) w
            = exec (klog Error
                      "failed to find container id and status, error: %v") w)
      as [->| ->].
    { destruct (Containers pod) as [|container rest]; [left; reflexivity|].
      cbn [killContainers_loop].
      destruct (FindContainerIdAndStatusByName h (Status pod)
                  (c_Name container)) as [[containerID containerStatus] err]
        eqn:Hfind.
      destruct err; [right; reflexivity|].
      destruct containerStatus as [status|]; [|left; reflexivity].
      apply Hsound, Hnone in Hfind. rewrite Hfind. left. reflexivity. }
    + unfold new_trace. rewrite drop_all. reflexivity.
    + erewrite new_trace_app by reflexivity. reflexivity.
Qed.

End Killer.

Section Tick.
Context {h : host}.
Local Abbreviation M := (M h).
Local Abbreviation world := (world h).

(** A tick either stops at a guard, having written one log line, or all its
    guards let it through and it goes on to kill and evict. *)
Lemma memoryEvict_body_cases r (w : world) :
  let w1 := exec time_Now w in
  (exists lvl format,
     exec (memoryEvict_body r) w = exec (klog lvl format) w1 /\
     (in_cooling_time r (clock w1) (lastEvictTime w1) = true \/
      skip_reason (env w1))) \/
  (exists strategy threshold node used,
     ready r w1 strategy threshold node used /\
     threshold <= nodeMemoryUsage_of h used (CapacityMemory node) /\
     exec (memoryEvict_body r) w
     = exec (klog Info
               "node(%v) MemoryUsage(%v): %.2f, evictThresholdUsage: %.2f, evictLowerUsage: %.2f" ;;
             killAndEvictBEPods r node (collectAllPodMetricsLast h (env w1))
               (memoryNeedRelease_of (CapacityMemory node)
                  (nodeMemoryUsage_of h used (CapacityMemory node))
                  (lowerPercent_of strategy threshold)))
         w1).
Proof.
  intros w1. unfold memoryEvict_body.
  rewrite exec_bind. fold w1.
  change (eval time_Now w) with (clock w1).
  rewrite exec_bind.
  change (exec (gets lastEvictTime) w1) with w1.
  change (eval (gets lastEvictTime) w1) with (lastEvictTime w1).
  destruct (in_cooling_time r (clock w1) (lastEvictTime w1)) eqn:Hcool;
    [left; eauto|].
  assert (forall lvl format (m : M unit),
            m = klog lvl format -> skip_reason (env w1) ->
            (exists lvl format,
               exec m w1 = exec (klog lvl format) w1 /\
               (false = true \/ skip_reason (env w1))) \/
            (exists strategy threshold node used,
               ready r w1 strategy threshold node used /\
               threshold <= nodeMemoryUsage_of h used (CapacityMemory node) /\
               exec m w1
               = exec (klog Info
                         "node(%v) MemoryUsage(%v): %.2f, evictThresholdUsage: %.2f, evictLowerUsage: %.2f" ;;
                       killAndEvictBEPods r node
                         (collectAllPodMetricsLast h (env w1))
                         (memoryNeedRelease_of (CapacityMemory node)
                            (nodeMemoryUsage_of h used (CapacityMemory node))
                            (lowerPercent_of strategy threshold)))
                   w1)) as Hskip.
  { intros lvl format m -> Hs. left. eauto. }
  rewrite exec_bind.
  change (exec (ask (GetNodeSLO h)) w1) with w1.
  change (eval (ask (GetNodeSLO h)) w1) with (GetNodeSLO h (env w1)).
  destruct (GetNodeSLO h (env w1)) as [slo|] eqn:Hslo;
    cbn [isFeatureDisabled];
    [|eapply Hskip; [reflexivity|eauto using skip_reason]].
  destruct (spec_is_empty (Spec slo)) eqn:Hempty;
    [eapply Hskip; [reflexivity|eauto using skip_reason]|].
  destruct (ResourceUsedThresholdWithBE (Spec slo)) as [strategy|] eqn:Hstrat;
    [|eapply Hskip; [reflexivity|eauto using skip_reason]].
  destruct (Enable strategy) as [[|]|] eqn:Hen; cbn [negb];
    [|eapply Hskip; [reflexivity|eauto using skip_reason]
     |eapply Hskip; [reflexivity|eauto using skip_reason]].
  cbn [mbind option_bind]. rewrite Hstrat.
  destruct (MemoryEvictThresholdPercent strategy) as [threshold|] eqn:Hth;
    [|eapply Hskip; [reflexivity|eauto using skip_reason]].
  destruct (Z.ltb_spec threshold 0) as [Hneg|Hneg];
    [eapply Hskip; [reflexivity|eauto using skip_reason]|].
  destruct (Z.leb_spec threshold (lowerPercent_of strategy threshold))
    as [Hlow|Hlow];
    [eapply Hskip; [reflexivity|eauto using skip_reason]|].
  rewrite exec_bind.
  change (exec (ask (collectAllPodMetricsLast h)) w1) with w1.
  change (eval (ask (collectAllPodMetricsLast h)) w1)
    with (collectAllPodMetricsLast h (env w1)).
  rewrite exec_bind.
  change (exec (ask (GetNode h)) w1) with w1.
  change (eval (ask (GetNode h)) w1) with (GetNode h (env w1)).
  destruct (GetNode h (env w1)) as [node|] eqn:Hnode;
    [|eapply Hskip; [reflexivity|eauto using skip_reason]].
  destruct (Z.leb_spec (CapacityMemory node) 0) as [Hcap|Hcap];
    [eapply Hskip; [reflexivity|eauto using skip_reason]|].
  rewrite exec_bind.
  change (exec (ask (BuildQueryMeta h)) w1) with w1.
  change (eval (ask (BuildQueryMeta h)) w1) with (BuildQueryMeta h (env w1)).
  destruct (BuildQueryMeta h (env w1)) as [e|] eqn:Hmeta;
    [eapply Hskip; [reflexivity|eauto using skip_reason]|].
  rewrite exec_bind.
  change (exec (ask (collectorNodeMetricLast h)) w1) with w1.
  change (eval (ask (collectorNodeMetricLast h)) w1)
    with (collectorNodeMetricLast h (env w1)).
  destruct (collectorNodeMetricLast h (env w1)) as [used [e|]] eqn:Hused;
    [eapply Hskip; [reflexivity|eauto using skip_reason]|].
  destruct (Z.ltb_spec (nodeMemoryUsage_of h used (CapacityMemory node))
              threshold) as [Hbelow|Hbelow];
    [eapply Hskip; [reflexivity|eauto using skip_reason]|].
  right. exists strategy, threshold, node, used.
  split; [|split; [exact Hbelow|reflexivity]].
  constructor; eauto.
Qed.

Lemma skip_reason_not_ready r (w : world) strategy threshold node used :
  skip_reason (env w) -> ready r w strategy threshold node used ->
  threshold <= nodeMemoryUsage_of h used (CapacityMemory node) -> False.
Proof.
  intros Hskip [Hcool (slo & Hslo & Hstrat) Hen Hth Hpos Hlow Hnode Hcap
                  Hmeta Hused] Hge.
  destruct Hskip;
    repeat match goal with
      | H1 : ?x = _, H2 : ?x = _ |- _ =>
          rewrite H1 in H2; try discriminate;
          (injection H2 as ?; subst)
      end;
    try discriminate; try lia.
  unfold spec_is_empty in *. rewrite Hstrat in *. discriminate.
Qed.

(** The three log lines of a tick that stops at a guard. *)
Lemma memoryEvict_of_log r (w : world) lvl format :
  exec (memoryEvict_body r) (exec (klog (V 5) "starting memory evict process") w)
  = exec (klog lvl format)
      (exec time_Now (exec (klog (V 5) "starting memory evict process") w)) ->
  let now := eval time_Now w in
  quiet w (exec (memoryEvict r) w) /\
  env (exec (memoryEvict r) w) = env (exec time_Now w) /\
  new_trace w (exec (memoryEvict r) w)
  = [(clock w, Log (V 5) "starting memory evict process");
     (now, Log lvl format);
     (now, Log (V 5) "memory evict process completed")].
Proof.
  intros Hbody now. unfold memoryEvict. rewrite !exec_bind, Hbody.
  assert (trace (exec (klog (V 5) "memory evict process completed")
            (exec (klog lvl format)
               (exec time_Now
                  (exec (klog (V 5) "starting memory evict process") w))))
          = trace w
            ++ [(clock w, Log (V 5) "starting memory evict process");
                (now, Log lvl format);
                (now, Log (V 5) "memory evict process completed")]) as Htr.
  { cbn. rewrite <- !app_assoc. reflexivity. }
  repeat split.
  - eexists. split; [exact Htr|]. repeat constructor.
  - apply new_trace_app, Htr.
Qed.

Lemma memoryEvict_skips r (w : world) :
  skip_reason (env (exec time_Now w)) ->
  exists lvl format,
    quiet w (exec (memoryEvict r) w) /\
    env (exec (memoryEvict r) w) = env (exec time_Now w) /\
    new_trace w (exec (memoryEvict r) w)
    = [(clock w, Log (V 5) "starting memory evict process");
       (eval time_Now w, Log lvl format);
       (eval time_Now w, Log (V 5) "memory evict process completed")].
Proof.
  intros Hskip.
  destruct (memoryEvict_body_cases r
              (exec (klog (V 5) "starting memory evict process") w))
    as [(lvl & format & Hbody & _)|(strategy & threshold & node & used
                                      & Hready & Hge & _)].
  - exists lvl, format. apply memoryEvict_of_log, Hbody.
  - exfalso. eapply skip_reason_not_ready; [|exact Hready|exact Hge].
    exact Hskip.
Qed.


(** C5. A memory-evict tick that meets one of the listed conditions (no
    NodeSLO or an empty spec, no strategy or no [Enable], [Enable] false, no
    threshold or a negative one, a lower percent not below the threshold, no
    node, no capacity, a failed metric query, usage below the threshold)
    returns having written log lines only: no container is stopped, no
    eviction is asked for, the evicted set and [lastEvictTime] are as they
    were, and no collaborator was called but the clock. *)
Theorem memoryEvict_guards r (w : world) :
  skip_reason (env (exec time_Now w)) ->
  let w' := exec (memoryEvict r) w in
  quiet w w' /\
  env w' = env (exec time_Now w) /\
  count_effects is_stop_call (new_trace w w') = 0%nat /\
  count_effects is_evict_call (new_trace w w') = 0%nat.
Proof.
  intros Hskip w'.
  destruct (memoryEvict_skips r w Hskip) as (lvl & format & Hq & He & Htr).
  fold w' in Hq, He, Htr. rewrite Htr. repeat split; try apply Hq; exact He.
Qed.

Lemma wrap_in_range z : Int64.in_range z -> Int64.wrap z = z.
Proof.
  unfold Int64.in_range, Int64.wrap, Int64.min_int, Int64.max_int.
  intros Hz. rewrite Z.mod_small; lia.
Qed.

Lemma killAndEvictBEPods_stamp r node podMetrics need (w : world) :
  let w' := exec (killAndEvictBEPods r node podMetrics need) w in
  lastEvictTime w' = clock w'.
Proof. unfold killAndEvictBEPods. rewrite !exec_bind. reflexivity. Qed.

(** C6, amended.  While the cool time runs, and for a cool time that a
    [time.Duration] can hold (its nanoseconds fit an [int64]), a tick of the
    memory evictor returns at once: its three log lines are all it writes,
    so nothing is killed, no eviction is asked for and no event is sent.
    And along every run of the node [lastEvictTime] never goes back; a tick
    leaves it alone or sets it to the time it read last. *)
Theorem memoryEvict_cooldown r :
  (forall w : world,
     let cool := MemoryEvictCoolTimeSeconds (config r) in
     let now := eval time_Now w in
     let w' := exec (memoryEvict r) w in
     Int64.in_range (cool * time_Second) ->
     now < lastEvictTime w + cool * time_Second ->
     new_trace w w'
     = [(clock w, Log (V 5) "starting memory evict process");
        (now, Log (V 5)
                "skip memory evict process, still in evict cooling time");
        (now, Log (V 5) "memory evict process completed")] /\
     quiet w w' /\ env w' = env (exec time_Now w)) /\
  (forall w w' : world,
     reachable r w -> step r w w' -> lastEvictTime w <= lastEvictTime w') /\
  (forall w : world,
     let w' := exec (memoryEvict r) w in
     lastEvictTime w' = lastEvictTime w \/ lastEvictTime w' = clock w').
Proof.
  split; [|split].
  - intros w cool now w' Hrange Hcool.
    assert (exec (memoryEvict_body r)
              (exec (klog (V 5) "starting memory evict process") w)
            = exec (klog (V 5)
                      "skip memory evict process, still in evict cooling time")
                (exec time_Now
                   (exec (klog (V 5) "starting memory evict process") w)))
      as Hbody.
    { unfold memoryEvict_body. rewrite !exec_bind.
      match goal with
      | |- context [in_cooling_time r ?a ?b] =>
          replace (in_cooling_time r a b) with true; [reflexivity|]
      end.
      symmetry. unfold in_cooling_time. fold cool.
      unfold Int64.mul. rewrite wrap_in_range by exact Hrange.
      apply Z.ltb_lt. exact Hcool. }
    destruct (memoryEvict_of_log r w _ _ Hbody) as (Hq & He & Htr).
    auto.
  - intros w w' Hreach Hstep.
    destruct (reachable_invariants r w Hreach) as [_ Hstamp].
    refine (proj2 (step_keeps r (@keeps_stamp h) w w' (gentle_stamp_inv r)
                     sweep_keeps_stamp _ Hstep Hstamp)).
    intros d e w0. unfold keeps_stamp, stamp_inv. cbn. lia.
  - intros w w'. subst w'.
    destruct (memoryEvict_body_cases r
                (exec (klog (V 5) "starting memory evict process") w))
      as [(lvl & format & Hbody & _)|(strategy & threshold & node & used & _
                                        & _ & Hbody)].
    + left. apply (memoryEvict_of_log r w lvl format Hbody).
    + right. unfold memoryEvict. rewrite !exec_bind. rewrite Hbody.
      rewrite exec_bind.
      match goal with
      | |- context [exec (killAndEvictBEPods r ?n ?p ?x) ?w0] =>
          pose proof (killAndEvictBEPods_stamp r n p x w0) as Hs
      end.
      cbn zeta in Hs. exact Hs.
Qed.


(** C9. With [MemoryEvictLowerPercent] unset the lower bound of the tick is
    the threshold minus 2, exactly (for every threshold an [int64] holds
    from which 2 can be taken); a threshold of 70 gives 68; and a tick whose
    lower bound is not below its threshold stops there, having done
    nothing. *)
Theorem lowerPercent_default :
  (forall strategy threshold,
     MemoryEvictLowerPercent strategy = None ->
     Int64.min_int + 2 <= threshold <= Int64.max_int ->
     lowerPercent_of strategy threshold = threshold - 2) /\
  lowerPercent_of {| Enable := Some true;
                     MemoryEvictThresholdPercent := Some 70;
                     MemoryEvictLowerPercent := None |} 70 = 68 /\
  (forall r (w : world) slo strategy threshold,
     GetNodeSLO h (env (exec time_Now w)) = Some slo ->
     ResourceUsedThresholdWithBE (Spec slo) = Some strategy ->
     MemoryEvictThresholdPercent strategy = Some threshold ->
     threshold <= lowerPercent_of strategy threshold ->
     quiet w (exec (memoryEvict r) w)) /\
  (forall r (w : world) strategy threshold node used,
     ready r (exec time_Now w) strategy threshold node used ->
     lowerPercent_of strategy threshold < threshold).
Proof.
  split; [|split; [|split]].
  - intros strategy threshold Hnone Hrange.
    unfold lowerPercent_of, Int64.sub, memoryReleaseBufferPercent.
    rewrite Hnone. apply wrap_in_range.
    unfold Int64.in_range, Int64.min_int, Int64.max_int in *. lia.
  - reflexivity.
  - intros r w slo strategy threshold Hslo Hstrat Hth Hlow.
    destruct (memoryEvict_skips r w) as (lvl & format & Hq & _);
      [|exact Hq].
    eapply skip_lower_not_below; eassumption.
  - intros r w strategy threshold node used Hready.
    exact (ready_lower r _ _ _ _ _ Hready).
Qed.

(** ** The drain loop *)

Lemma drain_refines message need victims released killed (w : world) :
  let n := stop_index h need released victims in
  exec (drain message need victims released killed) w
  = exec (kill_each message (take n victims)) w /\
  eval (drain message need victims released killed) w
  = (fold_left (credit h) (take n victims) released,
     killed ++ map pod (take n victims)).
Proof.
  revert released killed w.
  induction victims as [|v victims IH]; intros released killed w;
    cbn [drain stop_index].
  - cbn. rewrite app_nil_r. split; reflexivity.
  - destruct (need <=? released).
    + cbn. rewrite app_nil_r. split; reflexivity.
    + cbn [take kill_each map fold_left].
      rewrite !exec_bind, !eval_bind.
      specialize (IH (credit h released v) (killed ++ [pod v])
                    (exec (killContainers (pod v)
                             (message +:+ ", kill pod: " +:+ Name (pod v)))
                       w)).
      cbn zeta in IH. destruct IH as [IH1 IH2].
      split.
      * exact IH1.
      * rewrite <- app_assoc in IH2. exact IH2.
Qed.

Lemma stop_index_spec need victims released :
  let n := stop_index h need released victims in
  (n <= length victims)%nat /\
  (forall k, (k < n)%nat ->
             fold_left (credit h) (take k victims) released < need) /\
  ((n < length victims)%nat ->
   need <= fold_left (credit h) (take n victims) released).
Proof.
  revert released.
  induction victims as [|v victims IH]; intros released; cbn [stop_index].
  - cbn. repeat split; lia.
  - destruct (need <=? released) eqn:Hstop.
    + apply Z.leb_le in Hstop. cbn. repeat split; try lia.
    + apply Z.leb_gt in Hstop.
      destruct (IH (credit h released v)) as (Hlen & Hbefore & Hat).
      cbn [length]. repeat split.
      * lia.
      * intros [|k] Hk; cbn; [lia|]. apply Hbefore. lia.
      * intros Hn. cbn. apply Hat. lia.
Qed.


Lemma quot_floor a b :
  0 <= a <= Int64.max_int -> 0 < b -> Int64.quot a b = a / b.
Proof.
  intros Ha Hb. unfold Int64.quot.
  rewrite Z.quot_div_nonneg by lia.
  apply wrap_in_range.
  assert (0 <= a / b) by (apply Z.div_pos; lia).
  assert (a / b <= a) by (apply Z.div_le_upper_bound; nia).
  unfold Int64.in_range, Int64.min_int, Int64.max_int in *. lia.
Qed.

Lemma ready_unique r (w w' : world) s t n u s' t' n' u' :
  env w' = env w ->
  ready r w s t n u -> ready r w' s' t' n' u' ->
  s' = s /\ t' = t /\ n' = n /\ u' = u.
Proof.
  intros He [_ (slo & Hslo & Hs) _ Ht _ _ Hn _ _ Hu]
            [_ (slo' & Hslo' & Hs') _ Ht' _ _ Hn' _ _ Hu'].
  rewrite He in *.
  rewrite Hslo in Hslo'. injection Hslo' as <-.
  rewrite Hs in Hs'. injection Hs' as <-.
  rewrite Ht in Ht'. injection Ht' as <-.
  rewrite Hn in Hn'. injection Hn' as <-.
  rewrite Hu in Hu'. injection Hu' as <-.
  auto.
Qed.

Lemma killAndEvictBEPods_refines r node podMetrics need (w : world) :
  let victims :=
    sort_Slice h less (bePodInfos_of podMetrics (GetAllPods h (env w))) in
  let message :=
    "killAndEvictBEPods for node(" +:+ nodeName r
      +:+ "), need to release memory: " +:+ pretty need in
  let killed := take (stop_index h need 0 victims) victims in
  exec (killAndEvictBEPods r node podMetrics need) w
  = exec (kill_each message killed ;;
          evictPodsIfNotEvicted r (map pod killed) node
            EvictPodByNodeMemoryUsage message ;;
          now ← time_Now;
          set_lastEvictTime now ;;
          klog Info
            "killAndEvictBEPods completed, memoryNeedRelease(%v) memoryReleased(%v)")
      w.
Proof.
  intros victims message killed. unfold killAndEvictBEPods.
  rewrite exec_bind.
  change (eval (getSortedBEPodInfos podMetrics) w) with victims.
  change (exec (getSortedBEPodInfos podMetrics) w) with w.
  fold message. rewrite exec_bind.
  destruct (drain_refines message need victims 0 [] w) as [Hexec Heval].
  cbn zeta in Hexec, Heval. rewrite Hexec, Heval.
  reflexivity.
Qed.

Lemma memoryEvict_unfold r (w : world) :
  exec (memoryEvict r) w
  = exec (klog (V 5) "memory evict process completed")
      (exec (memoryEvict_body r)
         (exec (klog (V 5) "starting memory evict process") w)).
Proof. reflexivity. Qed.


End Tick.

(** ** The comparator as an order *)

Section Comparator.

Lemma SFltb_key (x y : float64) :
  x <> S754_nan -> y <> S754_nan ->
  (SFltb x y = true <-> key_lt (float_key x) (float_key y)).
Proof.
  intros Hx Hy. unfold SFltb, key_lt.
  destruct x as [sx|sx| |sx mx ex], y as [sy|sy| |sy my ey];
    try congruence; cbn;
    repeat match goal with
      | s : bool |- _ => destruct s
      end; cbn; try (split; [discriminate|lia]); try (split; [reflexivity|lia]);
    try (split; [intros _; lia|reflexivity]).
  all: change (Pos.compare_cont Eq mx my) with (Pos.compare mx my).
  all: destruct (Z.compare_spec ex ey); destruct (Pos.compare_spec mx my);
    cbn; split; try discriminate; try reflexivity; try lia.
Qed.

Lemma nan_or_number (x : float64) : x = S754_nan \/ x <> S754_nan.
Proof. destruct x; [right|right|left|right]; congruence. Qed.

Lemma SFltb_nan_l (y : float64) : SFltb S754_nan y = false.
Proof. destruct y; reflexivity. Qed.

Lemma SFltb_nan_r (x : float64) : SFltb x S754_nan = false.
Proof. destruct x; reflexivity. Qed.

Lemma SFltb_irrefl (x : float64) : SFltb x x = false.
Proof.
  destruct (nan_or_number x) as [->|Hx]; [reflexivity|].
  apply not_true_is_false. rewrite SFltb_key by assumption.
  unfold key_lt. lia.
Qed.

Lemma SFltb_trans (x y z : float64) :
  SFltb x y = true -> SFltb y z = true -> SFltb x z = true.
Proof.
  destruct (nan_or_number x) as [->|Hx];
    [rewrite SFltb_nan_l; discriminate|].
  destruct (nan_or_number y) as [->|Hy];
    [rewrite SFltb_nan_r; discriminate|].
  destruct (nan_or_number z) as [->|Hz];
    [rewrite SFltb_nan_r; discriminate|].
  rewrite !SFltb_key by assumption. unfold key_lt. lia.
Qed.

Lemma SFltb_negtrans (x y z : float64) :
  x <> S754_nan -> y <> S754_nan -> z <> S754_nan ->
  SFltb x y = false -> SFltb y z = false -> SFltb x z = false.
Proof.
  intros Hx Hy Hz Hxy Hyz. apply not_true_iff_false.
  apply not_true_iff_false in Hxy, Hyz.
  rewrite SFltb_key in * by assumption. unfold key_lt in *. lia.
Qed.


Lemma string_compare_lt_trans (s1 s2 s3 : string) :
  String.compare s1 s2 = Lt -> String.compare s2 s3 = Lt ->
  String.compare s1 s3 = Lt.
Proof.
  revert s2 s3. induction s1 as [|c1 s1 IH]; intros [|c2 s2] [|c3 s3];
    cbn; try discriminate; try reflexivity.
  unfold Ascii.compare.
  destruct (N.compare_spec (Ascii.N_of_ascii c1) (Ascii.N_of_ascii c2))
    as [H12|H12|H12]; try discriminate;
    destruct (N.compare_spec (Ascii.N_of_ascii c2) (Ascii.N_of_ascii c3))
      as [H23|H23|H23]; try discriminate; intros Ha Hb.
  - rewrite H12, H23, N.compare_refl. eapply IH; eassumption.
  - rewrite H12. apply N.compare_lt_iff in H23. rewrite H23. reflexivity.
  - rewrite <- H23. apply N.compare_lt_iff in H12. rewrite H12. reflexivity.
  - assert (Ascii.N_of_ascii c1 < Ascii.N_of_ascii c3)%N as H13 by lia.
    apply N.compare_lt_iff in H13. rewrite H13. reflexivity.
Qed.

Lemma string_ltb_irrefl (s : string) : String.ltb s s = false.
Proof.
  unfold String.ltb.
  replace (String.compare s s) with Eq; [reflexivity|].
  symmetry. induction s as [|c s IH]; cbn; [reflexivity|].
  unfold Ascii.compare. rewrite N.compare_refl. exact IH.
Qed.

Lemma string_ltb_trans (s1 s2 s3 : string) :
  String.ltb s1 s2 = true -> String.ltb s2 s3 = true ->
  String.ltb s1 s3 = true.
Proof.
  unfold String.ltb. intros H12 H23.
  rewrite (string_compare_lt_trans s1 s2 s3); [reflexivity| |].
  - destruct (String.compare s1 s2); congruence.
  - destruct (String.compare s2 s3); congruence.
Qed.

Lemma string_ltb_negtrans (s1 s2 s3 : string) :
  String.ltb s1 s2 = false -> String.ltb s2 s3 = false ->
  String.ltb s1 s3 = false.
Proof.
  unfold String.ltb. intros H12 H23.
  destruct (String.compare s1 s3) eqn:H13; try reflexivity. exfalso.
  (* s1 < s3, s3 <= s2, s2 <= s1 *)
  destruct (String.compare s2 s3) eqn:E23; try discriminate.
  - apply String.compare_eq_iff in E23. subst s3.
    rewrite H13 in H12. discriminate.
  - rewrite String.compare_antisym in E23.
    destruct (String.compare s3 s2) eqn:E32; try discriminate.
    pose proof (string_compare_lt_trans s1 s3 s2 H13 E32) as H.
    rewrite H in H12. discriminate.
Qed.

Lemma by_sample_irrefl a : by_sample a a = false.
Proof.
  unfold by_sample, Float64.neb, Float64.gtb.
  destruct (SFeqb (memUsed a) Float64.zero); cbn.
  - apply string_ltb_irrefl.
  - apply SFltb_irrefl.
Qed.

Lemma by_sample_trans a b c :
  by_sample a b = true -> by_sample b c = true -> by_sample a c = true.
Proof.
  unfold by_sample, Float64.neb, Float64.gtb.
  destruct (SFeqb (memUsed a) Float64.zero),
           (SFeqb (memUsed b) Float64.zero),
           (SFeqb (memUsed c) Float64.zero); cbn;
    intros H1 H2; try discriminate; try reflexivity;
    first [ eapply string_ltb_trans; eassumption
          | eapply SFltb_trans; eassumption ].
Qed.

Lemma by_sample_negtrans a b c :
  memUsed a <> S754_nan -> memUsed b <> S754_nan -> memUsed c <> S754_nan ->
  by_sample a b = false -> by_sample b c = false -> by_sample a c = false.
Proof.
  intros Ha Hb Hc. unfold by_sample, Float64.neb, Float64.gtb.
  destruct (SFeqb (memUsed a) Float64.zero),
           (SFeqb (memUsed b) Float64.zero),
           (SFeqb (memUsed c) Float64.zero); cbn;
    intros H1 H2; try discriminate; try reflexivity;
    first
      [ apply (string_ltb_negtrans (Name (pod c)) (Name (pod b))
                 (Name (pod a))); assumption
      | apply (SFltb_negtrans (memUsed c) (memUsed b) (memUsed a));
        assumption ].
Qed.

Lemma less_unset a b :
  Priority (pod a) = None \/ Priority (pod b) = None ->
  less a b = by_sample a b.
Proof.
  intros H. unfold less, by_sample.
  destruct (Priority (pod a)), (Priority (pod b)); try reflexivity.
  destruct H; discriminate.
Qed.

Lemma less_set a b pa pb :
  Priority (pod a) = Some pa -> Priority (pod b) = Some pb ->
  less a b = if pa =? pb then by_sample a b else pa <? pb.
Proof.
  intros Ha Hb. unfold less, by_sample. rewrite Ha, Hb.
  destruct (pa =? pb); reflexivity.
Qed.

Lemma less_strict_weak (l : list podInfo) :
  consistent_infos l -> strict_weak_on less l.
Proof.
  intros [[Hset|Hunset] Hnum].
  - assert (forall a, a ∈ l -> exists pa, Priority (pod a) = Some pa) as Hp.
    { intros a Ha. specialize (Hset a Ha).
      destruct (Priority (pod a)); [eauto|congruence]. }
    split; [|split].
    + intros a Ha. destruct (Hp a Ha) as [pa Epa].
      rewrite (less_set a a pa pa Epa Epa), Z.eqb_refl.
      apply by_sample_irrefl.
    + intros a b c Ha Hb Hc.
      destruct (Hp a Ha) as [pa Epa], (Hp b Hb) as [pb Epb],
        (Hp c Hc) as [pc Epc].
      rewrite (less_set a b pa pb Epa Epb), (less_set b c pb pc Epb Epc),
        (less_set a c pa pc Epa Epc).
      destruct (Z.eqb_spec pa pb), (Z.eqb_spec pb pc), (Z.eqb_spec pa pc);
        try lia; try apply by_sample_trans;
        rewrite ?Z.ltb_lt; try lia; try congruence.
      all: intros; subst; try lia; try congruence.
    + intros a b c Ha Hb Hc.
      destruct (Hp a Ha) as [pa Epa], (Hp b Hb) as [pb Epb],
        (Hp c Hc) as [pc Epc].
      rewrite (less_set a b pa pb Epa Epb), (less_set b c pb pc Epb Epc),
        (less_set a c pa pc Epa Epc).
      destruct (Z.eqb_spec pa pb), (Z.eqb_spec pb pc), (Z.eqb_spec pa pc);
        try lia; try (apply by_sample_negtrans; auto);
        rewrite ?Z.ltb_ge; try lia; try congruence.
      all: intros; subst; try lia; try congruence.
  - split; [|split].
    + intros a Ha. rewrite less_unset by auto. apply by_sample_irrefl.
    + intros a b c Ha Hb Hc. rewrite !less_unset by auto.
      apply by_sample_trans.
    + intros a b c Ha Hb Hc. rewrite !less_unset by auto.
      apply by_sample_negtrans; auto.
Qed.

End Comparator.

Section Ordering.
Context {h : host}.
Local Abbreviation M := (M h).
Local Abbreviation world := (world h).

Lemma bePodInfos_of_spec podMetricMap (pods : list Pod) info :
  info ∈ bePodInfos_of podMetricMap pods <->
  pod info ∈ pods /\
  QoSClassRaw (pod info) = QoSBE /\
  memUsed info = default Float64.zero (podMetricMap !! UID (pod info)).
Proof.
  induction pods as [|p pods IH].
  - cbn. split; [intros Hin; inversion Hin|].
    intros [Hin _]. inversion Hin.
  - cbn [bePodInfos_of]. rewrite (elem_of_cons pods).
    destruct (QoSClassRaw p) eqn:Hq.
    all: try (rewrite IH; split;
              [ intros (Hin & Hbe & Hm); auto
              | intros ([->|Hin] & Hbe & Hm); [congruence|auto] ]).
    rewrite elem_of_cons, IH. split.
    + intros [->|(Hin & Hbe & Hm)]; cbn; auto.
    + intros ([Hp|Hin] & Hbe & Hm); [left|right; auto].
      destruct info as [ip im]. cbn in *. subst. reflexivity.
Qed.

(** C4, amended.  The comparator [getSortedBEPodInfos] sorts by puts a pod
    [a] before a pod [b]: when both have a priority and the two differ,
    exactly when [a]'s is lower; otherwise, when both samples are not zero,
    exactly when [a] uses more memory; otherwise, when both are zero,
    exactly when [a]'s name is greater; and when one sample only is zero,
    exactly when it is [b]'s.  The list sorted is that of the BE pods, each
    with its sample.  When the priorities of these pods are all set or all
    unset and no sample is NaN, the comparator is a strict weak ordering,
    and a [sort.Slice] that keeps its contract returns the same pods with
    none placed after one the comparator puts it before. *)
Theorem getSortedBEPodInfos_order :
  (forall a b : podInfo,
     (forall pa pb,
        Priority (pod a) = Some pa -> Priority (pod b) = Some pb ->
        pa <> pb -> less a b = (pa <? pb)) /\
     ((Priority (pod a) = None \/ Priority (pod b) = None \/
       Priority (pod a) = Priority (pod b)) ->
      (Float64.neb (memUsed a) Float64.zero = true ->
       Float64.neb (memUsed b) Float64.zero = true ->
       less a b = Float64.gtb (memUsed a) (memUsed b)) /\
      (SFeqb (memUsed a) Float64.zero = true ->
       SFeqb (memUsed b) Float64.zero = true ->
       less a b = String.ltb (Name (pod b)) (Name (pod a))) /\
      (Float64.neb (memUsed a) Float64.zero = true ->
       SFeqb (memUsed b) Float64.zero = true ->
       less a b = true /\ less b a = false))) /\
  (forall podMetricMap (w : world),
     let infos := bePodInfos_of podMetricMap (GetAllPods h (env w)) in
     let sorted := eval (getSortedBEPodInfos podMetricMap) w in
     sorted = sort_Slice h less infos /\
     (forall info,
        info ∈ infos <->
        pod info ∈ GetAllPods h (env w) /\
        QoSClassRaw (pod info) = QoSBE /\
        memUsed info
        = default Float64.zero (podMetricMap !! UID (pod info))) /\
     (sort_contract h -> consistent_infos infos ->
      sorted ≡ₚ infos /\ ordered_by less sorted)).
Proof.
  split.
  - intros a b. split.
    + intros pa pb Ha Hb Hne. rewrite (less_set a b pa pb Ha Hb).
      destruct (Z.eqb_spec pa pb); [contradiction|reflexivity].
    + intros Hprio.
      assert (less a b = by_sample a b /\ less b a = by_sample b a)
        as [-> ->].
      { destruct (Priority (pod a)) as [pa|] eqn:Ha;
          [|split; apply less_unset; auto].
        destruct (Priority (pod b)) as [pb|] eqn:Hb;
          [|split; apply less_unset; auto].
        destruct Hprio as [?|[?|Heq]]; try discriminate.
        injection Heq as ->.
        rewrite (less_set a b pb pb Ha Hb), (less_set b a pb pb Hb Ha).
        rewrite Z.eqb_refl. split; reflexivity. }
      unfold by_sample, Float64.neb.
      split; [|split].
      * intros -> ->. reflexivity.
      * intros Ha Hb. rewrite Ha, Hb. reflexivity.
      * intros Ha Hb. rewrite Hb. apply negb_true_iff in Ha.
        rewrite Ha. split; reflexivity.
  - intros podMetricMap w infos sorted.
    split; [reflexivity|]. split; [apply bePodInfos_of_spec|].
    intros Hsort Hcons. apply Hsort, less_strict_weak, Hcons.
Qed.

End Ordering.

Section Host.
Context {h : host}.
Local Abbreviation M := (M h).
Local Abbreviation world := (world h).

(** C8. [Run] at its two early exits.  With
    [collectResUsedIntervalSeconds] below 1 it logs that the manager is
    disabled and returns nil: nothing is started and the world is as it
    was.  With an informer that does not sync before the stop, it returns
    the sync time-out error after having started the sweeper and the
    grey-control plugins only: no reconciler is started.  (With a synced
    informer the eight reconcilers are started.) *)
Theorem Run_startup r (w : world) :
  (collectResUsedIntervalSeconds r < 1 ->
   eval (Run r) w = Returned None /\
   new_trace w (exec (Run r) w)
   = [(clock w,
       Log Info
         "collectResUsedIntervalSeconds is %v, resource manager is disabled")]
   /\
   env (exec (Run r) w) = env w /\
   podsEvicted (exec (Run r) w) = podsEvicted w /\
   lastEvictTime (exec (Run r) w) = lastEvictTime w) /\
  (1 <= collectResUsedIntervalSeconds r ->
   WaitForCacheSync h (env w) = false ->
   eval (Run r) w
   = Returned (Some "time out waiting for states informer caches to sync") /\
   new_trace w (exec (Run r) w)
   = [(clock w, Log Info "Starting resmanager");
      (clock w, SweeperStarted);
      (clock w, GreyCtrlPluginsStarted)] /\
   count_effects is_feature_start (new_trace w (exec (Run r) w)) = 0%nat) /\
  (1 <= collectResUsedIntervalSeconds r ->
   WaitForCacheSync h (env w) = true ->
   count_effects is_feature_start (new_trace w (exec (Run r) w)) = 8%nat).
Proof.
  split; [|split].
  - intros Hlt. unfold Run.
    destruct (Z.ltb_spec (collectResUsedIntervalSeconds r) 1); [|lia].
    repeat split. erewrite new_trace_app by reflexivity. reflexivity.
  - intros Hge Hsync. unfold Run.
    destruct (Z.ltb_spec (collectResUsedIntervalSeconds r) 1); [lia|].
    rewrite !eval_bind, !exec_bind.
    change (eval (ask (WaitForCacheSync h)) ?w0)
      with (WaitForCacheSync h (env w)).
    rewrite Hsync. cbn [negb].
    assert (forall w0 : world,
              trace w0 = trace w ++ [(clock w, Log Info "Starting resmanager");
                                     (clock w, SweeperStarted);
                                     (clock w, GreyCtrlPluginsStarted)] ->
              new_trace w w0 = [(clock w, Log Info "Starting resmanager");
                                (clock w, SweeperStarted);
                                (clock w, GreyCtrlPluginsStarted)])
      as Htr by (intros w0; apply new_trace_app).
    rewrite Htr by (cbn; rewrite <- !app_assoc; reflexivity).
    repeat split.
  - intros Hge Hsync. unfold Run.
    destruct (Z.ltb_spec (collectResUsedIntervalSeconds r) 1); [lia|].
    rewrite !exec_bind.
    change (eval (ask (WaitForCacheSync h)) ?w0)
      with (WaitForCacheSync h (env w)).
    rewrite Hsync. cbn [negb].
    unfold new_trace.
    cbv beta iota zeta delta
      [exec eval bind emit klog ask ret NewMemoryEvictor time_Now
       set_lastEvictTime fst snd trace clock env podsEvicted lastEvictTime].
    match goal with
    | |- context [StartPlugins h ?e ?c] => destruct (StartPlugins h e c)
    end;
      cbv beta iota zeta delta
        [exec eval bind emit klog ask ret fst snd trace clock env
         podsEvicted lastEvictTime];
      rewrite <- !app_assoc; rewrite drop_app_length; reflexivity.
Qed.

(** C10. The comparator of [getSortedBEPodInfos] is not transitive.  With
    A (priority 1, 5 bytes used), B (priority 2, 10 bytes) and C (no
    priority, 7 bytes) it puts A before B, B before C and C before A, and
    not A before C; so every order of the three has a pod placed after one
    it should come before. *)
Theorem less_not_transitive :
  less Demo.infoA Demo.infoB = true /\
  less Demo.infoB Demo.infoC = true /\
  less Demo.infoC Demo.infoA = true /\
  less Demo.infoA Demo.infoC = false /\
  ~ (forall a b c, less a b = true -> less b c = true -> less a c = true) /\
  (forall l : list podInfo,
     l ≡ₚ [Demo.infoA; Demo.infoB; Demo.infoC] ->
     exists (i j : nat) a b,
       (i < j)%nat /\ l !! i = Some a /\ l !! j = Some b /\ less b a = true).
Proof.
  assert (less Demo.infoA Demo.infoB = true) as HAB by reflexivity.
  assert (less Demo.infoB Demo.infoC = true) as HBC by reflexivity.
  assert (less Demo.infoC Demo.infoA = true) as HCA by reflexivity.
  assert (less Demo.infoA Demo.infoC = false) as HAC by reflexivity.
  repeat split; try assumption.
  - intros Htrans. specialize (Htrans _ _ _ HAB HBC). congruence.
  - intros l Hperm. symmetry in Hperm.
    apply permutations_Permutation in Hperm. cbn in Hperm.
    repeat (apply elem_of_cons in Hperm as [->|Hperm]);
      [..|inversion Hperm];
      first
        [ exists 0%nat, 1%nat; do 2 eexists;
          split; [lia|split; [reflexivity|split; reflexivity]]
        | exists 0%nat, 2%nat; do 2 eexists;
          split; [lia|split; [reflexivity|split; reflexivity]]
        | exists 1%nat, 2%nat; do 2 eexists;
          split; [lia|split; [reflexivity|split; reflexivity]] ].
Qed.

End Host.

(** * The properties on the scripted node *)

Lemma find_container_sound (status : PodStatus) :
  find_sound Demo.node_host status.
Proof.
  intros name containerID containerStatus err. cbn. unfold Demo.find_container.
  induction (InitContainerStatuses status ++ ContainerStatuses status)
    as [|s statuses IH]; cbn [Demo.find_status].
  - discriminate.
  - destruct (_ && _).
    + destruct (Demo.parse_container_id (cs_ContainerID s)) as [[? ?] [?|]];
        [discriminate|].
      intros [= _ <- _]. apply list_elem_of_here.
    + intros Hfind. apply list_elem_of_further, IH, Hfind.
Qed.

Lemma evictPodIfNotEvicted_at_most_once_witness :
  (eval (cache_Get (UID Demo.podC)) Demo.after_tick).2 = true /\
  podsEvicted
    (exec (evictPodIfNotEvicted Demo.manager Demo.podC Demo.the_node
             "reason" "message") Demo.after_tick)
  = podsEvicted Demo.after_tick /\
  reachable Demo.manager Demo.after_tick /\
  evictions_spaced Demo.node_host (trace Demo.after_tick).
Proof.
  assert (reachable Demo.manager Demo.after_tick) as Hreach.
  { eapply reachable_step; [|apply step_tick].
    eapply reachable_step; [apply reachable_new|].
    apply (@step_env Demo.node_host Demo.manager 61000000000%N Demo.pressure
             Demo.started). }
  destruct (evictPodIfNotEvicted_at_most_once (h := Demo.node_host)
              Demo.manager) as [Hcall Hrun].
  assert ((eval (cache_Get (UID Demo.podC)) Demo.after_tick).2 = true)
    as Hpresent by (vm_compute; reflexivity).
  split; [exact Hpresent|]. split; [|split; [exact Hreach|]].
  - exact (proj2 (proj1 (proj2 (Hcall Demo.podC Demo.the_node "reason"
                                  "message" Demo.after_tick)) Hpresent)).
  - exact (Hrun Demo.after_tick Hreach).
Defined.

Lemma evict_twice_api_calls_counterexample :
  let w := Demo.at_time 0 Demo.rejecting in
  ~ (count_effects is_evict_call
       (new_trace w
          (exec (evict_twice Demo.manager Demo.podB Demo.the_node
                   "reason" "message") w)) <= 1)%nat.
Proof. vm_compute. lia. Qed.

Lemma evict_twice_api_calls_witness :
  let w := Demo.at_time 0 Demo.pressure in
  (eval (cache_Get (UID Demo.podB)) w).2 = false /\
  api_result Demo.manager Demo.podB (exec time_Now w) = None /\
  count_effects is_evict_call
    (new_trace w
       (exec (evict_twice Demo.manager Demo.podB Demo.the_node
                "reason" "message") w)) = 1%nat.
Proof.
  intros w.
  assert ((eval (cache_Get (UID Demo.podB)) w).2 = false) as Hp
    by (vm_compute; reflexivity).
  assert (api_result Demo.manager Demo.podB (exec time_Now w) = None) as Hr
    by (vm_compute; reflexivity).
  split; [exact Hp|]. split; [exact Hr|].
  apply (proj1 (proj2 (evict_twice_api_calls Demo.manager Demo.podB
                         Demo.the_node "reason" "message" w)) Hp Hr).
  vm_compute. reflexivity.
Defined.

Lemma pressure_ready :
  ready Demo.manager (exec time_Now Demo.later)
    (Demo.strategy true (Some 70) (Some 60)) 70 Demo.the_node
    (Float64.of_Z (80 * Demo.GiB)).
Proof.
  constructor; try (vm_compute; reflexivity); try (vm_compute; congruence).
  eexists. split; reflexivity.
Qed.




Lemma memoryEvict_guards_witness :
  let w := Demo.at_time 61000000000 Demo.switched_off in
  skip_reason (env (exec time_Now w)) /\
  quiet w (exec (memoryEvict Demo.manager) w) /\
  count_effects is_evict_call
    (new_trace w (exec (memoryEvict Demo.manager) w)) = 0%nat.
Proof.
  intros w.
  assert (skip_reason (env (exec time_Now w))) as Hskip.
  { eapply skip_enable_false; reflexivity. }
  split; [exact Hskip|].
  destruct (memoryEvict_guards Demo.manager w Hskip) as (Hq & _ & _ & Hc).
  split; [exact Hq|exact Hc].
Defined.

Lemma memoryEvict_cooldown_witness :
  let w := Demo.at_time 10000000000 Demo.pressure in
  Int64.in_range (60 * time_Second) /\
  eval time_Now w < lastEvictTime w + 60 * time_Second /\
  quiet w (exec (memoryEvict Demo.manager) w) /\
  reachable Demo.manager Demo.later /\
  lastEvictTime Demo.later <= lastEvictTime Demo.after_tick.
Proof.
  intros w.
  assert (Int64.in_range (60 * time_Second)) as Hrange
    by (vm_compute; split; congruence).
  assert (eval time_Now w < lastEvictTime w + 60 * time_Second) as Hcool
    by (vm_compute; reflexivity).
  assert (reachable Demo.manager Demo.later) as Hreach.
  { eapply reachable_step; [apply reachable_new|].
    apply (@step_env Demo.node_host Demo.manager 61000000000%N Demo.pressure
             Demo.started). }
  destruct (memoryEvict_cooldown (h := Demo.node_host) Demo.manager)
    as (Hskip & Hmono & _).
  split; [exact Hrange|]. split; [exact Hcool|].
  split; [|split; [exact Hreach|]].
  - exact (proj1 (proj2 (Hskip w Hrange Hcool))).
  - apply (Hmono Demo.later Demo.after_tick Hreach).
    apply step_tick.
Defined.

Lemma memoryEvict_cooldown_counterexample :
  let w := Demo.at_time 1 Demo.pressure in
  let cool := MemoryEvictCoolTimeSeconds (config Cases.patient_manager) in
  let w' := exec (memoryEvict Cases.patient_manager) w in
  eval time_Now w < lastEvictTime w + cool * time_Second /\
  count_effects is_stop_call (new_trace w w') = 3%nat /\
  count_effects is_evict_call (new_trace w w') = 3%nat /\
  lastEvictTime w' <> lastEvictTime w.
Proof. vm_compute. repeat split; congruence. Qed.

Lemma killContainers_asymmetric_witness :
  let w := Demo.at_time 0 Cases.failing_stop in
  find_sound Demo.node_host (Status Demo.stopped_pod) /\
  no_running_container (Status Demo.stopped_pod) /\
  count_effects is_stop_call
    (new_trace Demo.later
       (exec (killContainers Demo.stopped_pod "message") Demo.later)) = 0%nat
  /\
  aborting Demo.node_host Cases.gone_pod (Demo.container_of "gone") /\
  stopped_ids (new_trace w (exec (killContainers Cases.gone_pod "message") w))
  = ["id-1"] /\
  unhandled Demo.node_host Cases.odd_pod (Demo.container_of "odd") /\
  stopped_ids (new_trace w (exec (killContainers Cases.odd_pod "message") w))
  = ["id-1"; "id-2"] /\
  exec (killContainers Cases.twin_pod "message") w
  = exec (killContainers
            (with_containers Cases.twin_pod [Demo.container_of "second"])
            "message")
      (exec (emit (StopContainerCall "containerd" "id-1" 0
                     (Some "stop container failed")) ;;
             klog Error "%s, stop container error! error: %v") w).
Proof.
  intros w.
  assert (no_running_container (Status Demo.stopped_pod)) as Hnone.
  { intros s Hin. cbn in Hin. apply list_elem_of_singleton in Hin.
    subst s. reflexivity. }
  assert (aborting Demo.node_host Cases.gone_pod (Demo.container_of "gone"))
    as Hgone by (left; vm_compute; discriminate).
  assert (unhandled Demo.node_host Cases.odd_pod (Demo.container_of "odd"))
    as Hodd.
  { eexists _, _. split; [vm_compute; reflexivity|].
    split; [reflexivity|]. split; [discriminate|].
    intros e. left. vm_compute. discriminate. }
  destruct (killContainers_asymmetric (h := Demo.node_host) Demo.stopped_pod
              "message") as (_ & _ & _ & _ & Hquiet).
  destruct (killContainers_asymmetric (h := Demo.node_host) Cases.gone_pod
              "message") as (_ & _ & Hprefix & _ & _).
  destruct (killContainers_asymmetric (h := Demo.node_host) Cases.odd_pod
              "message") as (_ & _ & _ & Hothers & _).
  destruct (killContainers_asymmetric (h := Demo.node_host) Cases.twin_pod
              "message") as (Hhead & _).
  split; [apply find_container_sound|]. split; [exact Hnone|].
  split; [apply Hquiet; [apply find_container_sound|exact Hnone]|].
  split; [exact Hgone|]. split; [|split; [exact Hodd|split]].
  - rewrite (Hprefix [Demo.container_of "first"] (Demo.container_of "gone")
               [Demo.container_of "second"] w eq_refl); [reflexivity| |exact Hgone].
    intros c Hc. apply list_elem_of_singleton in Hc. subst c.
    eexists _, _; (split; [vm_compute; reflexivity|]);
      (split; [reflexivity|]); (split; [discriminate|]);
      intros e; eexists; vm_compute; reflexivity.
  - rewrite (Hothers [Demo.container_of "first"] (Demo.container_of "odd")
               [Demo.container_of "second"] w eq_refl); [reflexivity| |exact Hodd].
    intros c Hc.
    repeat (apply elem_of_cons in Hc as [->|Hc]); [..|inversion Hc];
      eexists _, _; (split; [vm_compute; reflexivity|]);
      (split; [reflexivity|]); (split; [discriminate|]);
      intros e; eexists; vm_compute; reflexivity.
  - destruct (Hhead (Demo.container_of "first") [Demo.container_of "second"]
                w "id-1"
                (Some (Demo.running "first" "containerd://id-1")) None
                eq_refl eq_refl) as (_ & _ & Hrun).
    destruct (Hrun (Demo.running "first" "containerd://id-1") eq_refl eq_refl
                eq_refl) as [_ Hstopped]; [discriminate|].
    exact (Hstopped "containerd" eq_refl).
Defined.

Lemma Run_startup_witness :
  let w := Demo.at_time 0 Demo.pressure in
  collectResUsedIntervalSeconds Demo.disabled_manager < 1 /\
  eval (Run Demo.disabled_manager) w = Returned None /\
  1 <= collectResUsedIntervalSeconds Demo.manager /\
  eval (Run Demo.manager) (Demo.at_time 0 (Demo.with_synced false Demo.pressure))
  = Returned (Some "time out waiting for states informer caches to sync").
Proof.
  intros w.
  assert (collectResUsedIntervalSeconds Demo.disabled_manager < 1) as Hlt
    by (vm_compute; reflexivity).
  assert (1 <= collectResUsedIntervalSeconds Demo.manager) as Hge
    by (vm_compute; congruence).
  split; [exact Hlt|]. split; [|split; [exact Hge|]].
  - apply (proj1 (Run_startup Demo.disabled_manager w) Hlt).
  - apply (proj1 (proj2 (Run_startup Demo.manager
                           (Demo.at_time 0
                              (Demo.with_synced false Demo.pressure)))) Hge).
    reflexivity.
Defined.

Lemma lowerPercent_default_witness :
  MemoryEvictLowerPercent Demo.default_lower = None /\
  Int64.min_int + 2 <= 70 <= Int64.max_int /\
  lowerPercent_of Demo.default_lower 70 = 70 - 2.
Proof.
  assert (Int64.min_int + 2 <= 70 <= Int64.max_int) as Hrange
    by (vm_compute; split; congruence).
  split; [reflexivity|]. split; [exact Hrange|].
  apply (proj1 (lowerPercent_default (h := Demo.node_host))
           Demo.default_lower 70 eq_refl Hrange).
Defined.

Lemma less_not_transitive_witness :
  [Demo.infoC; Demo.infoA; Demo.infoB]
    ≡ₚ [Demo.infoA; Demo.infoB; Demo.infoC] /\
  exists (i j : nat) a b,
    (i < j)%nat /\
    [Demo.infoC; Demo.infoA; Demo.infoB] !! i = Some a /\
    [Demo.infoC; Demo.infoA; Demo.infoB] !! j = Some b /\
    less b a = true.
Proof.
  assert ([Demo.infoC; Demo.infoA; Demo.infoB]
            ≡ₚ [Demo.infoA; Demo.infoB; Demo.infoC]) as Hperm.
  { change ([Demo.infoC] ++ [Demo.infoA; Demo.infoB]
              ≡ₚ [Demo.infoA; Demo.infoB] ++ [Demo.infoC]).
    apply Permutation_app_comm. }
  split; [exact Hperm|].
  apply (proj2 (proj2 (proj2 (proj2 (proj2 less_not_transitive)))) _ Hperm).
Defined.

(** ** Insertion sort keeps the contract of [sort.Slice] *)

Lemma insert_by_perm {A} (lt : A -> A -> bool) x l :
  Demo.insert_by lt x l ≡ₚ x :: l.
Proof.
  induction l as [|y l IH]; cbn; [reflexivity|].
  destruct (lt y x); [|reflexivity].
  rewrite IH. apply Permutation_swap.
Qed.

Lemma sort_by_perm {A} (lt : A -> A -> bool) l : Demo.sort_by lt l ≡ₚ l.
Proof.
  induction l as [|x l IH]; cbn; [reflexivity|].
  rewrite insert_by_perm. rewrite IH. reflexivity.
Qed.

Lemma insert_by_ordered lt (s : list podInfo) x l :
  strict_weak_on lt s -> x ∈ s -> (forall y, y ∈ l -> y ∈ s) ->
  ordered_by lt l -> ordered_by lt (Demo.insert_by lt x l).
Proof.
  intros (Hirr & Htrans & Hneg) Hx. unfold ordered_by.
  induction l as [|y l IH]; intros Hl Hsorted; cbn.
  - repeat constructor.
  - apply StronglySorted_inv in Hsorted as [Hsorted Hy].
    assert (y ∈ s) as Hys by (apply Hl; left).
    destruct (lt y x) eqn:Hyx.
    + constructor.
      * apply IH; [|exact Hsorted]. intros z Hz. apply Hl. right. exact Hz.
      * rewrite insert_by_perm. constructor; [|exact Hy].
        destruct (lt x y) eqn:Hxy; [|reflexivity].
        rewrite <- (Hirr y Hys). symmetry.
        apply (Htrans y x y); assumption.
    + constructor; [constructor; assumption|].
      constructor; [exact Hyx|].
      rewrite Forall_forall in Hy |- *. intros z Hz.
      apply (Hneg z y x); auto.
      apply Hl. right. exact Hz.
Qed.

Lemma sort_by_contract : sort_contract Demo.node_host.
Proof.
  intros lt l Hsw. split; [apply sort_by_perm|].
  cbn. unfold Demo.sort_by.
  assert (forall l', (forall y, y ∈ l' -> y ∈ l) ->
                     ordered_by lt (fold_right (Demo.insert_by lt) [] l'))
    as Hgen.
  { induction l' as [|x l' IH]; intros Hsub; cbn.
    - constructor.
    - apply (insert_by_ordered lt l); auto.
      + apply Hsub. left.
      + intros y Hy. apply Hsub.
        change (y ∈ Demo.sort_by lt l') in Hy.
        rewrite sort_by_perm in Hy. right. exact Hy.
      + apply IH. intros y Hy. apply Hsub. right. exact Hy. }
  apply Hgen. auto.
Qed.

Lemma ordered_by_three lt (x y z : podInfo) :
  ordered_by lt [x; y; z] ->
  lt y x = false /\ lt z x = false /\ lt z y = false.
Proof.
  intros Hs. apply StronglySorted_inv in Hs as [Hs Hx].
  apply StronglySorted_inv in Hs as [_ Hy].
  apply Forall_cons in Hx as [Hxy Hx]. apply Forall_cons in Hx as [Hxz _].
  apply Forall_cons in Hy as [Hyz _]. auto.
Qed.

Lemma getSortedBEPodInfos_order_counterexample :
  let w := Demo.at_time 0 Demo.cyclic in
  let sorted := eval (getSortedBEPodInfos (Demo.pod_metrics Demo.cyclic)) w in
  sorted = [Demo.infoA; Demo.infoB; Demo.infoC] /\
  less Demo.infoC Demo.infoA = true /\
  ~ ordered_by less sorted /\
  (forall l, l ≡ₚ sorted -> ~ ordered_by less l).
Proof.
  intros w sorted.
  assert (sorted = [Demo.infoA; Demo.infoB; Demo.infoC]) as Hsorted
    by (vm_compute; reflexivity).
  assert (forall l, l ≡ₚ sorted -> ~ ordered_by less l) as Hnone.
  { rewrite Hsorted. intros l Hperm Hord. symmetry in Hperm.
    apply permutations_Permutation in Hperm. cbn in Hperm.
    repeat (apply elem_of_cons in Hperm as [->|Hperm]);
      [..|inversion Hperm];
      apply ordered_by_three in Hord as (H1 & H2 & H3);
      vm_compute in H1, H2, H3; congruence. }
  split; [exact Hsorted|]. split; [reflexivity|].
  split; [apply Hnone; reflexivity|exact Hnone].
Qed.

Lemma pressure_consistent :
  consistent_infos
    (bePodInfos_of (Demo.pod_metrics Demo.pressure)
       (Demo.pods Demo.pressure)).
Proof.
  split.
  - left. intros a Ha. cbn in Ha.
    repeat (apply elem_of_cons in Ha as [->|Ha]); try discriminate.
    inversion Ha.
  - intros a Ha. cbn in Ha.
    repeat (apply elem_of_cons in Ha as [->|Ha]);
      try (vm_compute; discriminate).
    inversion Ha.
Qed.

Lemma getSortedBEPodInfos_order_witness :
  let w := Demo.at_time 0 Demo.pressure in
  let infos :=
    bePodInfos_of (Demo.pod_metrics Demo.pressure)
      (Demo.pods Demo.pressure) in
  sort_contract Demo.node_host /\
  consistent_infos infos /\
  ordered_by less
    (eval (getSortedBEPodInfos (Demo.pod_metrics Demo.pressure)) w) /\
  less Demo.infoA Demo.infoB = (1 <? 2).
Proof.
  intros w infos.
  destruct (getSortedBEPodInfos_order (h := Demo.node_host))
    as [Hrules Hsorted].
  split; [exact sort_by_contract|]. split; [exact pressure_consistent|].
  split.
  - apply (proj2 (proj2 (Hsorted (Demo.pod_metrics Demo.pressure) w))
             sort_by_contract pressure_consistent).
  - assert (1 <> 2) as Hne by lia.
    apply (proj1 (Hrules Demo.infoA Demo.infoB) 1 2 eq_refl eq_refl Hne).
Defined.

(** * Further properties of the code *)

Section Tame.
Context {h : host}.
Local Abbreviation M := (M h).
Local Abbreviation world := (world h).

Context (ok : effect -> Prop) (R : relation world).
Hypothesis R_refl : forall w, R w w.
Hypothesis R_trans : forall w1 w2 w3, R w1 w2 -> R w2 w3 -> R w1 w3.
Hypothesis R_emit : forall e, ok e -> respects R (emit e).
Hypothesis R_call : forall A (f : Env h -> A * Env h), respects R (call f).
Hypothesis ok_killer : forall e, killer_effect e = true -> ok e.

Lemma tame_ret {A} (a : A) : respects R (ret a).
Proof. intros w. apply R_refl. Qed.

Lemma tame_bind {A B} (m : M A) (k : A -> M B) :
  respects R m -> (forall a, respects R (k a)) -> respects R (bind m k).
Proof.
  intros Hm Hk w. rewrite exec_bind. eapply R_trans; [apply Hm|apply Hk].
Qed.

Lemma tame_ask {A} (f : Env h -> A) : respects R (ask f).
Proof. intros w. apply R_refl. Qed.

Lemma tame_killContainers pod message :
  respects R (killContainers pod message).
Proof.
  unfold killContainers.
  induction (Containers pod) as [|c cs IH]; cbn [killContainers_loop].
  - apply tame_ret.
  - repeat match goal with
      | |- respects _ (killContainers_loop _ _ _) => exact IH
      | |- respects _ (ret _) => apply tame_ret
      | |- respects _ (ask _) => apply tame_ask
      | |- respects _ (call _) => apply R_call
      | |- respects _ (klog _ _) => apply R_emit, ok_killer; reflexivity
      | |- respects _ (emit _) => apply R_emit, ok_killer; reflexivity
      | |- respects _ (bind _ _) => apply tame_bind; [|intros ?]
      | |- respects _ (match ?x with _ => _ end) => destruct x
      | |- respects _ (let '(_, _) := ?x in _) => destruct x
      end.
Qed.

Lemma tame_kill_each message victims :
  respects R (kill_each message victims).
Proof.
  induction victims as [|v victims IH]; cbn [kill_each].
  - apply tame_ret.
  - apply tame_bind; [apply tame_killContainers|intros _; exact IH].
Qed.

Lemma tame_evictPods r pods node reason message :
  (forall p, p ∈ pods ->
             respects R (evictPodIfNotEvicted r p node reason message)) ->
  respects R (evictPodsIfNotEvicted r pods node reason message).
Proof.
  induction pods as [|p pods IH]; intros Hev; cbn [evictPodsIfNotEvicted].
  - apply tame_ret.
  - apply tame_bind; [apply Hev, list_elem_of_here|intros _; apply IH].
    intros p' Hin. apply Hev, list_elem_of_further, Hin.
Qed.

End Tame.

Section Written.
Context {h : host}.
Local Abbreviation M := (M h).
Local Abbreviation world := (world h).
Context (r : resmanager).

Lemma writes_refl (w : world) : writes r w w.
Proof. exists []. rewrite app_nil_r. split; [reflexivity|constructor]. Qed.

Lemma writes_trans (w1 w2 w3 : world) :
  writes r w1 w2 -> writes r w2 w3 -> writes r w1 w3.
Proof.
  intros (es1 & E1 & H1) (es2 & E2 & H2). exists (es1 ++ es2).
  rewrite E2, E1, <- app_assoc. split; [reflexivity|].
  apply written_app; assumption.
Qed.

Lemma writes_same (w w' : world) : trace w' = trace w -> writes r w w'.
Proof.
  intros E. exists []. rewrite app_nil_r. split; [exact E|constructor].
Qed.

Lemma writes_killer e : killer_effect e = true -> respects (@writes h r) (emit e).
Proof.
  intros He w. exists [(clock w, e)]. split; [reflexivity|].
  apply written_kill, He.
Qed.

Lemma writes_klog lvl format : respects (@writes h r) (klog lvl format).
Proof.
  intros w. exists [(clock w, Log lvl format)].
  split; [reflexivity|constructor].
Qed.

Lemma writes_evict p node reason message :
  respects (@writes h r) (evictPodIfNotEvicted r p node reason message).
Proof.
  intros w.
  destruct (evictPodIfNotEvicted_world r p node reason message w)
    as (Htr & _).
  eexists. split; [exact Htr|constructor].
Qed.

Lemma writes_evictPods pods node reason message :
  respects (@writes h r) (evictPodsIfNotEvicted r pods node reason message).
Proof.
  apply tame_evictPods.
  - apply writes_refl.
  - apply writes_trans.
  - intros p _. apply writes_evict.
Qed.

Lemma writes_killAndEvictBEPods node podMetrics need :
  respects (@writes h r) (killAndEvictBEPods r node podMetrics need).
Proof.
  intros w. rewrite killAndEvictBEPods_refines. rewrite !exec_bind.
  eapply writes_trans; [|apply writes_klog].
  eapply writes_trans; [|apply writes_same; reflexivity].
  eapply writes_trans; [|apply writes_same; reflexivity].
  eapply writes_trans; [|apply writes_evictPods].
  apply (tame_kill_each (fun e => killer_effect e = true) (@writes h r)).
  - apply writes_refl.
  - apply writes_trans.
  - apply writes_killer.
  - intros A f w0. apply writes_same. reflexivity.
  - auto.
Qed.

Lemma writes_memoryEvict : respects (@writes h r) (memoryEvict r).
Proof.
  intros w. rewrite memoryEvict_unfold.
  eapply writes_trans; [|apply writes_klog].
  eapply writes_trans; [apply writes_klog|].
  destruct (memoryEvict_body_cases r
              (exec (klog (V 5) "starting memory evict process") w))
    as [(lvl & format & -> & _)|(strategy & threshold & node & used & _ & _
                                  & ->)].
  - eapply writes_trans; [|apply writes_klog].
    apply writes_same. reflexivity.
  - rewrite exec_bind.
    eapply writes_trans; [|apply writes_killAndEvictBEPods].
    eapply writes_trans; [|apply writes_klog].
    apply writes_same. reflexivity.
Qed.

Lemma writes_step (w w' : world) : step r w w' -> writes r w w'.
Proof.
  intros []; [apply writes_evictPods|apply writes_memoryEvict
              |apply writes_same; reflexivity|apply writes_same; reflexivity].
Qed.

Lemma reachable_written (w : world) : reachable r w -> written_by r (trace w).
Proof.
  induction 1 as [t0 e|w w' _ IH Hstep].
  - constructor.
  - destruct (writes_step w w' Hstep) as (es & -> & Hes).
    apply written_app; assumption.
Qed.

Lemma evict_effects_executor p reason message present result now :
  Forall (fun x => executor_effect r x.2 = true)
    (evict_effects r p reason message present result now).
Proof.
  destruct present, result; repeat constructor; cbn;
    apply String.eqb_refl.
Qed.

Lemma written_manager es :
  written_by r es -> Forall (fun x => manager_effect r x.2 = true) es.
Proof.
  induction 1 as [|t lvl format|t e He|p reason message present result now
                 |es1 es2 _ IH1 _ IH2].
  - constructor.
  - repeat constructor.
  - repeat constructor. cbn. unfold manager_effect. rewrite He.
    apply orb_true_iff. left. apply orb_true_r.
  - eapply Forall_impl; [apply evict_effects_executor|].
    intros x Hx. cbn in Hx. unfold manager_effect. rewrite Hx.
    apply orb_true_r.
  - apply Forall_app. split; assumption.
Qed.

Lemma written_bracketed es : written_by r es -> bracketed es.
Proof.
  induction 1 as [|t lvl format|t e He|p reason message present result now
                 |es1 es2 _ IH1 _ IH2];
    intros i t' ns name opts version res Hi.
  - rewrite lookup_nil in Hi. discriminate.
  - destruct i; cbn in Hi; discriminate.
  - destruct i; cbn in Hi; [|discriminate].
    injection Hi as -> ->. discriminate.
  - destruct present.
    + destruct i; cbn in Hi; discriminate.
    + destruct i as [|[|i]]; cbn -[String.append] in Hi; [discriminate| |].
      * injection Hi as <- <- <- <- <- <-.
        exists (UID p), reason, message.
        destruct result; eexists; cbn -[String.append];
          (split; [reflexivity|]); (split; [lia|]); (split; [reflexivity|]);
          (split; [reflexivity|]); intros; try discriminate; reflexivity.
      * destruct result; destruct i as [|[|[|i]]]; cbn in Hi;
          discriminate.
  - destruct (decide (i < length es1)%nat) as [Hlt|Hge].
    + rewrite lookup_app_l in Hi by lia.
      destruct (IH1 i _ _ _ _ _ _ Hi)
        as (uid & reason & message & em & Hu & Hpos & Ha & He & Hm).
      exists uid, reason, message, em.
      pose proof (lookup_lt_Some _ _ _ He) as Hlen.
      split; [exact Hu|]. split; [exact Hpos|].
      split; [rewrite lookup_app_l by lia; exact Ha|].
      split; [rewrite lookup_app_l by lia; exact He|].
      intros Hr. specialize (Hm Hr).
      pose proof (lookup_lt_Some _ _ _ Hm).
      rewrite lookup_app_l by lia. exact Hm.
    + rewrite lookup_app_r in Hi by lia.
      destruct (IH2 _ _ _ _ _ _ _ Hi)
        as (uid & reason & message & em & Hu & Hpos & Ha & He & Hm).
      exists uid, reason, message, em.
      split; [exact Hu|]. split; [lia|].
      split; [|split].
      * rewrite lookup_app_r by lia.
        replace (i - 1 - length es1)%nat with (i - length es1 - 1)%nat by lia.
        exact Ha.
      * rewrite lookup_app_r by lia.
        replace (i + 1 - length es1)%nat with (i - length es1 + 1)%nat by lia.
        exact He.
      * intros Hr. rewrite lookup_app_r by lia.
        replace (i + 2 - length es1)%nat with (i - length es1 + 2)%nat by lia.
        exact (Hm Hr).
Qed.

End Written.

Section Shape.
Context {h : host}.
Local Abbreviation M := (M h).
Local Abbreviation world := (world h).

(** X1. Along every run of the node, whatever the manager has written is a
    log line, a container stop with a zero timeout, an audit record, an
    eviction call (with no grace period, a UID precondition and the
    manager's API version), a warning event whose reason is
    [evictPodSuccess] or [evictPodFail], or an eviction metric.  In
    particular [memoryEvict] never reaches the nil dereference that a
    NodeSLO without a strategy would lead it to. *)
Theorem reachable_trace_shape r (w : world) :
  reachable r w ->
  Forall (fun x => manager_effect r x.2 = true) (trace w) /\
  (forall t reason, (t, Panic reason) ∉ trace w).
Proof.
  intros Hreach.
  pose proof (written_manager r _ (reachable_written r w Hreach)) as Hall.
  split; [exact Hall|].
  intros t reason Hin. rewrite Forall_forall in Hall.
  apply Hall in Hin. discriminate.
Qed.

(** X2. Along every run of the node, an eviction call stands in the trace
    right after the audit record of the same pod and right before the event
    sent for it, all three at the same time: the call carries the UID of the
    pod as a precondition, the event is a warning with the reason
    [evictPodSuccess] when the call succeeded and [evictPodFail] when it did
    not, and the eviction metric follows a success. *)
Theorem eviction_call_bracketed r (w : world) :
  reachable r w -> bracketed (trace w).
Proof. intros Hreach. apply (written_bracketed r), reachable_written, Hreach. Qed.

Lemma killer_step_trans (w1 w2 w3 : world) es1 es2 :
  trace w2 = trace w1 ++ es1 -> trace w3 = trace w2 ++ es2 ->
  trace w3 = trace w1 ++ es1 ++ es2.
Proof. intros -> ->. rewrite <- app_assoc. reflexivity. Qed.

Ltac killer_side :=
  first [ reflexivity
        | solve [repeat constructor]
        | solve [vm_compute; lia]
        | solve [cbn; rewrite <- ?app_assoc, ?app_nil_r; reflexivity] ].

Lemma killContainers_loop_footprint pod message containers (w : world) :
  let w' := exec (killContainers_loop pod message containers) w in
  clock w' = clock w /\ podsEvicted w' = podsEvicted w /\
  lastEvictTime w' = lastEvictTime w /\
  exists es,
    trace w' = trace w ++ es /\
    Forall (fun x => killer_effect x.2 = true) es /\
    (count_effects is_stop_call es <= length containers)%nat.
Proof.
  revert w. induction containers as [|c cs IH]; intros w.
  - cbn. repeat split. exists []. rewrite app_nil_r.
    repeat split; [constructor|vm_compute; lia].
  - assert (forall es0 (w0 : world),
              clock w0 = clock w -> podsEvicted w0 = podsEvicted w ->
              lastEvictTime w0 = lastEvictTime w ->
              trace w0 = trace w ++ es0 ->
              Forall (fun x => killer_effect x.2 = true) es0 ->
              (count_effects is_stop_call es0 <= 1)%nat ->
              clock (exec (killContainers_loop pod message cs) w0) = clock w /\
              podsEvicted (exec (killContainers_loop pod message cs) w0)
              = podsEvicted w /\
              lastEvictTime (exec (killContainers_loop pod message cs) w0)
              = lastEvictTime w /\
              exists es,
                trace (exec (killContainers_loop pod message cs) w0)
                = trace w ++ es /\
                Forall (fun x => killer_effect x.2 = true) es /\
                (count_effects is_stop_call es <= S (length cs))%nat)
      as Hgo.
    { intros es0 w0 Hc Hp Hl Htr Hall Hcount.
      destruct (IH w0) as (Hc' & Hp' & Hl' & es & Htr' & Hall' & Hcount').
      rewrite Hc', Hp', Hl'. repeat split; try assumption.
      exists (es0 ++ es). split; [|split].
      - eapply killer_step_trans; eassumption.
      - apply Forall_app. split; assumption.
      - rewrite count_effects_app. lia. }
    assert (forall es0 (w0 : world),
              clock w0 = clock w -> podsEvicted w0 = podsEvicted w ->
              lastEvictTime w0 = lastEvictTime w ->
              trace w0 = trace w ++ es0 ->
              Forall (fun x => killer_effect x.2 = true) es0 ->
              (count_effects is_stop_call es0 <= 1)%nat ->
              clock w0 = clock w /\ podsEvicted w0 = podsEvicted w /\
              lastEvictTime w0 = lastEvictTime w /\
              exists es,
                trace w0 = trace w ++ es /\
                Forall (fun x => killer_effect x.2 = true) es /\
                (count_effects is_stop_call es <= S (length cs))%nat)
      as Hend.
    { intros es0 w0 Hc Hp Hl Htr Hall Hcount. repeat split; try assumption.
      exists es0. repeat split; try assumption. lia. }
    cbn [killContainers_loop length]. cbn zeta.
    destruct (FindContainerIdAndStatusByName h (Status pod) (c_Name c))
      as [[containerID containerStatus] err].
    destruct err.
    { apply (Hend [(clock w, Log Error
                      "failed to find container id and status, error: %v")]);
        killer_side. }
    destruct containerStatus as [status|].
    2:{ apply (Hend []); killer_side. }
    destruct (negb (cs_Running status)).
    { apply (Hend []); killer_side. }
    destruct (negb (String.eqb containerID EmptyString)).
    + destruct (ParseContainerId h (cs_ContainerID status)) as [[rt ?] ?].
      rewrite exec_bind.
      change (eval (ask (fun e => GetRuntimeHandler h e rt)) w)
        with (GetRuntimeHandler h (env w) rt).
      change (exec (ask (fun e => GetRuntimeHandler h e rt)) w) with w.
      destruct (GetRuntimeHandler h (env w) rt) as [[handler|] [e|]].
      2:{ rewrite !exec_bind.
          change (eval (call (fun e =>
                          StopContainer h e handler containerID 0)) w)
            with (StopContainer h (env w) handler containerID 0).1.
          destruct (StopContainer h (env w) handler containerID 0).1
            as [stopErr|].
          - apply (Hgo [(clock w, StopContainerCall handler containerID 0
                                    (Some stopErr));
                        (clock w, Log Error
                                    "%s, stop container error! error: %v")]);
              killer_side.
          - apply (Hgo [(clock w, StopContainerCall handler containerID 0
                                    None)]);
              killer_side. }
      all: rewrite exec_bind;
        apply (Hgo [(clock w, Log Error
                       "%s, kill container(%s) error! GetRuntimeHandler fail! error: %v")]);
        killer_side.
    + rewrite exec_bind.
      apply (Hgo [(clock w, Log Warning
                     "%s, get container ID failed, pod %s/%s containerName %s status: %v")]);
        killer_side.
Qed.

(** X3. [killContainers] only talks to the container runtime: it leaves the
    clock, the evicted set and [lastEvictTime] as they were; what it writes
    is error and warning lines and stops with a zero timeout; and it asks
    for at most one stop per container of the pod's spec. *)
Theorem killContainers_footprint pod message (w : world) :
  let w' := exec (killContainers pod message) w in
  clock w' = clock w /\ podsEvicted w' = podsEvicted w /\
  lastEvictTime w' = lastEvictTime w /\
  exists es,
    trace w' = trace w ++ es /\
    Forall (fun x => killer_effect x.2 = true) es /\
    (count_effects is_stop_call es <= length (Containers pod))%nat.
Proof. apply killContainers_loop_footprint. Qed.

End Shape.

Section Entries.
Context {h : host}.
Local Abbreviation M := (M h).
Local Abbreviation world := (world h).

(** The evicted set is handed on, the clock does not go back and the trace
    only grows. *)
Lemma entries_backed_later (w w' : world) es :
  podsEvicted w' = podsEvicted w -> clock w <= clock w' ->
  trace w' = trace w ++ es ->
  entries_backed w -> entries_backed w'.
Proof.
  intros Hp Hc Htr Hb uid it Hit. rewrite Hp in Hit.
  destruct (Hb uid it Hit) as (Hobj & Hexp & t & e & Hin & Hs & Ht).
  split; [exact Hobj|]. split; [lia|].
  exists t, e. rewrite Htr. split; [|split; assumption].
  apply elem_of_app. left. exact Hin.
Qed.

Lemma evictPodIfNotEvicted_clock r p node reason message (w : world) :
  clock (exec time_Now w)
  <= clock (exec (evictPodIfNotEvicted r p node reason message) w).
Proof.
  destruct (eval (cache_Get (UID p)) w).2 eqn:Hp.
  - rewrite evictPodIfNotEvicted_present by exact Hp. cbn. lia.
  - destruct (api_result r p (exec time_Now w)) eqn:Hr.
    + rewrite evictPodIfNotEvicted_failure by congruence. cbn. lia.
    + rewrite evictPodIfNotEvicted_success by assumption. cbn. lia.
Qed.

Lemma entries_evictPodIfNotEvicted r p node reason message (w : world) :
  entries_backed w ->
  entries_backed (exec (evictPodIfNotEvicted r p node reason message) w).
Proof.
  intros Hb.
  destruct (evictPodIfNotEvicted_world r p node reason message w)
    as (Htr & _ & Hset & _).
  destruct (evictPodIfNotEvicted_frame r p node reason message w)
    as [_ Hclock].
  pose proof (evictPodIfNotEvicted_clock r p node reason message w) as Hnow.
  cbn zeta in Htr, Hset.
  set (w' := exec (evictPodIfNotEvicted r p node reason message) w) in *.
  destruct (eval (cache_Get (UID p)) w).2;
    [exact (entries_backed_later w w' _ Hset Hclock Htr Hb)|].
  destruct (api_result r p (exec time_Now w)) as [err|];
    [exact (entries_backed_later w w' _ Hset Hclock Htr Hb)|].
  intros uid it Hit. rewrite Hset in Hit.
  destruct (decide (uid = UID p)) as [->|Hne].
  - rewrite lookup_insert_eq in Hit. injection Hit as <-.
    cbn [object expirationTime]. split; [reflexivity|]. split; [lia|].
    eexists _, _. rewrite Htr. split; [|split].
    + apply elem_of_app. right. cbn [evict_effects].
      apply list_elem_of_further, list_elem_of_here.
    + cbn. apply String.eqb_refl.
    + lia.
  - rewrite lookup_insert_ne in Hit by congruence.
    destruct (Hb uid it Hit) as (Hobj & Hexp & t & e & Hin & Hs & Ht).
    split; [exact Hobj|]. split; [lia|].
    exists t, e. rewrite Htr. split; [|split; assumption].
    apply elem_of_app. left. exact Hin.
Qed.

Lemma gentle_entries r : gentle r (@keeps_entries h).
Proof.
  split; unfold keeps_entries, respects.
  - auto.
  - auto.
  - intros e _ w. apply (entries_backed_later w _ [(clock w, e)]);
      [reflexivity|cbn; lia|reflexivity].
  - intros w. apply (entries_backed_later w _ []);
      [reflexivity|cbn; lia|cbn; rewrite app_nil_r; reflexivity].
  - intros A f w. apply (entries_backed_later w _ []);
      [reflexivity|cbn; lia|cbn; rewrite app_nil_r; reflexivity].
  - intros w. apply (entries_backed_later w _ []);
      [reflexivity|cbn; lia|cbn; rewrite app_nil_r; reflexivity].
  - intros p node reason message w. apply entries_evictPodIfNotEvicted.
Qed.

Lemma sweep_keeps_entries : respects (@keeps_entries h) cache_sweep.
Proof.
  intros w Hb uid it Hit.
  unfold cache_sweep, exec, bind, set_podsEvicted, time_Now in Hit |- *.
  cbn in Hit |- *.
  apply map_lookup_filter_Some in Hit as [Hit _].
  destruct (Hb uid it Hit) as (Hobj & Hexp & t & e & Hin & Hs & Ht).
  split; [exact Hobj|]. split; [lia|]. eauto.
Qed.

(** X4. Along every run of the node, the evicted set holds a UID only after
    an eviction call for it succeeded: every entry is filed under the UID it
    holds, stands for a successful call in the trace that was made at least
    a time to live before the entry runs out, and runs out at most a time
    to live from now. *)
Theorem podsEvicted_backed r (w : world) :
  reachable r w -> entries_backed w.
Proof.
  induction 1 as [t0 e|w w' _ IH Hstep].
  - intros uid it Hit. cbn in Hit. rewrite lookup_empty in Hit. discriminate.
  - apply (step_keeps r keeps_entries w w'); auto.
    + apply gentle_entries.
    + apply sweep_keeps_entries.
    + intros d e w0. unfold keeps_entries.
      apply (entries_backed_later w0 _ []);
        [reflexivity|cbn; lia|cbn; rewrite app_nil_r; reflexivity].
Qed.

End Entries.

Section Waves.
Context {h : host}.
Local Abbreviation M := (M h).
Local Abbreviation world := (world h).
Context (r : resmanager).

Lemma wave_advance cooled (w w' : world) es :
  clock w <= clock w' -> lastEvictTime w' = lastEvictTime w ->
  trace w' = trace w ++ es ->
  Forall (fun x => is_wave_end x.2 = false) es ->
  wave_inv r cooled w -> wave_inv r cooled w'.
Proof.
  intros Hc Hl Htr Hes (Hstamp & Hbound & Hspaced & Hcool).
  rewrite Forall_forall in Hes.
  unfold wave_inv, stamp_inv in *. rewrite Hl, Htr.
  split; [lia|]. split; [|split].
  - intros t e Hin Hwave. apply elem_of_app in Hin as [Hin|Hin].
    + exact (Hbound t e Hin Hwave).
    + apply Hes in Hin. cbn in Hin. congruence.
  - intros i j ti tj ei ej Hij Hi Hj Wi Wj.
    destruct (decide (j < length (trace w))%nat) as [Hlt|Hge].
    + rewrite lookup_app_l in Hi by lia. rewrite lookup_app_l in Hj by lia.
      exact (Hspaced i j ti tj ei ej Hij Hi Hj Wi Wj).
    + rewrite lookup_app_r in Hj by lia.
      apply list_elem_of_lookup_2, Hes in Hj. cbn in Hj. congruence.
  - intros Hcooled. specialize (Hcool Hcooled). lia.
Qed.

Lemma keeps_waves_refl cooled (w : world) : keeps_waves r cooled w w.
Proof. intros H. exact H. Qed.

Lemma keeps_waves_trans cooled (w1 w2 w3 : world) :
  keeps_waves r cooled w1 w2 -> keeps_waves r cooled w2 w3 ->
  keeps_waves r cooled w1 w3.
Proof. unfold keeps_waves. auto. Qed.

Lemma keeps_waves_emit cooled e :
  is_wave_end e = false -> respects (@keeps_waves h r cooled) (emit e).
Proof.
  intros He w. unfold keeps_waves.
  apply (wave_advance cooled w _ [(clock w, e)]);
    [cbn; lia|reflexivity|reflexivity|repeat constructor; exact He].
Qed.

Lemma keeps_waves_same cooled (w w' : world) :
  clock w <= clock w' -> lastEvictTime w' = lastEvictTime w ->
  trace w' = trace w -> keeps_waves r cooled w w'.
Proof.
  intros Hc Hl Htr. unfold keeps_waves.
  apply (wave_advance cooled w w' []); auto.
  rewrite app_nil_r. exact Htr.
Qed.

Lemma keeps_waves_evict cooled p node reason message :
  respects (@keeps_waves h r cooled)
    (evictPodIfNotEvicted r p node reason message).
Proof.
  intros w.
  destruct (evictPodIfNotEvicted_world r p node reason message w)
    as (Htr & Hl & _).
  destruct (evictPodIfNotEvicted_frame r p node reason message w)
    as [_ Hclock].
  unfold keeps_waves.
  eapply wave_advance; [exact Hclock|exact Hl|exact Htr|].
  destruct (eval (cache_Get (UID p)) w).2;
    destruct (api_result r p (exec time_Now w));
    repeat constructor.
Qed.

Lemma killer_not_wave_end e : killer_effect e = true -> is_wave_end e = false.
Proof. destruct e as [[]| | | | | | | | | | | |]; cbn; congruence. Qed.

Lemma keeps_waves_kill_each cooled message victims :
  respects (@keeps_waves h r cooled) (kill_each message victims).
Proof.
  apply (tame_kill_each (fun e => is_wave_end e = false)).
  - apply keeps_waves_refl.
  - apply keeps_waves_trans.
  - apply keeps_waves_emit.
  - intros A f w. apply keeps_waves_same; [cbn; lia|reflexivity..].
  - apply killer_not_wave_end.
Qed.

Lemma keeps_waves_evictPods cooled pods node reason message :
  respects (@keeps_waves h r cooled)
    (evictPodsIfNotEvicted r pods node reason message).
Proof.
  apply tame_evictPods.
  - apply keeps_waves_refl.
  - apply keeps_waves_trans.
  - intros p _. apply keeps_waves_evict.
Qed.

(** The stamp ends a wave: the cool time starts again. *)
Lemma wave_tail_inv (w : world) :
  wave_inv r true w -> wave_inv r false (exec wave_tail w).
Proof.
  intros (Hstamp & Hbound & Hspaced & Hcool). specialize (Hcool eq_refl).
  unfold wave_inv, stamp_inv in *. cbn.
  split; [lia|]. split; [|split; [|discriminate]].
  - intros t e Hin Hwave. apply elem_of_app in Hin as [Hin|Hin].
    + specialize (Hbound t e Hin Hwave). lia.
    + apply list_elem_of_singleton in Hin. injection Hin as -> ->. lia.
  - intros i j ti tj ei ej Hij Hi Hj Wi Wj.
    destruct (decide (j < length (trace w))%nat) as [Hlt|Hge].
    + rewrite lookup_app_l in Hi by lia. rewrite lookup_app_l in Hj by lia.
      exact (Hspaced i j ti tj ei ej Hij Hi Hj Wi Wj).
    + assert (j = length (trace w)) as ->.
      { apply lookup_lt_Some in Hj. rewrite length_app in Hj.
        cbn in Hj. lia. }
      rewrite lookup_app_l in Hi by lia.
      rewrite list_lookup_middle in Hj by reflexivity.
      injection Hj as <- <-.
      apply list_elem_of_lookup_2 in Hi.
      specialize (Hbound ti ei Hi Wi). lia.
Qed.

Lemma wave_killAndEvictBEPods node podMetrics need (w : world) :
  wave_inv r true w ->
  wave_inv r false (exec (killAndEvictBEPods r node podMetrics need) w).
Proof.
  intros Hinv. rewrite killAndEvictBEPods_refines. rewrite !exec_bind.
  apply wave_tail_inv.
  apply keeps_waves_evictPods, keeps_waves_kill_each, Hinv.
Qed.

Lemma wave_inv_weaken (w : world) : wave_inv r true w -> wave_inv r false w.
Proof.
  intros (Hstamp & Hbound & Hspaced & _). repeat split; auto. discriminate.
Qed.

Lemma ends_wave_bind {A B} (m : M A) (k : A -> M B) :
  respects (@keeps_waves h r true) m ->
  (forall a, respects (@ends_wave h r) (k a)) ->
  respects (@ends_wave h r) (bind m k).
Proof. intros Hm Hk w Hinv. rewrite exec_bind. apply Hk, Hm, Hinv. Qed.

Lemma ends_wave_emit e :
  is_wave_end e = false -> respects (@ends_wave h r) (emit e).
Proof.
  intros He w Hinv. apply wave_inv_weaken, keeps_waves_emit; assumption.
Qed.

Lemma wave_memoryEvict_body (w : world) :
  Int64.in_range (cool_time r) ->
  wave_inv r false w -> wave_inv r false (exec (memoryEvict_body r) w).
Proof.
  intros Hrange Hinv. unfold memoryEvict_body.
  rewrite exec_bind.
  apply (keeps_waves_same false w (exec time_Now w)) in Hinv;
    [|cbn; lia|reflexivity..].
  change (eval time_Now w) with (clock (exec time_Now w)).
  generalize dependent (exec time_Now w). clear w. intros w Hinv.
  rewrite exec_bind.
  change (exec (gets lastEvictTime) w) with w.
  change (eval (gets lastEvictTime) w) with (lastEvictTime w).
  destruct (in_cooling_time r (clock w) (lastEvictTime w)) eqn:Hcool.
  { revert Hinv. apply keeps_waves_emit. reflexivity. }
  assert (wave_inv r true w) as Hcooled.
  { destruct Hinv as (Hstamp & Hbound & Hspaced & _).
    repeat split; auto. intros _.
    unfold in_cooling_time, Int64.mul in Hcool.
    fold (cool_time r) in Hcool. rewrite wrap_in_range in Hcool by exact Hrange.
    apply Z.ltb_ge in Hcool. lia. }
  clear Hinv Hcool.
  match goal with
  | |- wave_inv r false (exec ?m w) =>
      assert (respects (@ends_wave h r) m) as Hm; [|exact (Hm w Hcooled)]
  end.
  clear w Hcooled.
  repeat match goal with
    | |- respects _ (killAndEvictBEPods _ _ _ _) =>
        intros w0 Hw0; apply wave_killAndEvictBEPods, Hw0
    | |- respects _ (klog _ _) => apply ends_wave_emit; reflexivity
    | |- respects _ (emit _) => apply ends_wave_emit; reflexivity
    | |- respects _ (bind (ask _) _) =>
        apply ends_wave_bind;
        [intros w0; apply keeps_waves_refl|intros ?]
    | |- respects _ (bind (klog _ _) _) =>
        apply ends_wave_bind;
        [apply keeps_waves_emit; reflexivity|intros ?]
    | |- respects _ (match ?x with _ => _ end) => destruct x
    | |- respects _ (let '(_, _) := ?x in _) => destruct x
    end.
Qed.

Lemma wave_memoryEvict (w : world) :
  Int64.in_range (cool_time r) ->
  wave_inv r false w -> wave_inv r false (exec (memoryEvict r) w).
Proof.
  intros Hrange Hinv. rewrite memoryEvict_unfold.
  apply keeps_waves_emit; [reflexivity|].
  apply wave_memoryEvict_body; [exact Hrange|].
  apply keeps_waves_emit; [reflexivity|exact Hinv].
Qed.

(** X5. Along every run of the node two waves of evictions are at least
    the cool time apart (for a cool time whose nanoseconds fit an
    [int64]): after [killAndEvictBEPods] has written its last line, no tick
    reaches it again before [MemoryEvictCoolTimeSeconds] have gone by,
    whatever the batch evictions of the other reconcilers and the sweeper
    do in between. *)
Theorem waves_apart (w : world) :
  Int64.in_range (cool_time r) ->
  reachable r w -> waves_spaced r (trace w).
Proof.
  intros Hrange Hreach.
  assert (wave_inv r false w) as (_ & _ & Hspaced & _); [|exact Hspaced].
  induction Hreach as [t0 e|w w' _ IH Hstep].
  - unfold wave_inv, stamp_inv. cbn. split; [lia|].
    split; [|split; [|discriminate]].
    + intros t e' Hin. inversion Hin.
    + intros i j ti tj ei ej _ Hi. rewrite lookup_nil in Hi. discriminate.
  - destruct Hstep.
    + apply keeps_waves_evictPods, IH.
    + apply wave_memoryEvict; [exact Hrange|exact IH].
    + revert IH. apply keeps_waves_same; [cbn; lia|reflexivity..].
    + revert IH. apply keeps_waves_same; [cbn; lia|reflexivity..].
Qed.

End Waves.

Section Batch.
Context {h : host}.
Local Abbreviation M := (M h).
Local Abbreviation world := (world h).

Lemma evictPodsIfNotEvicted_app r l1 l2 node reason message (w : world) :
  exec (evictPodsIfNotEvicted r (l1 ++ l2) node reason message) w
  = exec (evictPodsIfNotEvicted r l2 node reason message)
      (exec (evictPodsIfNotEvicted r l1 node reason message) w).
Proof.
  revert w. induction l1 as [|p l1 IH]; intros w; [reflexivity|].
  cbn [app evictPodsIfNotEvicted]. rewrite !exec_bind. apply IH.
Qed.

Lemma evict_effects_counts r p reason message present result now :
  let es := evict_effects r p reason message present result now in
  (count_effects is_audit es + count_effects is_already_evicted es)%nat
  = 1%nat /\
  count_effects is_evict_call es = count_effects is_audit es.
Proof. destruct present, result; split; reflexivity. Qed.

Lemma evictPodsIfNotEvicted_counts r pods node reason message (w : world) :
  let w' := exec (evictPodsIfNotEvicted r pods node reason message) w in
  lastEvictTime w' = lastEvictTime w /\
  exists es,
    trace w' = trace w ++ es /\
    (count_effects is_audit es + count_effects is_already_evicted es)%nat
    = length pods /\
    count_effects is_evict_call es = count_effects is_audit es.
Proof.
  revert w. induction pods as [|p pods IH]; intros w.
  - cbn. split; [reflexivity|]. exists []. rewrite app_nil_r.
    repeat split.
  - cbn [evictPodsIfNotEvicted]. cbn zeta. rewrite exec_bind.
    destruct (evictPodIfNotEvicted_world r p node reason message w)
      as (Htr & Hl & _). cbn zeta in Htr.
    destruct (IH (exec (evictPodIfNotEvicted r p node reason message) w))
      as (Hl' & es & Htr' & Hsum & Hcalls).
    split; [congruence|].
    eexists. split; [rewrite Htr', Htr, <- app_assoc; reflexivity|].
    rewrite !count_effects_app.
    match goal with
    | |- context [evict_effects r p reason message ?a ?b ?c] =>
        destruct (evict_effects_counts r p reason message a b c) as [H1 H2]
    end.
    cbn zeta in H1, H2. cbn [length]. split; lia.
Qed.

(** X6. [evictPodsIfNotEvicted] goes through the whole batch, whatever
    happens to a pod of it: each pod either is found in the evicted set (one
    line) or gets its audit record and its API call; [lastEvictTime] is left
    alone; and a batch in two parts is the two batches one after the
    other. *)
Theorem evictPodsIfNotEvicted_batch r node reason message :
  (forall pods (w : world),
     let w' := exec (evictPodsIfNotEvicted r pods node reason message) w in
     (count_effects is_audit (new_trace w w')
      + count_effects is_already_evicted (new_trace w w'))%nat
     = length pods /\
     count_effects is_evict_call (new_trace w w')
     = count_effects is_audit (new_trace w w') /\
     lastEvictTime w' = lastEvictTime w) /\
  (forall l1 l2 (w : world),
     exec (evictPodsIfNotEvicted r (l1 ++ l2) node reason message) w
     = exec (evictPodsIfNotEvicted r l2 node reason message)
         (exec (evictPodsIfNotEvicted r l1 node reason message) w)).
Proof.
  split.
  - intros pods w w'.
    destruct (evictPodsIfNotEvicted_counts r pods node reason message w)
      as (Hl & es & Htr & Hsum & Hcalls).
    fold w' in Hl, Htr. rewrite (new_trace_app _ _ _ Htr). auto.
  - intros l1 l2 w. apply evictPodsIfNotEvicted_app.
Qed.

End Batch.

Section Drain.
Context {h : host}.
Local Abbreviation M := (M h).
Local Abbreviation world := (world h).

Lemma stop_index_no_need need released victims :
  need <= released -> stop_index h need released victims = 0%nat.
Proof.
  intros Hle. destruct victims as [|v victims]; [reflexivity|].
  cbn [stop_index]. destruct (Z.leb_spec need released); [reflexivity|lia].
Qed.

Lemma stop_index_no_credit need released victims :
  released < need ->
  Forall (fun v => SFeqb (memUsed v) Float64.zero = true) victims ->
  stop_index h need released victims = length victims.
Proof.
  intros Hlt Hzero. induction Hzero as [|v victims Hv _ IH]; [reflexivity|].
  cbn [stop_index length].
  destruct (Z.leb_spec need released); [lia|].
  unfold credit, Float64.neb. rewrite Hv. cbn [negb]. rewrite IH.
  reflexivity.
Qed.

Lemma bePodInfos_of_none podMetricMap (pods : list Pod) :
  (forall p, p ∈ pods -> QoSClassRaw p <> QoSBE) ->
  bePodInfos_of podMetricMap pods = [].
Proof.
  intros Hnone. destruct (bePodInfos_of podMetricMap pods) as [|info l] eqn:E;
    [reflexivity|].
  assert (info ∈ bePodInfos_of podMetricMap pods) as Hin
    by (rewrite E; apply list_elem_of_here).
  apply bePodInfos_of_spec in Hin as (Hin & Hbe & _).
  destruct (Hnone _ Hin Hbe).
Qed.

(** X7. A wave with nothing to release is still a wave: when the budget is
    not positive, or the node runs no BE pod, [killAndEvictBEPods] stops no
    container and asks for no eviction, but it reads the clock, sets
    [lastEvictTime] to it and writes its last line, so the cool time starts
    again. *)
Theorem killAndEvictBEPods_nothing_to_release r node podMetrics need
    (w : world) :
  need <= 0 \/
  (sort_permutes h /\
   forall p, p ∈ GetAllPods h (env w) -> QoSClassRaw p <> QoSBE) ->
  let w' := exec (killAndEvictBEPods r node podMetrics need) w in
  new_trace w w'
  = [(eval time_Now w,
      Log Info
        "killAndEvictBEPods completed, memoryNeedRelease(%v) memoryReleased(%v)")]
  /\
  lastEvictTime w' = eval time_Now w /\
  clock w' = eval time_Now w /\
  podsEvicted w' = podsEvicted w.
Proof.
  intros Hnothing w'. subst w'.
  rewrite killAndEvictBEPods_refines.
  assert (take
            (stop_index h need 0
               (sort_Slice h less
                  (bePodInfos_of podMetrics (GetAllPods h (env w)))))
            (sort_Slice h less
               (bePodInfos_of podMetrics (GetAllPods h (env w)))) = [])
    as ->.
  { destruct Hnothing as [Hneed|[Hperm Hnone]].
    - rewrite stop_index_no_need by exact Hneed. reflexivity.
    - rewrite (bePodInfos_of_none _ _ Hnone).
      specialize (Hperm less []). apply Permutation_nil_r in Hperm.
      rewrite Hperm. reflexivity. }
  repeat split. apply new_trace_app. reflexivity.
Qed.

(** X8. A BE pod without a sample (or with a sample of zero) is killed but
    adds nothing to the released total.  So when none of the victims has a
    sample and the budget is positive, the walk never stops early:
    [killAndEvictBEPods] kills the containers of every BE pod of the node
    and hands all of them to the batch evictor. *)
Theorem killAndEvictBEPods_without_samples r node podMetrics need
    (w : world) :
  let victims :=
    sort_Slice h less (bePodInfos_of podMetrics (GetAllPods h (env w))) in
  let message :=
    "killAndEvictBEPods for node(" +:+ nodeName r
      +:+ "), need to release memory: " +:+ pretty need in
  0 < need ->
  sort_permutes h ->
  (forall p, p ∈ GetAllPods h (env w) -> QoSClassRaw p = QoSBE ->
             default Float64.zero (podMetrics !! UID p) = Float64.zero) ->
  stop_index h need 0 victims = length victims /\
  exec (killAndEvictBEPods r node podMetrics need) w
  = exec (kill_each message victims ;;
          evictPodsIfNotEvicted r (map pod victims) node
            EvictPodByNodeMemoryUsage message ;;
          wave_tail)
      w.
Proof.
  intros victims message Hneed Hperm Hzero.
  assert (stop_index h need 0 victims = length victims) as Hall.
  { apply stop_index_no_credit; [exact Hneed|].
    apply Forall_forall. intros v Hv.
    unfold victims in Hv. rewrite (Hperm less _) in Hv.
    apply bePodInfos_of_spec in Hv as (Hin & Hbe & ->).
    rewrite (Hzero _ Hin Hbe). reflexivity. }
  split; [exact Hall|].
  rewrite killAndEvictBEPods_refines. fold victims message.
  rewrite Hall, firstn_all. reflexivity.
Qed.

End Drain.

Section Victims.
Context {h : host}.
Local Abbreviation M := (M h).
Local Abbreviation world := (world h).
Context (r : resmanager) (P : effect -> Prop).

Lemma only_refl (w : world) : only P w w.
Proof. exists []. rewrite app_nil_r. split; [reflexivity|constructor]. Qed.

Lemma only_trans (w1 w2 w3 : world) :
  only P w1 w2 -> only P w2 w3 -> only P w1 w3.
Proof.
  intros (es1 & E1 & H1) (es2 & E2 & H2). exists (es1 ++ es2).
  rewrite E2, E1, <- app_assoc. split; [reflexivity|].
  apply Forall_app. split; assumption.
Qed.

Lemma only_same (w w' : world) : trace w' = trace w -> only P w w'.
Proof.
  intros E. exists []. rewrite app_nil_r. split; [exact E|constructor].
Qed.

Lemma only_emit e : P e -> respects (@only h P) (emit e).
Proof.
  intros He w. exists [(clock w, e)]. split; [reflexivity|].
  repeat constructor. exact He.
Qed.

Lemma elem_of_map_pod p (l : list podInfo) :
  p ∈ map pod l -> exists info, info ∈ l /\ p = pod info.
Proof.
  induction l as [|a l IH]; cbn; intros Hin; [inversion Hin|].
  apply elem_of_cons in Hin as [->|Hin].
  - exists a. split; [apply list_elem_of_here|reflexivity].
  - destruct (IH Hin) as (info & Hinfo & ->).
    exists info. split; [apply list_elem_of_further, Hinfo|reflexivity].
Qed.

End Victims.

Section Targets.
Context {h : host}.
Local Abbreviation M := (M h).
Local Abbreviation world := (world h).

Lemma only_evict r (among : Pod -> Prop) p node reason message :
  among p ->
  respects (@only h (evicts_among among))
    (evictPodIfNotEvicted r p node reason message).
Proof.
  intros Hp w.
  destruct (evictPodIfNotEvicted_world r p node reason message w)
    as (Htr & _).
  eexists. split; [exact Htr|].
  destruct (eval (cache_Get (UID p)) w).2;
    destruct (api_result r p (exec time_Now w));
    repeat constructor; cbn; exists p; auto.
Qed.

Lemma only_klog (among : Pod -> Prop) lvl format :
  respects (@only h (evicts_among among)) (klog lvl format).
Proof. apply (only_emit (evicts_among among) (Log lvl format)). exact I. Qed.

Lemma only_killAndEvictBEPods r (among : Pod -> Prop) node podMetrics need
    (w : world) :
  sort_permutes h ->
  (forall p, p ∈ GetAllPods h (env w) -> QoSClassRaw p = QoSBE -> among p) ->
  only (evicts_among among) w
    (exec (killAndEvictBEPods r node podMetrics need) w).
Proof.
  intros Hperm Hamong. rewrite killAndEvictBEPods_refines. rewrite !exec_bind.
  eapply only_trans; [|apply only_klog].
  eapply only_trans; [|apply only_same; reflexivity].
  eapply only_trans; [|apply only_same; reflexivity].
  eapply only_trans.
  - apply (tame_kill_each (evicts_among among) (only (evicts_among among))).
    + apply only_refl.
    + apply only_trans.
    + apply only_emit.
    + intros A f w0. apply only_same. reflexivity.
    + intros [] He; try exact I. discriminate.
  - apply tame_evictPods.
    + apply only_refl.
    + apply only_trans.
    + intros p Hin. apply only_evict.
      apply elem_of_map_pod in Hin as (info & Hin & ->).
      apply subseteq_take in Hin. rewrite (Hperm less _) in Hin.
      apply bePodInfos_of_spec in Hin as (Hin & Hbe & _).
      apply Hamong; assumption.
Qed.

(** X9. A tick of the memory evictor asks for the eviction of BE pods
    only: every eviction call it makes (given a [sort.Slice] that hands back
    the elements it was given) names, by namespace, name and UID
    precondition, a pod that the informer lists and whose QoS class is
    BE. *)
Theorem memoryEvict_evicts_BE_only r (w : world) :
  sort_permutes h ->
  let w' := exec (memoryEvict r) w in
  Forall
    (fun x =>
       evicts_among
         (fun p => p ∈ GetAllPods h (env (exec time_Now w)) /\
                   QoSClassRaw p = QoSBE) x.2)
    (new_trace w w').
Proof.
  intros Hperm w'. subst w'.
  set (among := fun p => p ∈ GetAllPods h (env (exec time_Now w)) /\
                         QoSClassRaw p = QoSBE).
  assert (only (evicts_among among) w (exec (memoryEvict r) w))
    as (es & Htr & Hes);
    [|rewrite (new_trace_app _ _ _ Htr); exact Hes].
  rewrite memoryEvict_unfold.
  eapply only_trans; [|apply only_klog].
  eapply only_trans; [apply only_klog|].
  destruct (memoryEvict_body_cases r
              (exec (klog (V 5) "starting memory evict process") w))
    as [(lvl & format & -> & _)|(strategy & threshold & node & used & _ & _
                                  & ->)].
  - eapply only_trans; [|apply only_klog].
    apply only_same. reflexivity.
  - rewrite exec_bind.
    eapply only_trans;
      [|apply (only_killAndEvictBEPods r among _ _ _ _ Hperm);
        intros p Hin Hbe; split; [exact Hin|exact Hbe]].
    eapply only_trans; [|apply only_klog].
    apply only_same. reflexivity.
Qed.

End Targets.

Section Switch.
Context {h : host}.
Local Abbreviation M := (M h).
Local Abbreviation world := (world h).

(** X10. [isFeatureDisabled] fails closed.  Whenever it gives an error it
    also says disabled.  It says enabled in one case only: the feature is
    one of [BECPUSuppress], [BEMemoryEvict] and [BECPUEvict], the NodeSLO
    is there, and its strategy has [Enable] set to true.  For every other
    feature it gives an error, whatever the NodeSLO holds; and the three BE
    features share one answer. *)
Theorem isFeatureDisabled_fails_closed (nodeSLO : option NodeSLO)
    (feature : Feature) :
  ((isFeatureDisabled nodeSLO feature).2 <> None ->
   (isFeatureDisabled nodeSLO feature).1 = true) /\
  (isFeatureDisabled nodeSLO feature = (false, None) <->
   (feature = BECPUSuppress \/ feature = BEMemoryEvict \/
    feature = BECPUEvict) /\
   exists slo strategy,
     nodeSLO = Some slo /\
     ResourceUsedThresholdWithBE (Spec slo) = Some strategy /\
     Enable strategy = Some true) /\
  (feature <> BECPUSuppress -> feature <> BEMemoryEvict ->
   feature <> BECPUEvict ->
   isFeatureDisabled nodeSLO feature
   = (true,
      Some (match nodeSLO with
            | Some slo =>
                if spec_is_empty (Spec slo)
                then "cannot parse feature config for invalid nodeSLO %v"
                else "cannot parse feature config for unsupported feature %s"
            | None => "cannot parse feature config for invalid nodeSLO %v"
            end))) /\
  isFeatureDisabled nodeSLO BECPUSuppress
  = isFeatureDisabled nodeSLO BEMemoryEvict /\
  isFeatureDisabled nodeSLO BECPUEvict
  = isFeatureDisabled nodeSLO BEMemoryEvict.
Proof.
  split; [|split; [|split; [|split]]].
  - unfold isFeatureDisabled.
    destruct nodeSLO as [slo|]; [|reflexivity].
    destruct (spec_is_empty (Spec slo)); [reflexivity|].
    destruct feature; try reflexivity;
      destruct (ResourceUsedThresholdWithBE (Spec slo)) as [strategy|];
      try reflexivity;
      destruct (Enable strategy) as [[|]|]; cbn; congruence.
  - split.
    + unfold isFeatureDisabled.
      destruct nodeSLO as [slo|]; [|discriminate].
      destruct (spec_is_empty (Spec slo)); [discriminate|].
      destruct feature; try discriminate;
        destruct (ResourceUsedThresholdWithBE (Spec slo)) as [strategy|]
          eqn:Hstrat;
        try discriminate;
        destruct (Enable strategy) as [[|]|] eqn:Hen; cbn;
        try discriminate;
        intros _; (split; [auto|]); exists slo, strategy; auto.
    + intros [Hfeature (slo & strategy & -> & Hstrat & Hen)].
      unfold isFeatureDisabled, spec_is_empty. rewrite Hstrat, Hen.
      destruct Hfeature as [->|[->| ->]]; reflexivity.
  - intros H1 H2 H3. unfold isFeatureDisabled.
    destruct nodeSLO as [slo|]; [|reflexivity].
    destruct (spec_is_empty (Spec slo)); [reflexivity|].
    destruct feature; try reflexivity; congruence.
  - reflexivity.
  - reflexivity.
Qed.

(** X11. The comparator of [getSortedBEPodInfos] never puts a pod before
    itself, and never puts two pods each before the other, whatever their
    priorities and samples (a sample that is not a number included). *)
Theorem less_asymmetric (a b : podInfo) :
  less a a = false /\ (less a b = true -> less b a = false).
Proof.
  assert (forall x y, by_sample x y = true -> by_sample y x = false) as Hasym.
  { intros x y Hxy. destruct (by_sample y x) eqn:Hyx; [|reflexivity].
    pose proof (by_sample_trans x y x Hxy Hyx) as Hxx.
    rewrite by_sample_irrefl in Hxx. discriminate. }
  split.
  - destruct (Priority (pod a)) as [pa|] eqn:Ha.
    + rewrite (less_set a a pa pa Ha Ha), Z.eqb_refl.
      apply by_sample_irrefl.
    + rewrite less_unset by auto. apply by_sample_irrefl.
  - destruct (Priority (pod a)) as [pa|] eqn:Ha;
      [|rewrite !less_unset by auto; apply Hasym].
    destruct (Priority (pod b)) as [pb|] eqn:Hb;
      [|rewrite !less_unset by auto; apply Hasym].
    rewrite (less_set a b pa pb Ha Hb), (less_set b a pb pa Hb Ha).
    rewrite (Z.eqb_sym pb pa).
    destruct (Z.eqb_spec pa pb); [apply Hasym|].
    intros Hlt. apply Z.ltb_lt in Hlt. apply Z.ltb_ge. lia.
Qed.


End Switch.

Section Stops.
Context {h : host}.
Local Abbreviation M := (M h).
Local Abbreviation world := (world h).

Lemma stopped_ids_app es1 es2 :
  stopped_ids (es1 ++ es2) = stopped_ids es1 ++ stopped_ids es2.
Proof. apply omap_app. Qed.

Lemma killContainers_loop_stops pod message containers (w : world) :
  (forall c, c ∈ containers -> stoppable h pod c) ->
  exists es,
    trace (exec (killContainers_loop pod message containers) w)
    = trace w ++ es /\
    stopped_ids es
    = map (fun c =>
             (FindContainerIdAndStatusByName h (Status pod) (c_Name c)).1.1)
        containers.
Proof.
  revert w. induction containers as [|c cs IH]; intros w Hall.
  - exists []. cbn. rewrite app_nil_r. split; reflexivity.
  - destruct (Hall c (list_elem_of_here _ _))
      as (containerID & status & Hfind & Hrun & Hid & Hhandler).
    assert (forall c', c' ∈ cs -> stoppable h pod c') as Hrest
      by (intros c' Hin; apply Hall, list_elem_of_further, Hin).
    cbn [killContainers_loop map]. rewrite Hfind, Hrun. cbn [negb fst].
    destruct (String.eqb_spec containerID EmptyString) as [|_];
      [contradiction|]. cbn [negb].
    destruct (ParseContainerId h (cs_ContainerID status)) as [[rt ?] ?].
    cbn [fst] in Hhandler. rewrite exec_bind.
    change (eval (ask (fun e => GetRuntimeHandler h e rt)) w)
      with (GetRuntimeHandler h (env w) rt).
    change (exec (ask (fun e => GetRuntimeHandler h e rt)) w) with w.
    destruct (Hhandler (env w)) as [handler ->].
    rewrite !exec_bind.
    change (eval (call (fun e => StopContainer h e handler containerID 0)) w)
      with (StopContainer h (env w) handler containerID 0).1.
    destruct (StopContainer h (env w) handler containerID 0).1 as [err|];
      match goal with
      | |- context [exec (killContainers_loop pod message cs) ?w0] =>
          destruct (IH w0 Hrest) as (es & Htr & Hids)
      end;
      rewrite Htr; cbn [exec emit klog ret trace snd];
      rewrite <- ?app_assoc; eexists; (split; [reflexivity|]);
      rewrite ?stopped_ids_app; cbn; rewrite Hids; reflexivity.
Qed.

(** X13. A stop that fails does not keep [killContainers] from the next
    container.  When every container of the pod's spec is found running,
    with an ID and a runtime that has a handler, the stops asked for are
    those of all the containers, in the order of the spec, whatever the
    runtime answers to each of them. *)
Theorem killContainers_stops_every_container pod message (w : world) :
  (forall c, c ∈ Containers pod -> stoppable h pod c) ->
  stopped_ids (new_trace w (exec (killContainers pod message) w))
  = map (fun c =>
           (FindContainerIdAndStatusByName h (Status pod) (c_Name c)).1.1)
      (Containers pod).
Proof.
  intros Hall.
  destruct (killContainers_loop_stops pod message (Containers pod) w Hall)
    as (es & Htr & Hids).
  unfold killContainers. rewrite (new_trace_app _ _ _ Htr). exact Hids.
Qed.

End Stops.

Section Startup.
Context {h : host}.
Local Abbreviation M := (M h).
Local Abbreviation world := (world h).

Lemma memoryEvict_cooling_quiet r (w : world) :
  Int64.in_range (cool_time r) ->
  eval time_Now w < lastEvictTime w + cool_time r ->
  quiet w (exec (memoryEvict r) w).
Proof.
  intros Hrange Hcool.
  apply (memoryEvict_of_log r w (V 5)
           "skip memory evict process, still in evict cooling time").
  unfold memoryEvict_body. rewrite !exec_bind.
  match goal with
  | |- context [in_cooling_time r ?a ?b] =>
      replace (in_cooling_time r a b) with true; [reflexivity|]
  end.
  symmetry. unfold in_cooling_time, Int64.mul. fold (cool_time r).
  rewrite wrap_in_range by exact Hrange.
  apply Z.ltb_lt. exact Hcool.
Qed.

Lemma Run_synced_world r (w : world) :
  1 <= collectResUsedIntervalSeconds r ->
  WaitForCacheSync h (env w) = true ->
  let w1 := exec time_Now w in
  clock (exec (Run r) w) = clock w1 /\
  env (exec (Run r) w) = env w1 /\
  lastEvictTime (exec (Run r) w) = clock w1 /\
  podsEvicted (exec (Run r) w) = podsEvicted w /\
  eval (Run r) w
  = match StartPlugins h (env w1) (QOSExtensionCfg (config r)) with
    | Some _ => Panicked
    | None => Returned None
    end.
Proof.
  intros Hge Hsync w1. subst w1. unfold Run.
  destruct (Z.ltb_spec (collectResUsedIntervalSeconds r) 1); [lia|].
  rewrite !exec_bind, !eval_bind.
  change (eval (ask (WaitForCacheSync h)) ?w0)
    with (WaitForCacheSync h (env w)).
  rewrite Hsync. cbn [negb].
  cbv beta iota zeta delta
    [exec eval bind emit klog ask ret NewMemoryEvictor time_Now
     set_lastEvictTime fst snd trace clock env podsEvicted lastEvictTime].
  match goal with
  | |- context [StartPlugins h ?e ?c] => destruct (StartPlugins h e c)
  end;
    cbv beta iota zeta delta
      [exec eval bind emit klog ask ret fst snd trace clock env
       podsEvicted lastEvictTime];
    repeat split.
Qed.

(** X14. [Run] with a synced informer builds the memory evictor with
    [lastEvictTime] at the time of its start, panics exactly when
    [StartPlugins] fails and returns nil otherwise, and leaves the evicted
    set alone.  So, for a cool time whose nanoseconds fit an [int64], the
    first tick of the memory evictor that comes before a cool time has gone
    by since the start does nothing but log. *)
Theorem Run_then_cooling r (w : world) :
  1 <= collectResUsedIntervalSeconds r ->
  WaitForCacheSync h (env w) = true ->
  let w' := exec (Run r) w in
  (eval (Run r) w = Panicked <->
   StartPlugins h (env w') (QOSExtensionCfg (config r)) <> None) /\
  (eval (Run r) w = Returned None <->
   StartPlugins h (env w') (QOSExtensionCfg (config r)) = None) /\
  lastEvictTime w' = clock w' /\
  podsEvicted w' = podsEvicted w /\
  (Int64.in_range (cool_time r) ->
   Z.of_N (elapse h (env w')).1 < cool_time r ->
   quiet w' (exec (memoryEvict r) w')).
Proof.
  intros Hge Hsync w'.
  destruct (Run_synced_world r w Hge Hsync) as (Hc & He & Hl & Hp & Hout).
  fold w' in Hc, He, Hl, Hp. rewrite Hout.
  split; [|split; [|split; [congruence|split; [exact Hp|]]]].
  - rewrite He. destruct (StartPlugins h _ _); split; congruence.
  - rewrite He. destruct (StartPlugins h _ _); split; congruence.
  - intros Hrange Hsoon. apply memoryEvict_cooling_quiet; [exact Hrange|].
    change (eval time_Now w') with (clock w' + Z.of_N (elapse h (env w')).1).
    lia.
Qed.

End Startup.

Section Queries.

Context {MetricProperties MetricMeta QueryParam AggregateResult : Type}.
Context
  (factory : MetricCache.AggregateResultFactory MetricMeta AggregateResult)
  (querier : MetricCache.Querier MetricMeta QueryParam AggregateResult)
  (resource : MetricCache.MetricResource MetricProperties MetricMeta).

(** X15. [doQuery] gives a result or an error, never both and never
    neither.  When the meta of the query cannot be built, the error is that
    of [BuildQueryMeta], whatever the querier would answer.  Otherwise the
    querier is asked once, with no time range and a result fresh from the
    factory: its error is handed on, and without one the result it filled is
    returned. *)
Theorem doQuery_result_or_error (properties : MetricProperties) :
  let built := MetricCache.BuildQueryMeta resource properties in
  let asked :=
    MetricCache.Query querier built.1 None (MetricCache.New factory built.1) in
  let answer := doQuery factory querier resource properties in
  (answer.1 = None <-> answer.2 <> None) /\
  (built.2 <> None -> answer = (None, built.2)) /\
  (built.2 = None -> asked.1 <> None -> answer = (None, asked.1)) /\
  (built.2 = None -> asked.1 = None -> answer = (Some asked.2, None)).
Proof.
  intros built asked answer. subst built asked answer. unfold doQuery.
  destruct (MetricCache.BuildQueryMeta resource properties)
    as [queryMeta [err|]]; cbn [fst snd].
  - repeat split; try congruence.
  - destruct (MetricCache.Query querier queryMeta None
                (MetricCache.New factory queryMeta)) as [[err|] filled];
      cbn [fst snd]; repeat split; congruence.
Qed.

End Queries.

Section Phases.
Context {h : host}.
Local Abbreviation M := (M h).
Local Abbreviation world := (world h).

Lemma count_effects_none f (es : list (Z * effect)) :
  Forall (fun x => f x.2 = false) es -> count_effects f es = 0%nat.
Proof.
  induction 1 as [|x es Hx _ IH]; [reflexivity|].
  unfold count_effects in *. rewrite filter_cons_False; [exact IH|].
  congruence.
Qed.

Lemma only_kill_each message victims (w : world) :
  only (fun e => killer_effect e = true) w
    (exec (kill_each message victims) w).
Proof.
  apply (tame_kill_each (fun e => killer_effect e = true)
           (only (fun e => killer_effect e = true))).
  - apply only_refl.
  - apply only_trans.
  - apply only_emit.
  - intros A f w0. apply only_same. reflexivity.
  - auto.
Qed.

Lemma only_evictPods r pods node reason message (w : world) :
  only (fun e => executor_effect r e = true) w
    (exec (evictPodsIfNotEvicted r pods node reason message) w).
Proof.
  apply tame_evictPods.
  - apply only_refl.
  - apply only_trans.
  - intros p _ w0.
    destruct (evictPodIfNotEvicted_world r p node reason message w0)
      as (Htr & _).
    eexists. split; [exact Htr|]. apply evict_effects_executor.
Qed.

(** The trace of a wave, in its two phases. *)
Lemma killAndEvictBEPods_phases r node podMetrics need (w : world) :
  let victims :=
    sort_Slice h less (bePodInfos_of podMetrics (GetAllPods h (env w))) in
  let killed := take (stop_index h need 0 victims) victims in
  exists kills evictions now,
    trace (exec (killAndEvictBEPods r node podMetrics need) w)
    = trace w ++ kills ++ evictions
      ++ [(now,
           Log Info
             "killAndEvictBEPods completed, memoryNeedRelease(%v) memoryReleased(%v)")]
    /\
    Forall (fun x => killer_effect x.2 = true) kills /\
    Forall (fun x => executor_effect r x.2 = true) evictions /\
    (count_effects is_audit evictions
     + count_effects is_already_evicted evictions)%nat = length killed /\
    count_effects is_evict_call evictions = count_effects is_audit evictions.
Proof.
  intros victims killed.
  rewrite killAndEvictBEPods_refines. fold victims killed.
  rewrite !exec_bind.
  set (message := "killAndEvictBEPods for node(" +:+ nodeName r
                    +:+ "), need to release memory: " +:+ pretty need).
  destruct (only_kill_each message killed w) as (kills & Hk & Hkills).
  set (w1 := exec (kill_each message killed) w) in *.
  destruct (evictPodsIfNotEvicted_counts r (map pod killed) node
              EvictPodByNodeMemoryUsage message w1)
    as (_ & evictions & He & Hsum & Hcalls).
  destruct (only_evictPods r (map pod killed) node
              EvictPodByNodeMemoryUsage message w1)
    as (evictions' & He' & Hevictions).
  assert (evictions' = evictions) as ->.
  { rewrite He in He'. exact (app_inv_head _ _ _ (eq_sym He')). }
  set (w2 := exec (evictPodsIfNotEvicted r (map pod killed) node
                     EvictPodByNodeMemoryUsage message) w1) in *.
  exists kills, evictions, (eval time_Now w2).
  split; [|split; [exact Hkills|split; [exact Hevictions|split]]].
  - cbn. rewrite He, Hk, <- !app_assoc. reflexivity.
  - rewrite Hsum, length_map. reflexivity.
  - exact Hcalls.
Qed.

(** X16. A wave kills first and evicts afterwards.  What
    [killAndEvictBEPods] writes falls into two parts and its last line: in
    the first part there are stops (and the killer's error lines) and no
    eviction call; in the second part there is no stop, and every victim
    whose containers were killed is either found in the evicted set or
    gets its audit record and its API call.  So the containers of a victim
    are gone before the API is asked, also when the API then refuses. *)
Theorem killAndEvictBEPods_kills_then_evicts r node podMetrics need
    (w : world) :
  let victims :=
    sort_Slice h less (bePodInfos_of podMetrics (GetAllPods h (env w))) in
  let killed := take (stop_index h need 0 victims) victims in
  exists kills evictions now,
    new_trace w (exec (killAndEvictBEPods r node podMetrics need) w)
    = kills ++ evictions
      ++ [(now,
           Log Info
             "killAndEvictBEPods completed, memoryNeedRelease(%v) memoryReleased(%v)")]
    /\
    count_effects is_evict_call kills = 0%nat /\
    count_effects is_audit kills = 0%nat /\
    count_effects is_stop_call evictions = 0%nat /\
    (count_effects is_audit evictions
     + count_effects is_already_evicted evictions)%nat = length killed /\
    count_effects is_evict_call evictions = count_effects is_audit evictions.
Proof.
  intros victims killed.
  destruct (killAndEvictBEPods_phases r node podMetrics need w)
    as (kills & evictions & now & Htr & Hkills & Hevictions & Hsum & Hcalls).
  exists kills, evictions, now.
  split; [exact (new_trace_app _ _ _ Htr)|]. repeat split; try assumption.
  - apply count_effects_none. eapply Forall_impl; [exact Hkills|].
    intros [t []]; cbn; congruence.
  - apply count_effects_none. eapply Forall_impl; [exact Hkills|].
    intros [t []]; cbn; congruence.
  - apply count_effects_none. eapply Forall_impl; [exact Hevictions|].
    intros [t []]; cbn; congruence.
Qed.

Lemma trace_klog lvl format (w : world) :
  trace (exec (klog lvl format) w) = trace w ++ [(clock w, Log lvl format)].
Proof. reflexivity. Qed.

Lemma trace_now (w : world) : trace (exec time_Now w) = trace w.
Proof. reflexivity. Qed.

Lemma memoryEvict_acts r (w : world) strategy threshold node used :
  ready r (exec time_Now w) strategy threshold node used ->
  threshold <= nodeMemoryUsage_of h used (CapacityMemory node) ->
  exec (memoryEvict r) w
  = exec (klog (V 5) "memory evict process completed")
      (exec (killAndEvictBEPods r node
               (collectAllPodMetricsLast h (env (exec time_Now w)))
               (memoryNeedRelease_of (CapacityMemory node)
                  (nodeMemoryUsage_of h used (CapacityMemory node))
                  (lowerPercent_of strategy threshold)))
         (exec (klog Info
                  "node(%v) MemoryUsage(%v): %.2f, evictThresholdUsage: %.2f, evictLowerUsage: %.2f")
            (exec time_Now
               (exec (klog (V 5) "starting memory evict process") w)))).
Proof.
  intros Hready Hge.
  destruct (memoryEvict_body_cases r
              (exec (klog (V 5) "starting memory evict process") w))
    as [(lvl & format & _ & [Hcool|Hskip])
       |(s' & t' & n' & u' & Hready' & _ & Hbody)].
  - exfalso. pose proof (ready_cool r _ _ _ _ _ Hready) as Hc.
    change (in_cooling_time r (clock (exec time_Now w))
              (lastEvictTime (exec time_Now w)) = true) in Hcool.
    congruence.
  - exfalso.
    exact (skip_reason_not_ready r (exec time_Now w) _ _ _ _ Hskip Hready
             Hge).
  - assert (s' = strategy /\ t' = threshold /\ n' = node /\ u' = used)
      as (-> & -> & -> & ->).
    { eapply ready_unique; [|exact Hready|exact Hready']. reflexivity. }
    rewrite memoryEvict_unfold, Hbody, exec_bind. reflexivity.
Qed.

(** X17. A tick over the threshold does not go by without a victim.  On a
    node of at least 100 bytes of memory (and with a budget that fits an
    [int64]) the budget of a tick that all the guards let through is
    positive, so the first pod of the sorted list is always killed: when the
    node runs a BE pod at all, at least one pod is handed to the evictor. *)
Theorem memoryEvict_takes_first_victim r (w : world) strategy threshold node
    used :
  let w1 := exec time_Now w in
  ready r w1 strategy threshold node used ->
  let capacity := CapacityMemory node in
  let usage := nodeMemoryUsage_of h used capacity in
  let lower := lowerPercent_of strategy threshold in
  let need_release := memoryNeedRelease_of capacity usage lower in
  let victims :=
    sort_Slice h less
      (bePodInfos_of (collectAllPodMetricsLast h (env w1))
         (GetAllPods h (env w1))) in
  let es := new_trace w (exec (memoryEvict r) w) in
  threshold <= usage ->
  Int64.in_range (usage - lower) ->
  Int64.in_range (capacity * (usage - lower)) ->
  100 <= capacity ->
  victims <> [] ->
  0 < need_release /\
  (0 < stop_index h need_release 0 victims)%nat /\
  (0 < count_effects is_audit es + count_effects is_already_evicted es)%nat.
Proof.
  intros w1 Hready capacity usage lower need_release victims es Hge Hr1 Hr2
    Hcap Hsome.
  pose proof (ready_lower r _ _ _ _ _ Hready) as Hlow. fold lower in Hlow.
  assert (0 < need_release) as Hneed.
  { unfold need_release, memoryNeedRelease_of, Int64.sub.
    rewrite (wrap_in_range _ Hr1). unfold Int64.mul.
    rewrite (wrap_in_range _ Hr2).
    rewrite quot_floor; [|unfold Int64.in_range in Hr2; nia|lia].
    apply Z.div_str_pos. nia. }
  assert (0 < stop_index h need_release 0 victims)%nat as Hfirst.
  { destruct victims as [|v rest]; [congruence|]. cbn [stop_index].
    destruct (Z.leb_spec need_release 0); lia. }
  split; [exact Hneed|]. split; [exact Hfirst|].
  subst es. rewrite (memoryEvict_acts r w _ _ _ _ Hready Hge).
  match goal with
  | |- context [exec (killAndEvictBEPods r ?n ?p ?x) ?w0] =>
      destruct (killAndEvictBEPods_phases r n p x w0)
        as (kills & evictions & now & Htr & _ & _ & Hsum & _);
      set (w3 := exec (killAndEvictBEPods r n p x) w0) in *
  end.
  cbn zeta in Hsum.
  rewrite trace_klog, trace_now, trace_klog in Htr.
  erewrite new_trace_app;
    [|rewrite trace_klog, Htr, <- !app_assoc; reflexivity].
  rewrite !count_effects_app.
  assert (1 <= count_effects is_audit evictions
               + count_effects is_already_evicted evictions)%nat.
  { rewrite Hsum.
    change (1 <= length (take (stop_index h need_release 0 victims)
                           victims))%nat.
    rewrite length_take.
    destruct victims; [congruence|]. cbn [length]. lia. }
  lia.
Qed.

End Phases.

Section Usage.
Context {h : host}.

(** X18. The integer division of the usage percent adds no rounding of its
    own to the trigger.  With [int64(used)] the node metric cut to whole
    bytes, not negative and with a hundredfold that fits an [int64], and
    with a positive capacity, the usage percent of the tick has reached the
    threshold exactly when [100 * int64(used)] is at least the threshold
    times the capacity.  (What the cut of the metric to whole bytes takes
    away is not given back.) *)
Theorem nodeMemoryUsage_threshold (nodeMemoryUsed : float64)
    (memoryCapacity thresholdPercent : Z) :
  0 < memoryCapacity ->
  0 <= to_int64 h nodeMemoryUsed ->
  to_int64 h nodeMemoryUsed * 100 <= Int64.max_int ->
  (thresholdPercent <= nodeMemoryUsage_of h nodeMemoryUsed memoryCapacity <->
   thresholdPercent * memoryCapacity <= to_int64 h nodeMemoryUsed * 100).
Proof.
  intros Hcap Hpos Hfit.
  unfold nodeMemoryUsage_of, Int64.mul.
  rewrite wrap_in_range
    by (unfold Int64.in_range, Int64.min_int, Int64.max_int in *; lia).
  rewrite quot_floor by lia.
  split.
  - intros Hle.
    pose proof (Z.mul_div_le (to_int64 h nodeMemoryUsed * 100) memoryCapacity
                  Hcap).
    nia.
  - intros Hle. apply Z.div_le_lower_bound; [exact Hcap|lia].
Qed.

End Usage.

(** * The further properties on the scripted node *)

Lemma after_tick_reachable : reachable Demo.manager Demo.after_tick.
Proof.
  eapply reachable_step; [|apply step_tick].
  eapply reachable_step; [apply reachable_new|].
  apply (@step_env Demo.node_host Demo.manager 61000000000%N Demo.pressure
           Demo.started).
Qed.

Lemma after_rejection_reachable :
  reachable Demo.manager Cases.after_rejection.
Proof.
  eapply reachable_step; [|apply step_tick].
  eapply reachable_step; [apply reachable_new|].
  apply (@step_env Demo.node_host Demo.manager 61000000000%N
           (Demo.with_api_outcomes [false] Demo.pressure) Demo.started).
Qed.

Lemma second_wave_reachable : reachable Demo.manager Cases.second_wave.
Proof.
  eapply reachable_step; [|apply step_tick].
  eapply reachable_step; [apply after_tick_reachable|].
  apply (@step_env Demo.node_host Demo.manager 61000000000%N Demo.pressure
           Demo.after_tick).
Qed.

Lemma sort_by_permutes : sort_permutes Demo.node_host.
Proof. intros lt l. apply sort_by_perm. Qed.

Lemma isFeatureDisabled_fails_closed_witness :
  let nodeSLO := Some (Demo.slo_of (Demo.strategy true (Some 70) (Some 60))) in
  isFeatureDisabled nodeSLO BEMemoryEvict = (false, None) /\
  isFeatureDisabled nodeSLO CPUBurst
  = (true, Some "cannot parse feature config for unsupported feature %s").
Proof.
  intros nodeSLO.
  destruct (isFeatureDisabled_fails_closed nodeSLO BEMemoryEvict)
    as (_ & Henabled & _).
  destruct (isFeatureDisabled_fails_closed nodeSLO CPUBurst)
    as (_ & _ & Hother & _).
  split.
  - apply Henabled. split; [auto|].
    eexists _, _. repeat split; reflexivity.
  - apply Hother; discriminate.
Defined.

Lemma killContainers_stops_every_container_witness :
  let w := Demo.at_time 0 Cases.failing_stop in
  stopped_ids
    (new_trace w (exec (killContainers Cases.twin_pod "message") w))
  = ["id-1"; "id-2"] /\
  count_effects is_log
    (new_trace w (exec (killContainers Cases.twin_pod "message") w))
  = 1%nat.
Proof.
  intros w. split; [|vm_compute; reflexivity].
  apply (killContainers_stops_every_container (h := Demo.node_host)
           Cases.twin_pod "message" w).
  intros c Hc.
  repeat (apply elem_of_cons in Hc as [->|Hc]); [..|inversion Hc];
    eexists _, _; (split; [vm_compute; reflexivity|]);
    (split; [reflexivity|]); (split; [discriminate|]);
    intros e; eexists; vm_compute; reflexivity.
Defined.

Lemma reachable_trace_shape_witness :
  reachable Demo.manager Cases.after_rejection /\
  Forall (fun x => manager_effect Demo.manager x.2 = true)
    (trace Cases.after_rejection).
Proof.
  split; [exact after_rejection_reachable|].
  apply (reachable_trace_shape Demo.manager Cases.after_rejection
           after_rejection_reachable).
Defined.

Lemma eviction_call_bracketed_witness :
  reachable Demo.manager Cases.after_rejection /\
  bracketed (trace Cases.after_rejection) /\
  count_effects is_evict_call (trace Cases.after_rejection) = 3%nat.
Proof.
  split; [exact after_rejection_reachable|]. split.
  - exact (eviction_call_bracketed Demo.manager Cases.after_rejection
             after_rejection_reachable).
  - vm_compute. reflexivity.
Defined.

Lemma podsEvicted_backed_witness :
  reachable Demo.manager Cases.after_rejection /\
  entries_backed Cases.after_rejection /\
  podsEvicted Cases.after_rejection !! "uid-c" = None /\
  is_Some (podsEvicted Cases.after_rejection !! "uid-b").
Proof.
  split; [exact after_rejection_reachable|]. split; [|split].
  - exact (podsEvicted_backed Demo.manager Cases.after_rejection
             after_rejection_reachable).
  - vm_compute. reflexivity.
  - eexists. vm_compute. reflexivity.
Defined.

Lemma killAndEvictBEPods_nothing_to_release_witness :
  let w := Demo.at_time 5 Demo.pressure in
  let w' :=
    exec (killAndEvictBEPods Demo.manager Demo.the_node ∅ 0) w in
  0 <= 0 /\
  new_trace w w'
  = [(5,
      Log Info
        "killAndEvictBEPods completed, memoryNeedRelease(%v) memoryReleased(%v)")]
  /\ lastEvictTime w' = 5.
Proof.
  intros w w'. split; [lia|].
  destruct (killAndEvictBEPods_nothing_to_release (h := Demo.node_host)
              Demo.manager Demo.the_node ∅ 0 w) as (Htr & Hl & _);
    [left; lia|].
  split; [exact Htr|exact Hl].
Defined.

Lemma killAndEvictBEPods_without_samples_witness :
  let w := Demo.at_time 0 Demo.pressure in
  sort_permutes Demo.node_host /\
  stop_index Demo.node_host 1 0
    (sort_Slice Demo.node_host less
       (bePodInfos_of ∅ (GetAllPods Demo.node_host (env w))))
  = 3%nat.
Proof.
  intros w. split; [exact sort_by_permutes|].
  destruct (killAndEvictBEPods_without_samples (h := Demo.node_host)
              Demo.manager Demo.the_node ∅ 1 w) as [Hall _].
  - lia.
  - exact sort_by_permutes.
  - intros p _ _. rewrite lookup_empty. reflexivity.
  - rewrite Hall. vm_compute. reflexivity.
Defined.

Lemma memoryEvict_evicts_BE_only_witness :
  sort_permutes Demo.node_host /\
  Forall
    (fun x =>
       evicts_among
         (fun p => p ∈ GetAllPods Demo.node_host
                         (env (exec time_Now Demo.later)) /\
                   QoSClassRaw p = QoSBE) x.2)
    (new_trace Demo.later Demo.after_tick) /\
  count_effects is_evict_call (new_trace Demo.later Demo.after_tick) = 3%nat.
Proof.
  split; [exact sort_by_permutes|]. split.
  - exact (memoryEvict_evicts_BE_only (h := Demo.node_host) Demo.manager
             Demo.later sort_by_permutes).
  - vm_compute. reflexivity.
Defined.

Lemma Run_then_cooling_witness :
  let w := Demo.at_time 0 Demo.pressure in
  let w' := exec (Run Demo.manager) w in
  1 <= collectResUsedIntervalSeconds Demo.manager /\
  WaitForCacheSync Demo.node_host (env w) = true /\
  Int64.in_range (cool_time Demo.manager) /\
  eval (Run Demo.manager) w = Returned None /\
  quiet w' (exec (memoryEvict Demo.manager) w').
Proof.
  intros w w'.
  assert (1 <= collectResUsedIntervalSeconds Demo.manager) as Hge
    by (vm_compute; congruence).
  assert (WaitForCacheSync Demo.node_host (env w) = true) as Hsync
    by reflexivity.
  assert (Int64.in_range (cool_time Demo.manager)) as Hrange
    by (vm_compute; split; congruence).
  destruct (Run_then_cooling (h := Demo.node_host) Demo.manager w Hge Hsync)
    as (_ & Hnil & _ & _ & Hquiet).
  split; [exact Hge|]. split; [exact Hsync|]. split; [exact Hrange|].
  split.
  - apply Hnil. reflexivity.
  - apply Hquiet; [exact Hrange|]. vm_compute. reflexivity.
Defined.

Lemma doQuery_result_or_error_witness :
  doQuery Cases.factory Cases.querier Cases.resource 0%nat
  = (None, Some "unknown metric") /\
  doQuery Cases.factory Cases.querier Cases.resource 1%nat = (Some 42, None) /\
  doQuery Cases.factory Cases.querier Cases.resource 2%nat
  = (None, Some "no data").
Proof.
  destruct (doQuery_result_or_error Cases.factory Cases.querier Cases.resource
              0%nat) as (_ & Hbuild & _).
  destruct (doQuery_result_or_error Cases.factory Cases.querier Cases.resource
              1%nat) as (_ & _ & _ & Hfilled).
  destruct (doQuery_result_or_error Cases.factory Cases.querier Cases.resource
              2%nat) as (_ & _ & Hquery & _).
  split; [|split].
  - apply Hbuild. discriminate.
  - apply Hfilled; reflexivity.
  - apply Hquery; [reflexivity|discriminate].
Defined.

Lemma less_asymmetric_witness :
  less Demo.infoC Demo.infoA = true /\ less Demo.infoA Demo.infoC = false.
Proof.
  assert (less Demo.infoC Demo.infoA = true) as Hca by reflexivity.
  split; [exact Hca|].
  exact (proj2 (less_asymmetric Demo.infoC Demo.infoA) Hca).
Defined.


Lemma waves_apart_witness :
  Int64.in_range (cool_time Demo.manager) /\
  reachable Demo.manager Cases.second_wave /\
  waves_spaced Demo.manager (trace Cases.second_wave) /\
  count_effects is_wave_end (trace Cases.second_wave) = 2%nat.
Proof.
  assert (Int64.in_range (cool_time Demo.manager)) as Hrange
    by (vm_compute; split; congruence).
  split; [exact Hrange|]. split; [exact second_wave_reachable|]. split.
  - exact (waves_apart (h := Demo.node_host) Demo.manager Cases.second_wave
             Hrange second_wave_reachable).
  - vm_compute. reflexivity.
Defined.

Lemma memoryEvict_takes_first_victim_witness :
  ready Demo.manager (exec time_Now Demo.later)
    (Demo.strategy true (Some 70) (Some 60)) 70 Demo.the_node
    (Float64.of_Z (80 * Demo.GiB)) /\
  (0 < count_effects is_audit (new_trace Demo.later Demo.after_tick)
       + count_effects is_already_evicted
           (new_trace Demo.later Demo.after_tick))%nat.
Proof.
  split; [exact pressure_ready|].
  destruct (memoryEvict_takes_first_victim (h := Demo.node_host) Demo.manager
              Demo.later _ _ _ _ pressure_ready) as (_ & _ & Hsome).
  - vm_compute. congruence.
  - vm_compute. split; congruence.
  - vm_compute. split; congruence.
  - vm_compute. congruence.
  - vm_compute. discriminate.
  - exact Hsome.
Defined.

Lemma nodeMemoryUsage_threshold_witness :
  let used := Float64.of_Z (80 * Demo.GiB) in
  let capacity := CapacityMemory Demo.the_node in
  0 < capacity /\
  70 <= nodeMemoryUsage_of Demo.node_host used capacity /\
  ~ 81 <= nodeMemoryUsage_of Demo.node_host used capacity.
Proof.
  intros used capacity.
  assert (0 < capacity) as Hcap by (vm_compute; congruence).
  assert (0 <= to_int64 Demo.node_host used) as Hpos
    by (vm_compute; congruence).
  assert (to_int64 Demo.node_host used * 100 <= Int64.max_int) as Hfit
    by (vm_compute; congruence).
  split; [exact Hcap|]. split.
  - apply (nodeMemoryUsage_threshold (h := Demo.node_host) used capacity 70
             Hcap Hpos Hfit).
    vm_compute. congruence.
  - intros Hle.
    apply (nodeMemoryUsage_threshold (h := Demo.node_host) used capacity 81
             Hcap Hpos Hfit) in Hle.
    vm_compute in Hle. congruence.
Defined.
